(** * Bridge detour analysis: traversals.py and detours.py

    A shallow embedding of the two geoprocessing scripts
    [Traversals_121820.py] and [Detours_121820.py].

    Both scripts drive ArcGIS tools over tables of a file geodatabase.  The
    tables are embedded as lists of records, one record per row, a field that
    holds null (or that has not been added yet) as [None].  The Python
    expressions handed to [CalculateField] are embedded as functions into a
    small exception monad, so that a null operand or a zero divisor is an
    exception of the expression and not a number.

    Numbers: the DOUBLE and FLOAT fields are embedded as exact rationals
    ([Qc]); rounding of machine floats is outside this development.

    The Network Analyst solver, the spatial join and the geodesic length are
    the scripts' external collaborators; they appear as section variables.

    The text of traversals.py.  [Traversals_121820.py] as it stands is not
    a Python program: line 125 starts with the stray text [, thou] before
    [descNet = arcpy.Describe(inNetworkDataset)], and line 208 reads
    [busY = "Business_Y"income].  The Python compiler rejects the file for
    either line, before any statement of it runs, so that the file as it
    stands calculates nothing.  [Traversals] and [Network] below embed the
    script with these two stray tokens taken out and nothing else changed,
    and every statement below about traversals.py, or about a table that
    traversals.py leaves, is a statement about the script read in that way.
    [Detours_121820.py] is a Python program as it stands and is embedded as
    it stands.

    Left out: the copy of the geodatabase, the timing reports and the
    deletion of solved layers.  The two counters of the progress report and
    the optional traversal counts of the network segments ([calcNetwork], off
    in the script) are embedded on their own, beside the scripts.  A field
    joined or added under a name the table already has is taken to replace
    it.  Which rows the cursors of traversals.py write when a cursor raises
    is a variable of the embedding. *)

From Stdlib Require Import QArith Qcanon Ascii String.
From stdpp Require Import base numbers strings list gmap pretty.

Open Scope Qc_scope.

(** ** Python values and arithmetic *)

Module Py.

(** The exceptions the embedded expressions and statements can raise. *)
Inductive exn : Set :=
| TypeError
| ZeroDivisionError
| SyntaxError
| NameError.

Inductive result (A : Type) : Type :=
| Val (a : A)
| Raise (e : exn).
Arguments Val {A} a.
Arguments Raise {A} e.

#[global] Instance result_ret : MRet result := λ A a, Val a.
#[global] Instance result_bind : MBind result := λ A B f m,
  match m with
  | Val a => f a
  | Raise e => Raise e
  end.

(** A field value as an expression sees it: [None] is Python's [None]
    (a null field), [Some q] a number. *)
Definition value : Type := option Qc.

Definition add (a b : value) : result value :=
  match a, b with
  | Some x, Some y => Val (Some (x + y))
  | _, _ => Raise TypeError
  end.

Definition sub (a b : value) : result value :=
  match a, b with
  | Some x, Some y => Val (Some (x - y))
  | _, _ => Raise TypeError
  end.

Definition mul (a b : value) : result value :=
  match a, b with
  | Some x, Some y => Val (Some (x * y))
  | _, _ => Raise TypeError
  end.

(** [a / b]: true division. *)
Definition truediv (a b : value) : result value :=
  match a, b with
  | Some x, Some y =>
      if decide (y = 0) then Raise ZeroDivisionError else Val (Some (x / y))
  | _, _ => Raise TypeError
  end.

(** [a ** k] for an integer literal [k]. *)
Definition pow (a : value) (k : Z) : result value :=
  match a with
  | None => Raise TypeError
  | Some x =>
      match k with
      | Z0 => Val (Some 1)
      | Zpos p => Val (Some (x ^ Pos.to_nat p))
      | Zneg p =>
          if decide (x = 0) then Raise ZeroDivisionError
          else Val (Some (/ (x ^ Pos.to_nat p)))
      end
  end.

(** An integer literal of an expression. *)
Definition lit (z : Z) : value := Some (Qc_of_Z z).

(** ["{0}".format(i)] for an integer [i]. *)
Definition str_int (i : Z) : string := pretty i.

End Py.

(** ** The geoprocessing tools the scripts call *)

Module Arc.

(** [CalculateField] with a Python 3 expression: the value stored in a row
    is the value of the expression; a row whose expression raises (a null
    operand, a division by zero) is set to null, with a warning, and the tool
    goes on to the next row. *)
Definition stored (r : Py.result Py.value) : Py.value :=
  match r with
  | Py.Val v => v
  | Py.Raise _ => None
  end.

(** [JoinField] takes, for each input row, the first row of the join table
    with the same key. *)
Fixpoint first_match {A K : Type} `{EqDecision K}
    (key : A → K) (k : K) (tbl : list A) : option A :=
  match tbl with
  | [] => None
  | a :: tbl' => if decide (key a = k) then Some a else first_match key k tbl'
  end.

(** The wild card of [ListFields]: ["*"] stands for any run of characters,
    every other character for itself (the field names of the scripts are
    written in one case throughout). *)
Fixpoint wild (p : string) : string → bool :=
  match p with
  | EmptyString => λ s, bool_decide (s = EmptyString)
  | String c p' =>
      if decide (c = "*"%char) then
        fix star (s : string) : bool :=
          wild p' s ||
          match s with
          | EmptyString => false
          | String _ s' => star s'
          end
      else
        λ s, match s with
             | EmptyString => false
             | String d s' => bool_decide (c = d) && wild p' s'
             end
  end.

Definition ListFields (schema : list string) (wild_card : string) : list string :=
  filter (λ f, wild wild_card f = true) schema.

(** The sum of a summary field over a group of rows ([Frequency]): nulls
    are left out, and a group with no value is given a null sum here; no
    result below depends on what the tool gives for such a group. *)
Definition sum_field (vs : list Py.value) : Py.value :=
  match omap id vs with
  | [] => None
  | q :: qs => Some (foldl Qcplus q qs)
  end.

End Arc.

(** ** The closest-facility layer

    What the scripts load into a Network Analyst layer before they hand it
    to the solver. *)

Module NA.

(** The features given to [AddLocations]: a feature class of the
    geodatabase, or a feature layer made of one by a where clause. *)
Inductive features : Type :=
| FeatureClass (name : string)
| FeatureLayer (in_features where_clause : string).

(** One call of [AddLocations]: the features and the search criteria,
    [None] for ['#'], the criteria that the layer has by default.  The search
    criteria give each source of the network dataset a snap type. *)
Record locations : Type := {
  in_table : features;
  search_criteria : option (list (string * string))
}.

Record layer : Type := {
  in_network_dataset : string;
  impedance_attribute : string;
  Facilities : locations;
  Incidents : locations;
  Point_Barriers : option locations
}.

(** Under search criteria a location may be placed on a source when the
    criteria give the source a snap type other than ["NONE"]. *)
Definition locatable (criteria : list (string * string)) (source : string) : Prop :=
  ∃ snap_type, (source, snap_type) ∈ criteria ∧ snap_type ≠ "NONE".

End NA.

(** ** Tables of the geodatabase *)

(** A line geometry ([SHAPE@]): the vertices of a route. *)
Definition polyline : Type := list (Qc * Qc).

(** The business points; [Truck_Int] is the field traversals.py adds. *)
Module businesses.
Record row : Type := {
    OBJECTID : Z;
    POINT_X : Py.value;
    POINT_Y : Py.value;
    Truck_Int_Raw : Py.value;
    Truck_Int : Py.value
  }.

Definition set_Truck_Int (v : Py.value) (b : row) : row :=
    {| OBJECTID := OBJECTID b; POINT_X := POINT_X b; POINT_Y := POINT_Y b;
       Truck_Int_Raw := Truck_Int_Raw b; Truck_Int := v |}.
End businesses.

(** The routes of one closest-facility solve joined one-to-many to the
    bridges within 5 feet of them; a route that meets no bridge has one row
    with a null [BRDG_NBR]. *)
Module routesBridgesSJ.
Record row : Type := {
    IncidentID : Z;
    BRDG_NBR : option string;
    X_COORD : Py.value;
    Y_COORD : Py.value;
    Total_Length : Py.value;
    SHAPE : option polyline
  }.
End routesBridgesSJ.

(** [Bridges_by_Bus_<dest>], one row per business and bridge crossed on the
    way to [dest], and its copy [detours_<dest>], to which detours.py adds the
    last four fields. *)
Module bridgeTable.
Record row : Type := {
    OBJECTID : Z;
    Business_ID : Z;
    BRDG_NBR : string;
    Bridge_X : Py.value;
    Bridge_Y : Py.value;
    Base_Length : Py.value;
    SHAPE : option polyline;
    Business_X : Py.value;
    Business_Y : Py.value;
    Truck_Int : Py.value;
    BUS_TO_BRIDGE_MU : Py.value;
    BUS_TO_BRIDGE_MI : Py.value;
    Truck_Int_DW : Py.value;
    No_Bridge_Time : Py.value;
    DET_TIME : Py.value;
    JOB_DET_TIME : Py.value;
    DISTW_JOB_DET_TIME : Py.value
  }.

  (** [JoinField] of [POINT_X], [POINT_Y] and [Truck_Int]; the first two are
      then renamed [Business_X] and [Business_Y]. *)
Definition set_business (x y ti : Py.value) (r : row) : row :=
    {| OBJECTID := OBJECTID r; Business_ID := Business_ID r; BRDG_NBR := BRDG_NBR r;
       Bridge_X := Bridge_X r; Bridge_Y := Bridge_Y r; Base_Length := Base_Length r;
       SHAPE := SHAPE r;
       Business_X := x; Business_Y := y; Truck_Int := ti;
       BUS_TO_BRIDGE_MU := BUS_TO_BRIDGE_MU r; BUS_TO_BRIDGE_MI := BUS_TO_BRIDGE_MI r;
       Truck_Int_DW := Truck_Int_DW r; No_Bridge_Time := No_Bridge_Time r;
       DET_TIME := DET_TIME r; JOB_DET_TIME := JOB_DET_TIME r;
       DISTW_JOB_DET_TIME := DISTW_JOB_DET_TIME r |}.

Definition set_BUS_TO_BRIDGE_MU (v : Py.value) (r : row) : row :=
    {| OBJECTID := OBJECTID r; Business_ID := Business_ID r; BRDG_NBR := BRDG_NBR r;
       Bridge_X := Bridge_X r; Bridge_Y := Bridge_Y r; Base_Length := Base_Length r;
       SHAPE := SHAPE r;
       Business_X := Business_X r; Business_Y := Business_Y r; Truck_Int := Truck_Int r;
       BUS_TO_BRIDGE_MU := v; BUS_TO_BRIDGE_MI := BUS_TO_BRIDGE_MI r;
       Truck_Int_DW := Truck_Int_DW r; No_Bridge_Time := No_Bridge_Time r;
       DET_TIME := DET_TIME r; JOB_DET_TIME := JOB_DET_TIME r;
       DISTW_JOB_DET_TIME := DISTW_JOB_DET_TIME r |}.

Definition set_BUS_TO_BRIDGE_MI (v : Py.value) (r : row) : row :=
    {| OBJECTID := OBJECTID r; Business_ID := Business_ID r; BRDG_NBR := BRDG_NBR r;
       Bridge_X := Bridge_X r; Bridge_Y := Bridge_Y r; Base_Length := Base_Length r;
       SHAPE := SHAPE r;
       Business_X := Business_X r; Business_Y := Business_Y r; Truck_Int := Truck_Int r;
       BUS_TO_BRIDGE_MU := BUS_TO_BRIDGE_MU r; BUS_TO_BRIDGE_MI := v;
       Truck_Int_DW := Truck_Int_DW r; No_Bridge_Time := No_Bridge_Time r;
       DET_TIME := DET_TIME r; JOB_DET_TIME := JOB_DET_TIME r;
       DISTW_JOB_DET_TIME := DISTW_JOB_DET_TIME r |}.

Definition set_Truck_Int_DW (v : Py.value) (r : row) : row :=
    {| OBJECTID := OBJECTID r; Business_ID := Business_ID r; BRDG_NBR := BRDG_NBR r;
       Bridge_X := Bridge_X r; Bridge_Y := Bridge_Y r; Base_Length := Base_Length r;
       SHAPE := SHAPE r;
       Business_X := Business_X r; Business_Y := Business_Y r; Truck_Int := Truck_Int r;
       BUS_TO_BRIDGE_MU := BUS_TO_BRIDGE_MU r; BUS_TO_BRIDGE_MI := BUS_TO_BRIDGE_MI r;
       Truck_Int_DW := v; No_Bridge_Time := No_Bridge_Time r;
       DET_TIME := DET_TIME r; JOB_DET_TIME := JOB_DET_TIME r;
       DISTW_JOB_DET_TIME := DISTW_JOB_DET_TIME r |}.

  (** The two cells the update cursor of detours.py writes. *)
Definition set_detour (nbt : Py.value) (shape : option polyline) (r : row) : row :=
    {| OBJECTID := OBJECTID r; Business_ID := Business_ID r; BRDG_NBR := BRDG_NBR r;
       Bridge_X := Bridge_X r; Bridge_Y := Bridge_Y r; Base_Length := Base_Length r;
       SHAPE := shape;
       Business_X := Business_X r; Business_Y := Business_Y r; Truck_Int := Truck_Int r;
       BUS_TO_BRIDGE_MU := BUS_TO_BRIDGE_MU r; BUS_TO_BRIDGE_MI := BUS_TO_BRIDGE_MI r;
       Truck_Int_DW := Truck_Int_DW r; No_Bridge_Time := nbt;
       DET_TIME := DET_TIME r; JOB_DET_TIME := JOB_DET_TIME r;
       DISTW_JOB_DET_TIME := DISTW_JOB_DET_TIME r |}.

Definition set_No_Bridge_Time (v : Py.value) (r : row) : row :=
    set_detour v (SHAPE r) r.

Definition set_DET_TIME (v : Py.value) (r : row) : row :=
    {| OBJECTID := OBJECTID r; Business_ID := Business_ID r; BRDG_NBR := BRDG_NBR r;
       Bridge_X := Bridge_X r; Bridge_Y := Bridge_Y r; Base_Length := Base_Length r;
       SHAPE := SHAPE r;
       Business_X := Business_X r; Business_Y := Business_Y r; Truck_Int := Truck_Int r;
       BUS_TO_BRIDGE_MU := BUS_TO_BRIDGE_MU r; BUS_TO_BRIDGE_MI := BUS_TO_BRIDGE_MI r;
       Truck_Int_DW := Truck_Int_DW r; No_Bridge_Time := No_Bridge_Time r;
       DET_TIME := v; JOB_DET_TIME := JOB_DET_TIME r;
       DISTW_JOB_DET_TIME := DISTW_JOB_DET_TIME r |}.

Definition set_JOB_DET_TIME (v : Py.value) (r : row) : row :=
    {| OBJECTID := OBJECTID r; Business_ID := Business_ID r; BRDG_NBR := BRDG_NBR r;
       Bridge_X := Bridge_X r; Bridge_Y := Bridge_Y r; Base_Length := Base_Length r;
       SHAPE := SHAPE r;
       Business_X := Business_X r; Business_Y := Business_Y r; Truck_Int := Truck_Int r;
       BUS_TO_BRIDGE_MU := BUS_TO_BRIDGE_MU r; BUS_TO_BRIDGE_MI := BUS_TO_BRIDGE_MI r;
       Truck_Int_DW := Truck_Int_DW r; No_Bridge_Time := No_Bridge_Time r;
       DET_TIME := DET_TIME r; JOB_DET_TIME := v;
       DISTW_JOB_DET_TIME := DISTW_JOB_DET_TIME r |}.

Definition set_DISTW_JOB_DET_TIME (v : Py.value) (r : row) : row :=
    {| OBJECTID := OBJECTID r; Business_ID := Business_ID r; BRDG_NBR := BRDG_NBR r;
       Bridge_X := Bridge_X r; Bridge_Y := Bridge_Y r; Base_Length := Base_Length r;
       SHAPE := SHAPE r;
       Business_X := Business_X r; Business_Y := Business_Y r; Truck_Int := Truck_Int r;
       BUS_TO_BRIDGE_MU := BUS_TO_BRIDGE_MU r; BUS_TO_BRIDGE_MI := BUS_TO_BRIDGE_MI r;
       Truck_Int_DW := Truck_Int_DW r; No_Bridge_Time := No_Bridge_Time r;
       DET_TIME := DET_TIME r; JOB_DET_TIME := JOB_DET_TIME r;
       DISTW_JOB_DET_TIME := v |}.
End bridgeTable.

(** The weight restricted bridges.  The scripts join fields to this table
    whose names depend on the destination classes, so a row keeps its numeric
    fields in a map from the field name; a field with no entry is null.  The
    [schema] lists the field names in the order [ListFields] returns them. *)
Module bridges.
Record row : Type := {
    BRDG_NBR : string;
    attrs : gmap string Qc
  }.

Record table : Type := {
    schema : list string;
    rows : list row
  }.

Definition get (f : string) (r : row) : Py.value := attrs r !! f.

Definition set (f : string) (v : Py.value) (r : row) : row :=
    {| BRDG_NBR := BRDG_NBR r; attrs := partial_alter (λ _, v) f (attrs r) |}.

  (** [AddField]: a new, null field. *)
Definition AddField (f : string) (t : table) : table :=
    {| schema := schema t ++ [f]; rows := set f None <$> rows t |}.

  (** [CalculateField] with a Python expression over the row. *)
Definition CalculateField (f : string) (e : row → Py.result Py.value)
      (t : table) : table :=
    {| schema := schema t; rows := (λ r, set f (Arc.stored (e r)) r) <$> rows t |}.
End bridges.

(** ** traversals.py

    The script read without the stray tokens [, thou] of line 125 and
    [income] of line 208; with them the file does not compile and no
    statement of it runs. *)

Module Traversals.

(** Model inputs and settings. *)
Definition bridgeIDField : string := "BRDG_NBR".
Definition snappables : list string := ["Network_LocalStreets"].

(** The two distance-weighting settings, spliced into the expression of
    [Truck_Int_DW]; both are ['1'] in the script. *)
Record settings : Type := {
  cutoff : Qc;
  power : Z
}.
Definition default_settings : settings := {| cutoff := 1; power := 1 |}.

(** [Truck_Int]: ['!Truck_Int_Raw!/{0}'.format(truckIntDiv)]. *)
Definition Truck_Int_exp (truckIntDiv : nat) (b : businesses.row) : Py.result Py.value :=
  Py.truediv (businesses.Truck_Int_Raw b) (Py.lit (Z.of_nat truckIntDiv)).

Definition calc_Truck_Int (dests : list string) (bs : list businesses.row)
    : list businesses.row :=
  let truckIntDiv := length dests in
  (λ b, businesses.set_Truck_Int (Arc.stored (Truck_Int_exp truckIntDiv b)) b) <$> bs.

(** The search criteria handed to [AddLocations] for the incidents: one
    pair per source of the network dataset. *)
Definition sourceNames (sources : list string) : list (string * string) :=
  (λ i, (i, if decide (i ∈ snappables) then "SHAPE" else "NONE")) <$> sources.

Definition inNetworkDataset : string := "Network/Network_ND".
Definition destinations : string := "Destinations".

(** The layer of one turn of the loop as it is solved: the border points
    of the class are loaded as facilities with the criteria of the layer,
    the businesses as incidents with [sourceNames]; there is no barrier.
    [sources] are the names of [descNet.sources]. *)
Definition ClosestFacility_layer (sources : list string) (dest : string) : NA.layer :=
  {| NA.in_network_dataset := inNetworkDataset;
     NA.impedance_attribute := "Length";
     NA.Facilities :=
       {| NA.in_table := NA.FeatureClass (destinations +:+ "/" +:+ dest);
          NA.search_criteria := None |};
     NA.Incidents :=
       {| NA.in_table := NA.FeatureClass "businesses";
          NA.search_criteria := Some (sourceNames sources) |};
     NA.Point_Barriers := None |}.

(** The rows the search cursor yields under ["BRDG_NBR IS NOT NULL"]. *)
Definition crossings (sj : list routesBridgesSJ.row)
    : list (string * routesBridgesSJ.row) :=
  omap (λ s, (λ nbr, (nbr, s)) <$> routesBridgesSJ.BRDG_NBR s) sj.

(** The rows of the search cursor that reach the bridge table.  The
    insert of a row is in a [try] of its own: a row whose insert raises is
    left out with the message ["ic failure"] and the loop goes on; the loop
    as a whole is in another [try], and a search cursor that raises ends it
    with ["sc failure"], the rows written before staying.  [inserted i] says
    whether the row the cursor yields at place [i] is written. *)
Definition written (inserted : nat → bool) (rows : list (string * routesBridgesSJ.row))
    : list (string * routesBridgesSJ.row) :=
  omap id (imap (λ i c, if inserted i then Some c else None) rows).

(** The insert cursor: the new row takes the next object id. *)
Definition insertRow (i : nat) (c : string * routesBridgesSJ.row) : bridgeTable.row :=
  {| bridgeTable.OBJECTID := Z.of_nat (S i);
     bridgeTable.Business_ID := routesBridgesSJ.IncidentID c.2;
     bridgeTable.BRDG_NBR := c.1;
     bridgeTable.Bridge_X := routesBridgesSJ.X_COORD c.2;
     bridgeTable.Bridge_Y := routesBridgesSJ.Y_COORD c.2;
     bridgeTable.Base_Length := routesBridgesSJ.Total_Length c.2;
     bridgeTable.SHAPE := routesBridgesSJ.SHAPE c.2;
     bridgeTable.Business_X := None; bridgeTable.Business_Y := None;
     bridgeTable.Truck_Int := None;
     bridgeTable.BUS_TO_BRIDGE_MU := None; bridgeTable.BUS_TO_BRIDGE_MI := None;
     bridgeTable.Truck_Int_DW := None; bridgeTable.No_Bridge_Time := None;
     bridgeTable.DET_TIME := None; bridgeTable.JOB_DET_TIME := None;
     bridgeTable.DISTW_JOB_DET_TIME := None |}.

(** [JoinField(bridgeTable, busIDField, businesses, "OBJECTID", ...)]. *)
Definition join_businesses (bs : list businesses.row) (r : bridgeTable.row)
    : bridgeTable.row :=
  match Arc.first_match businesses.OBJECTID (bridgeTable.Business_ID r) bs with
  | Some b =>
      bridgeTable.set_business (businesses.POINT_X b) (businesses.POINT_Y b)
        (businesses.Truck_Int b) r
  | None => bridgeTable.set_business None None None r
  end.

(** [BUS_TO_BRIDGE_MI]: ['!{0}!/5280'.format(distMUField)]. *)
Definition BUS_TO_BRIDGE_MI_exp (r : bridgeTable.row) : Py.result Py.value :=
  Py.truediv (bridgeTable.BUS_TO_BRIDGE_MU r) (Py.lit 5280).

(** [Truck_Int_DW]:
    ['(!Truck_Int!*{0})/(!BUS_TO_BRIDGE_MI!**({1}))'.format(cutoff, power)]. *)
Definition Truck_Int_DW_exp (cfg : settings) (r : bridgeTable.row)
    : Py.result Py.value :=
  num ← Py.mul (bridgeTable.Truck_Int r) (Some (cutoff cfg));
  den ← Py.pow (bridgeTable.BUS_TO_BRIDGE_MI r) (power cfg);
  Py.truediv num den.

(** A row of [<dest>_FreqTable]. *)
Record freq_row : Type := {
  freq_BRDG_NBR : string;
  FREQUENCY : Z;
  sum_Truck_Int : Py.value;
  sum_Truck_Int_DW : Py.value
}.

(** [Frequency_analysis(bridgeTable, freqTable, bridgeIDField,
    [truckInt, truckIntDW])]: one row per bridge number. *)
Definition Frequency_analysis (tbl : list bridgeTable.row) : list freq_row :=
  (λ nbr,
     let group := filter (λ r, bridgeTable.BRDG_NBR r = nbr) tbl in
     {| freq_BRDG_NBR := nbr;
        FREQUENCY := Z.of_nat (length group);
        sum_Truck_Int := Arc.sum_field (bridgeTable.Truck_Int <$> group);
        sum_Truck_Int_DW := Arc.sum_field (bridgeTable.Truck_Int_DW <$> group) |})
  <$> remove_dups (bridgeTable.BRDG_NBR <$> tbl).

Definition freqField (dest : string) : string := dest +:+ "_" +:+ "TRAV_BUS".
Definition jobFreqField (dest : string) : string := dest +:+ "_" +:+ "TRAV_JOB".
Definition jobDWFreqField (dest : string) : string := dest +:+ "_" +:+ "TRAV_JOB_DISTW".

(** [JoinField(bridges, bridgeIDField, freqTable, bridgeIDField, ...)] of
    the three renamed fields; a bridge with no row in the frequency table
    gets nulls. *)
Definition join_freq (dest : string) (freq : list freq_row) (b : bridges.row)
    : bridges.row :=
  match Arc.first_match freq_BRDG_NBR (bridges.BRDG_NBR b) freq with
  | Some f =>
      bridges.set (jobDWFreqField dest) (sum_Truck_Int_DW f)
        (bridges.set (jobFreqField dest) (sum_Truck_Int f)
           (bridges.set (freqField dest) (Some (Qc_of_Z (FREQUENCY f))) b))
  | None =>
      bridges.set (jobDWFreqField dest) None
        (bridges.set (jobFreqField dest) None
           (bridges.set (freqField dest) None b))
  end.

Definition JoinField_freq (dest : string) (freq : list freq_row)
    (t : bridges.table) : bridges.table :=
  {| bridges.schema :=
       bridges.schema t ++ [freqField dest; jobFreqField dest; jobDWFreqField dest];
     bridges.rows := join_freq dest freq <$> bridges.rows t |}.

(** The code block of the null replacement. *)
Definition zeroNulls (value : Py.value) : Py.value :=
  match value with
  | None => Py.lit 0
  | Some _ => value
  end.

(** ["+".join(fieldList)], evaluated on a row: the fields are added from
    left to right; an empty list leaves an empty expression. *)
Definition sumExp (fieldList : list string) (r : bridges.row) : Py.result Py.value :=
  match fieldList with
  | [] => Py.Raise Py.SyntaxError
  | f :: fs =>
      foldl (λ acc g, a ← acc; Py.add a (bridges.get g r))
        (Py.Val (bridges.get f r)) fs
  end.

(** The state of the workspace the script works on. *)
Record workspace : Type := {
  ws_businesses : list businesses.row;
  ws_bridges : bridges.table;
  Bridges_by_Bus : list (string * list bridgeTable.row)
}.

Section Workflow.

(** The length, in map units, of the geodesic line [XYToLine] draws from
    the business to the bridge. *)
Variable Shape_Length : Qc → Qc → Qc → Qc → Qc.

(** The closest-facility solve towards a destination class, joined to
    the bridges. *)
Variable routesBridgesSJ : string → list routesBridgesSJ.row.

(** Which rows of the search cursor over the join of a class are written
    to the bridge table of the class: all of them, unless a cursor raises.
    What makes a cursor raise is for the geodatabase to say. *)
Variable inserted : string → nat → bool.

Variable cfg : settings.

(** A row of [bus_to_bridge_dist_<dest>]. *)
Record xy_row : Type := {
  OID : Z;
  BUS_TO_BRIDGE_MU : Py.value
}.

(** [XYToLine] followed by the calculation of [BUS_TO_BRIDGE_MU] from
    ['!Shape_Length!'].  A row with a null coordinate is taken to get no
    line; no statement below says what the distance of such a row is. *)
Definition XYToLine (tbl : list bridgeTable.row) : list xy_row :=
  omap (λ r,
    match bridgeTable.Business_X r, bridgeTable.Business_Y r,
          bridgeTable.Bridge_X r, bridgeTable.Bridge_Y r with
    | Some bx, Some by', Some gx, Some gy =>
        Some {| OID := bridgeTable.OBJECTID r;
                BUS_TO_BRIDGE_MU := Some (Shape_Length bx by' gx gy) |}
    | _, _, _, _ => None
    end) tbl.

(** [JoinField(bridgeTable, "OBJECTID", xyFeatureClass, "OID", ...)]. *)
Definition join_distance (xy : list xy_row) (r : bridgeTable.row) : bridgeTable.row :=
  match Arc.first_match OID (bridgeTable.OBJECTID r) xy with
  | Some l => bridgeTable.set_BUS_TO_BRIDGE_MU (BUS_TO_BRIDGE_MU l) r
  | None => bridgeTable.set_BUS_TO_BRIDGE_MU None r
  end.

(** The bridge table of one destination class, from its creation to the
    calculation of [Truck_Int_DW]. *)
Definition build_bridgeTable (bs : list businesses.row) (dest : string)
    : list bridgeTable.row :=
  let t0 := imap insertRow (written (inserted dest) (crossings (routesBridgesSJ dest))) in
  let t1 := join_businesses bs <$> t0 in
  let t2 := join_distance (XYToLine t1) <$> t1 in
  let t3 :=
    (λ r, bridgeTable.set_BUS_TO_BRIDGE_MI (Arc.stored (BUS_TO_BRIDGE_MI_exp r)) r)
    <$> t2 in
  (λ r, bridgeTable.set_Truck_Int_DW (Arc.stored (Truck_Int_DW_exp cfg r)) r) <$> t3.

(** One turn of the loop over the destination classes. *)
Definition traverse (ws : workspace) (dest : string) : workspace :=
  let tbl := build_bridgeTable (ws_businesses ws) dest in
  {| ws_businesses := ws_businesses ws;
     ws_bridges := JoinField_freq dest (Frequency_analysis tbl) (ws_bridges ws);
     Bridges_by_Bus := Bridges_by_Bus ws ++ [(dest, tbl)] |}.

(** The null replacement over the fields [bridgeFList]. *)
Definition replace_nulls (t : bridges.table) : bridges.table :=
  let bridgeFList := Arc.ListFields (bridges.schema t) "*_TRAV_*" in
  foldl (λ t field,
           bridges.CalculateField field
             (λ r, Py.Val (zeroNulls (bridges.get field r))) t)
        t bridgeFList.

(** One sum field: the field is added, the fields to add are listed by
    wild card, and their sum is calculated. *)
Definition sum_fields (name wild_card : string) (t : bridges.table) : bridges.table :=
  let t' := bridges.AddField name t in
  let fieldList := Arc.ListFields (bridges.schema t') wild_card in
  bridges.CalculateField name (sumExp fieldList) t'.

(** The script, on the businesses and bridges of the input geodatabase
    and the destination classes [dests]. *)
Definition run (bs : list businesses.row) (brs : bridges.table)
    (dests : list string) : workspace :=
  let ws0 := {| ws_businesses := calc_Truck_Int dests bs;
                ws_bridges := brs;
                Bridges_by_Bus := [] |} in
  let ws1 := foldl traverse ws0 dests in
  let b1 := replace_nulls (ws_bridges ws1) in
  let b2 := sum_fields "BUS_TRAV_SUM" "*_TRAV_BUS*" b1 in
  let b3 := sum_fields "JOB_TRAV_SUM" "*_TRAV_JOB" b2 in
  let b4 := sum_fields "DISTW_JOB_TRAV_SUM" "*_TRAV_JOB_DISTW" b3 in
  {| ws_businesses := ws_businesses ws1;
     ws_bridges := b4;
     Bridges_by_Bus := Bridges_by_Bus ws1 |}.

End Workflow.

Section Script.

Variable Shape_Length : Qc → Qc → Qc → Qc → Qc.

(** The names of the sources of the network dataset. *)
Variable sources : list string.

(** [CopyTraversedSourceFeatures] on a loaded layer, which solves it, and
    the spatial join of its routes with the bridges. *)
Variable routes_joined_to_bridges : NA.layer → list routesBridgesSJ.row.

Variable inserted : string → nat → bool.
Variable cfg : settings.

(** The script with its solver: the routes of a class are those of the
    layer loaded for the class. *)
Definition script (bs : list businesses.row) (brs : bridges.table)
    (dests : list string) : workspace :=
  run Shape_Length
    (λ dest, routes_joined_to_bridges (ClosestFacility_layer sources dest))
    inserted cfg bs brs dests.

End Script.

End Traversals.

(** ** detours.py *)

Module Detours.

Definition brdgNoField : string := "BRDG_NBR".
Definition snappables : list string := ["Network_LocalStreets"].

(** The search criteria of the incidents, built as in traversals.py. *)
Definition sourceNames (sources : list string) : list (string * string) :=
  (λ i, (i, if decide (i ∈ snappables) then "SHAPE" else "NONE")) <$> sources.

Definition inNetworkDataset : string := "Network/Network_ND".
Definition destinations : string := "Destinations".

(** The layer of one turn of the inner loop as it is solved: the border
    points of the class as facilities, the one business as the incident,
    loaded with [sourceNames], and the one bridge as a point barrier. *)
Definition ClosestFacility_layer (sources : list string) (dest : string)
    (detourBusID : Z) (removeBridgeNum : string) : NA.layer :=
  {| NA.in_network_dataset := inNetworkDataset;
     NA.impedance_attribute := "Length";
     NA.Facilities :=
       {| NA.in_table := NA.FeatureClass (destinations +:+ "/" +:+ dest);
          NA.search_criteria := None |};
     NA.Incidents :=
       {| NA.in_table :=
            NA.FeatureLayer "businesses" ("OBJECTID = " +:+ Py.str_int detourBusID);
          NA.search_criteria := Some (sourceNames sources) |};
     NA.Point_Barriers :=
       Some {| NA.in_table :=
                 NA.FeatureLayer "Weight_Restricted_Bridges"
                   ("BRDG_NBR = '" +:+ removeBridgeNum +:+ "'");
               NA.search_criteria := None |} |}.

(** [busDict]: the bridges of each business, in the order the search cursor
    meets them; a dictionary keeps the order in which its keys were set. *)
Definition busDict_add (busDict : list (Z * list string)) (row : bridgeTable.row)
    : list (Z * list string) :=
  if decide (bridgeTable.Business_ID row ∈ busDict.*1) then
    (λ e, if decide (e.1 = bridgeTable.Business_ID row)
          then (e.1, e.2 ++ [bridgeTable.BRDG_NBR row]) else e) <$> busDict
  else busDict ++ [(bridgeTable.Business_ID row, [bridgeTable.BRDG_NBR row])].

Definition busDict (detours : list bridgeTable.row) : list (Z * list string) :=
  foldl busDict_add [] detours.

(** The pairs [(detourBusID, removeBridgeNum)] in the order of the two
    nested loops. *)
Definition pairs (d : list (Z * list string)) : list (Z * string) :=
  d ≫= λ e, (λ removeBridgeNum, (e.1, removeBridgeNum)) <$> e.2.

(** What the script reads back after one solve with the bridge as a point
    barrier: [Route] is the first row of the routes class; [NoRoute] is an
    empty routes class, on which [sc2.next()] raises [StopIteration];
    [Failed] is any other statement of the [try] block raising, so that the
    block is left before [key] is assigned. *)
Inductive solution : Type :=
| Route (IncidentID : Z) (Total_Length : Py.value) (SHAPE : option polyline)
| NoRoute
| Failed.

(** [routeRow] after the [try] statement. *)
Definition routeRow (detourBusID : Z) (s : solution) : Z * Py.value * option polyline :=
  match s with
  | Route i len shape => (i, len, shape)
  | NoRoute => (detourBusID, None, None)
  | Failed => (detourBusID, None, None)
  end.

(** ["{0},{1}".format(a, b)] *)
Definition format_key (a : Z) (b : string) : string :=
  Py.str_int a +:+ "," +:+ b.

Definition detKey (detoursRow : bridgeTable.row) : string :=
  format_key (bridgeTable.Business_ID detoursRow) (bridgeTable.BRDG_NBR detoursRow).

(** The variable [key] after the [try] statement: assigned on the two paths
    that reach the end of the block, left as it was (unbound, or the key of
    an earlier pair) on the other. *)
Definition key_after (key : option string) (detourBusID : Z) (removeBridgeNum : string)
    (s : solution) : option string :=
  match s with
  | Failed => key
  | _ => Some (format_key detourBusID removeBridgeNum)
  end.

(** The body of the loop over the update cursor: a row whose key is [key]
    takes the length and the shape of [routeRow]. *)
Definition updateRow (key : string) (routeRow : Z * Py.value * option polyline)
    (detoursRow : bridgeTable.row) : bridgeTable.row :=
  if decide (detKey detoursRow = key)
  then bridgeTable.set_detour routeRow.1.2 routeRow.2 detoursRow
  else detoursRow.

(** The update cursor over the detour table: reading an unbound [key] at
    the first row raises [NameError]. *)
Fixpoint update_cursor (key : option string) (routeRow : Z * Py.value * option polyline)
    (detours : list bridgeTable.row) : Py.result (list bridgeTable.row) :=
  match detours with
  | [] => Py.Val []
  | detoursRow :: rest =>
      k ← match key with Some k => Py.Val k | None => Py.Raise Py.NameError end;
      rest' ← update_cursor key routeRow rest;
      Py.Val (updateRow k routeRow detoursRow :: rest')
  end.

(** The variables that live across the turns of the loops. *)
Record state : Type := {
  key : option string;
  detours : list bridgeTable.row
}.

(** [DET_TIME]: ["!No_Bridge_Time!-!Base_Length!"]. *)
Definition subtractExp (r : bridgeTable.row) : Py.result Py.value :=
  Py.sub (bridgeTable.No_Bridge_Time r) (bridgeTable.Base_Length r).

(** [JOB_DET_TIME]: ["!DET_TIME!*!Truck_Int!"]. *)
Definition multExp (r : bridgeTable.row) : Py.result Py.value :=
  Py.mul (bridgeTable.DET_TIME r) (bridgeTable.Truck_Int r).

(** [DISTW_JOB_DET_TIME]: ["!DET_TIME!*!Truck_Int_DW!"]. *)
Definition multExp_DW (r : bridgeTable.row) : Py.result Py.value :=
  Py.mul (bridgeTable.DET_TIME r) (bridgeTable.Truck_Int_DW r).

(** The three metric fields, calculated one after the other. *)
Definition detour_metrics (detours : list bridgeTable.row) : list bridgeTable.row :=
  let t1 := (λ r, bridgeTable.set_DET_TIME (Arc.stored (subtractExp r)) r) <$> detours in
  let t2 := (λ r, bridgeTable.set_JOB_DET_TIME (Arc.stored (multExp r)) r) <$> t1 in
  (λ r, bridgeTable.set_DISTW_JOB_DET_TIME (Arc.stored (multExp_DW r)) r) <$> t2.

(** A row of [Detours_by_Bridge]. *)
Record freq_row : Type := {
  freq_BRDG_NBR : string;
  FREQUENCY : Z;
  DET_TIME_SUM : Py.value;
  JOB_DET_TIME_SUM : Py.value;
  DISTW_JOB_DET_TIME_SUM : Py.value
}.

(** [Frequency_analysis("Detours_Merged", "Detours_by_Bridge", brdgNoField,
    [detTime, jobDetTime, distWghtDetTime])], the sums under their new
    names. *)
Definition Detours_by_Bridge (merged : list bridgeTable.row) : list freq_row :=
  (λ nbr,
     let group := filter (λ r, bridgeTable.BRDG_NBR r = nbr) merged in
     {| freq_BRDG_NBR := nbr;
        FREQUENCY := Z.of_nat (length group);
        DET_TIME_SUM := Arc.sum_field (bridgeTable.DET_TIME <$> group);
        JOB_DET_TIME_SUM := Arc.sum_field (bridgeTable.JOB_DET_TIME <$> group);
        DISTW_JOB_DET_TIME_SUM :=
          Arc.sum_field (bridgeTable.DISTW_JOB_DET_TIME <$> group) |})
  <$> remove_dups (bridgeTable.BRDG_NBR <$> merged).

Definition detSum : string := "DET_TIME_SUM".
Definition jobDetSum : string := "JOB_DET_TIME_SUM".
Definition distWDetTimeSum : string := "DISTW_JOB_DET_TIME_SUM".

(** [JoinField(bridges, brdgNoField, "Detours_by_Bridge", brdgNoField,
    [detSum, jobDetSum, distWDetTimeSum])]. *)
Definition join_sums (freq : list freq_row) (b : bridges.row) : bridges.row :=
  match Arc.first_match freq_BRDG_NBR (bridges.BRDG_NBR b) freq with
  | Some f =>
      bridges.set distWDetTimeSum (DISTW_JOB_DET_TIME_SUM f)
        (bridges.set jobDetSum (JOB_DET_TIME_SUM f)
           (bridges.set detSum (DET_TIME_SUM f) b))
  | None =>
      bridges.set distWDetTimeSum None
        (bridges.set jobDetSum None (bridges.set detSum None b))
  end.

Definition JoinField_sums (freq : list freq_row) (t : bridges.table) : bridges.table :=
  {| bridges.schema := bridges.schema t ++ [detSum; jobDetSum; distWDetTimeSum];
     bridges.rows := join_sums freq <$> bridges.rows t |}.

(** The result of the script: the detour table of each destination class
    and the bridges with the joined sums. *)
Record output : Type := {
  detours_tables : list (string * list bridgeTable.row);
  out_bridges : bridges.table
}.

Section Workflow.

(** The closest-facility solve from a business towards a destination class
    with one bridge as a barrier, as the script reads it back. *)
Variable solve : string → Z → string → solution.

(** The body of the inner loop, for one business and one bridge: the
    solve, the [try] statement that reads it back, and the update cursor. *)
Definition detour (dest : string) (st : state) (p : Z * string) : Py.result state :=
  let '(detourBusID, removeBridgeNum) := p in
  let s := solve dest detourBusID removeBridgeNum in
  let key' := key_after (key st) detourBusID removeBridgeNum s in
  detours' ← update_cursor key' (routeRow detourBusID s) (detours st);
  Py.Val {| key := key'; detours := detours' |}.

(** The two nested loops. *)
Fixpoint detour_loop (dest : string) (st : state) (ps : list (Z * string))
    : Py.result state :=
  match ps with
  | [] => Py.Val st
  | p :: ps' => st' ← detour dest st p; detour_loop dest st' ps'
  end.

(** One turn of the loop over the destination classes: the bridge table is
    copied, [No_Bridge_Time] is added, every pair is solved, and the metrics
    are calculated.  Returns the value of [key] and the finished table. *)
Definition detours_of (dest : string) (key0 : option string)
    (Bridges_by_Bus_dest : list bridgeTable.row) : Py.result state :=
  let detours0 := bridgeTable.set_No_Bridge_Time None <$> Bridges_by_Bus_dest in
  st ← detour_loop dest {| key := key0; detours := detours0 |} (pairs (busDict detours0));
  Py.Val {| key := key st; detours := detour_metrics (detours st) |}.

(** The loop over the destination classes; [acc] collects the finished
    tables. *)
Fixpoint dest_loop (key0 : option string) (acc : list (string * list bridgeTable.row))
    (tables : list (string * list bridgeTable.row))
    : Py.result (list (string * list bridgeTable.row)) :=
  match tables with
  | [] => Py.Val acc
  | (dest, tbl) :: tables' =>
      st ← detours_of dest key0 tbl;
      dest_loop (key st) (acc ++ [(dest, detours st)]) tables'
  end.

(** The names [detTime], [jobDetTime] and [distWghtDetTime] that the
    summary after the loop reads: they are assigned in the body of the loop
    over the classes and nowhere else, so that after a loop of no turn they
    are unbound and the statement that reads them raises [NameError] (if
    [Merge] has not stopped the script on its empty input before). *)
Definition summary_fields (Bridges_by_Bus : list (string * list bridgeTable.row))
    : Py.result (list string) :=
  match Bridges_by_Bus with
  | [] => Py.Raise Py.NameError
  | _ :: _ => Py.Val ["DET_TIME"; "JOB_DET_TIME"; "DISTW_JOB_DET_TIME"]
  end.

(** The script, on the bridge tables the traversal step left in the
    geodatabase and the bridges. *)
Definition run (Bridges_by_Bus : list (string * list bridgeTable.row))
    (brs : bridges.table) : Py.result output :=
  tables ← dest_loop None [] Bridges_by_Bus;
  let Detours_Merged := tables ≫= snd in
  _ ← summary_fields Bridges_by_Bus;
  Py.Val {| detours_tables := tables;
            out_bridges := JoinField_sums (Detours_by_Bridge Detours_Merged) brs |}.

End Workflow.

Section Script.

(** The names of the sources of the network dataset. *)
Variable sources : list string.

(** [Solve] on a loaded layer, as the [try] block reads it back. *)
Variable Solve : NA.layer → solution.

(** The script with its solver: the solve of a pair is that of the layer
    loaded for the pair. *)
Definition script (Bridges_by_Bus : list (string * list bridgeTable.row))
    (brs : bridges.table) : Py.result output :=
  run (λ dest detourBusID removeBridgeNum,
         Solve (ClosestFacility_layer sources dest detourBusID removeBridgeNum))
      Bridges_by_Bus brs.

End Script.

End Detours.

(** ** Sums

    The sum of a list of numbers, in which the totals over the destination
    classes are stated. *)
Definition Qc_sum (l : list Qc) : Qc := foldr Qcplus 0 l.

(** ** A small geodatabase

    Two businesses, three bridges and two destination classes.  Towards
    [North] business 1 crosses bridge [B1], two miles away, and business 2
    crosses bridge [B3]; towards [South] neither crosses a bridge.  With [B1]
    barred business 1 still reaches the border, at cost 5 instead of 2; with
    [B3] barred business 2 is cut off.  No route crosses [B2]. *)

Module Example.

Definition q (z : Z) : Qc := Qc_of_Z z.

Definition dests : list string := ["North"; "South"].

Definition the_businesses : list businesses.row :=
  [ {| businesses.OBJECTID := 1;
       businesses.POINT_X := Some (q 0); businesses.POINT_Y := Some (q 0);
       businesses.Truck_Int_Raw := Some (q 20); businesses.Truck_Int := None |};
    {| businesses.OBJECTID := 2;
       businesses.POINT_X := Some (q 0); businesses.POINT_Y := Some (q 5280);
       businesses.Truck_Int_Raw := Some (q 8); businesses.Truck_Int := None |} ].

Definition the_bridges : bridges.table :=
  {| bridges.schema := ["X_COORD"; "Y_COORD"];
     bridges.rows :=
       [ {| bridges.BRDG_NBR := "B1";
            bridges.attrs := {[ "X_COORD" := q 10560; "Y_COORD" := q 0 ]} |};
         {| bridges.BRDG_NBR := "B2";
            bridges.attrs := {[ "X_COORD" := q 0; "Y_COORD" := q 99 ]} |};
         {| bridges.BRDG_NBR := "B3";
            bridges.attrs := {[ "X_COORD" := q 5280; "Y_COORD" := q 5280 ]} |} ] |}.

(** On this flat example the length of a line is taken along the axes. *)
Definition Shape_Length (bx by' gx gy : Qc) : Qc := (gx - bx) + (gy - by').

Definition base_route : polyline := [(q 0, q 0); (q 10560, q 0)].
Definition detour_route : polyline := [(q 0, q 0); (q 0, q 99); (q 10560, q 0)].

Definition routesBridgesSJ (dest : string) : list routesBridgesSJ.row :=
  if decide (dest = "North") then
    [ {| routesBridgesSJ.IncidentID := 1; routesBridgesSJ.BRDG_NBR := Some "B1";
         routesBridgesSJ.X_COORD := Some (q 10560); routesBridgesSJ.Y_COORD := Some (q 0);
         routesBridgesSJ.Total_Length := Some (q 2);
         routesBridgesSJ.SHAPE := Some base_route |};
      {| routesBridgesSJ.IncidentID := 2; routesBridgesSJ.BRDG_NBR := Some "B3";
         routesBridgesSJ.X_COORD := Some (q 5280); routesBridgesSJ.Y_COORD := Some (q 5280);
         routesBridgesSJ.Total_Length := Some (q 2);
         routesBridgesSJ.SHAPE := Some [(q 0, q 5280); (q 5280, q 5280)] |} ]
  else
    [ {| routesBridgesSJ.IncidentID := 1; routesBridgesSJ.BRDG_NBR := None;
         routesBridgesSJ.X_COORD := None; routesBridgesSJ.Y_COORD := None;
         routesBridgesSJ.Total_Length := Some (q 7); routesBridgesSJ.SHAPE := Some [] |};
      {| routesBridgesSJ.IncidentID := 2; routesBridgesSJ.BRDG_NBR := None;
         routesBridgesSJ.X_COORD := None; routesBridgesSJ.Y_COORD := None;
         routesBridgesSJ.Total_Length := Some (q 9); routesBridgesSJ.SHAPE := Some [] |} ].

(** On the example no cursor raises. *)
Definition inserted (dest : string) (i : nat) : bool := true.

(** The traversal step on the example. *)
Definition traversed : Traversals.workspace :=
  Traversals.run Shape_Length routesBridgesSJ inserted Traversals.default_settings
    the_businesses the_bridges dests.

Definition north_table : list bridgeTable.row :=
  Traversals.build_bridgeTable Shape_Length routesBridgesSJ inserted Traversals.default_settings
    (Traversals.calc_Truck_Int dests the_businesses) "North".

(** The solves with one bridge barred. *)
Definition solve (dest : string) (detourBusID : Z) (removeBridgeNum : string)
    : Detours.solution :=
  if decide (removeBridgeNum = "B1") then Detours.Route 1 (Some (q 5)) (Some detour_route)
  else Detours.NoRoute.

(** The detour tables of the example, had the script been run on them. *)
Definition north_detours : list bridgeTable.row :=
  match Detours.detours_of solve "North" None north_table with
  | Py.Val st => Detours.detours st
  | Py.Raise _ => []
  end.

(** The detour step on what the traversal step left. *)
Definition detoured : Detours.output :=
  match Detours.run solve (Traversals.Bridges_by_Bus traversed) the_bridges with
  | Py.Val out => out
  | Py.Raise _ => {| Detours.detours_tables := []; Detours.out_bridges := the_bridges |}
  end.

Definition dummy_row : bridgeTable.row :=
  {| bridgeTable.OBJECTID := 0; bridgeTable.Business_ID := 0; bridgeTable.BRDG_NBR := "";
     bridgeTable.Bridge_X := None; bridgeTable.Bridge_Y := None;
     bridgeTable.Base_Length := None; bridgeTable.SHAPE := None;
     bridgeTable.Business_X := None; bridgeTable.Business_Y := None;
     bridgeTable.Truck_Int := None;
     bridgeTable.BUS_TO_BRIDGE_MU := None; bridgeTable.BUS_TO_BRIDGE_MI := None;
     bridgeTable.Truck_Int_DW := None; bridgeTable.No_Bridge_Time := None;
     bridgeTable.DET_TIME := None; bridgeTable.JOB_DET_TIME := None;
     bridgeTable.DISTW_JOB_DET_TIME := None |}.

(** The bridges as the loop over the classes of the traversal step leaves
    them, before the nulls are replaced, and the row of [B1] among them. *)
Definition joined : bridges.table :=
  Traversals.ws_bridges
    (foldl (Traversals.traverse Shape_Length routesBridgesSJ inserted Traversals.default_settings)
       {| Traversals.ws_businesses := Traversals.calc_Truck_Int dests the_businesses;
          Traversals.ws_bridges := the_bridges;
          Traversals.Bridges_by_Bus := [] |}
       dests).

Definition dummy_bridge : bridges.row :=
  {| bridges.BRDG_NBR := ""; bridges.attrs := ∅ |}.

Definition bridge_B2 : bridges.row := nth 1 (bridges.rows the_bridges) dummy_bridge.

(** The rows of business 1 over [B1] and of business 2 over [B3]. *)
Definition crossing_B1 : bridgeTable.row := nth 0 north_table dummy_row.

Definition detour_B1 : bridgeTable.row := nth 0 north_detours dummy_row.
Definition detour_B3 : bridgeTable.row := nth 1 north_detours dummy_row.

End Example.


(** ** detours.py: the progress report

    The two counters of the script and the lines it prints, one at the end
    of every turn of the inner loop that gets there: a turn that raises
    stops the script before its line. *)

Module Progress.

(** [totalRows] after the loop over [setList], the bridge tables found in
    the workspace. *)
Definition count_rows (setList : list (list bridgeTable.row)) : Z :=
  foldl (λ totalRows s, (totalRows + Z.of_nat (length s))%Z) 0%Z setList.

(** [x], the turns done, which the average time per row is divided by, and
    [totalRows], the rows left. *)
Record counters : Type := {
  x : Z;
  totalRows : Z
}.

(** The end of a turn: [x+=1], [totalRows-=1]. *)
Definition turn (c : counters) : counters :=
  {| x := (x c + 1)%Z; totalRows := (totalRows c - 1)%Z |}.

Section Report.

Variable solve : string → Z → string → Detours.solution.

(** The two nested loops of one class with the counters: the lines
    printed, and the state and the counters the loops end with, or the
    exception that stops them. *)
Fixpoint detour_loop (dest : string) (st : Detours.state) (c : counters)
    (ps : list (Z * string)) : list counters * Py.result (Detours.state * counters) :=
  match ps with
  | [] => ([], Py.Val (st, c))
  | p :: ps' =>
      match Detours.detour solve dest st p with
      | Py.Val st' =>
          let c' := turn c in
          let r := detour_loop dest st' c' ps' in
          (c' :: r.1, r.2)
      | Py.Raise e => ([], Py.Raise e)
      end
  end.

(** The lines printed over the classes. *)
Fixpoint dest_loop (key0 : option string) (c : counters)
    (tables : list (string * list bridgeTable.row)) : list counters :=
  match tables with
  | [] => []
  | (dest, tbl) :: tables' =>
      let detours0 := bridgeTable.set_No_Bridge_Time None <$> tbl in
      let r := detour_loop dest {| Detours.key := key0; Detours.detours := detours0 |} c
                 (Detours.pairs (Detours.busDict detours0)) in
      match r.2 with
      | Py.Val (st, c') => r.1 ++ dest_loop (Detours.key st) c' tables'
      | Py.Raise _ => r.1
      end
  end.

(** All the lines of a run. *)
Definition report_run (setList : list (list bridgeTable.row))
    (Bridges_by_Bus : list (string * list bridgeTable.row)) : list counters :=
  dest_loop None {| x := 0; totalRows := count_rows setList |} Bridges_by_Bus.

End Report.

End Progress.

(** ** More of the small geodatabase *)

Module Example2.

(** Solves read back with a failure: the solve with [B1] barred gives a
    route, every other one leaves the [try] block early. *)
Definition solve_then_fail (dest : string) (detourBusID : Z) (removeBridgeNum : string)
    : Detours.solution :=
  if decide (removeBridgeNum = "B1")
  then Detours.Route 1 (Some (Example.q 5)) (Some Example.detour_route)
  else Detours.Failed.

(** Solves that all leave the [try] block early. *)
Definition solve_failing (dest : string) (detourBusID : Z) (removeBridgeNum : string)
    : Detours.solution :=
  Detours.Failed.

(** The detour table of [North] as the loops start on it. *)
Definition north_start : Detours.state :=
  {| Detours.key := None;
     Detours.detours := bridgeTable.set_No_Bridge_Time None <$> Example.north_table |}.

End Example2.

(** ** traversals.py: the traversals of the network segments

    As [Traversals], this is the script read without the stray tokens of
    lines 125 and 208.  The statements under [if calcNetwork == "True"]: inside the loop over
    the destination classes the truck intensity of a business is joined to
    its route and from the route to the edges the route runs over, the edges
    are keyed by their source and counted; after the loop the counts are
    joined to the flat network, the nulls are replaced and two sums are
    calculated. *)

(** [ClosestFacility<n>/CFRoutes<n>]: the routes of one solve. *)
Module CFRoutes.
Record row : Type := {
    ObjectID : Z;
    IncidentID : Z;
    Truck_Int : Py.value
  }.

Definition set_Truck_Int (v : Py.value) (r : row) : row :=
    {| ObjectID := ObjectID r; IncidentID := IncidentID r; Truck_Int := v |}.
End CFRoutes.

(** [<dest>_TravEdges]: the edges the routes of one solve run over, one
    row for each route and edge. *)
Module TravEdges.
Record row : Type := {
    RouteID : Z;
    SourceName : option string;
    SourceOID : option Z;
    Truck_Int : Py.value;
    Network_Sect_Concat : option string
  }.

Definition set_Truck_Int (v : Py.value) (e : row) : row :=
    {| RouteID := RouteID e; SourceName := SourceName e; SourceOID := SourceOID e;
       Truck_Int := v; Network_Sect_Concat := Network_Sect_Concat e |}.

Definition set_Network_Sect_Concat (v : option string) (e : row) : row :=
    {| RouteID := RouteID e; SourceName := SourceName e; SourceOID := SourceOID e;
       Truck_Int := Truck_Int e; Network_Sect_Concat := v |}.
End TravEdges.

Module Network.

(** [str] of a whole-number field; a null is [None] in the expression. *)
Definition str (v : option Z) : string :=
  match v with
  | Some z => Py.str_int z
  | None => "None"
  end.

(** [CalculateField] into a text field: as for a number, a row whose
    expression raises is set to null. *)
Definition stored_text (r : Py.result (option string)) : option string :=
  match r with
  | Py.Val v => v
  | Py.Raise _ => None
  end.

(** [JoinField(routes, "IncidentID", businesses, "OBJECTID", truckInt)]. *)
Definition join_routes (bs : list businesses.row) (r : CFRoutes.row) : CFRoutes.row :=
  match Arc.first_match businesses.OBJECTID (CFRoutes.IncidentID r) bs with
  | Some b => CFRoutes.set_Truck_Int (businesses.Truck_Int b) r
  | None => CFRoutes.set_Truck_Int None r
  end.

(** [JoinField(destEdges, "RouteID", routes, "ObjectID", truckInt)]. *)
Definition join_edges (routes : list CFRoutes.row) (e : TravEdges.row) : TravEdges.row :=
  match Arc.first_match CFRoutes.ObjectID (TravEdges.RouteID e) routes with
  | Some r => TravEdges.set_Truck_Int (CFRoutes.Truck_Int r) e
  | None => TravEdges.set_Truck_Int None e
  end.

(** [Network_Sect_Concat]: ['!SourceName! + str(!SourceOID!)']. *)
Definition Network_Sect_Concat_exp (e : TravEdges.row) : Py.result (option string) :=
  match TravEdges.SourceName e with
  | Some name => Py.Val (Some (name +:+ str (TravEdges.SourceOID e)))
  | None => Py.Raise Py.TypeError
  end.

(** A row of [<dest>_edgeFreq]. *)
Record freq_row : Type := {
  freq_Network_Sect_Concat : option string;
  FREQUENCY : Z;
  sum_Truck_Int : Py.value
}.

(** [Frequency(destEdges, destFreq, "Network_Sect_Concat", truckInt)]. *)
Definition Frequency (edges : list TravEdges.row) : list freq_row :=
  (λ k,
     let group := filter (λ e, TravEdges.Network_Sect_Concat e = k) edges in
     {| freq_Network_Sect_Concat := k;
        FREQUENCY := Z.of_nat (length group);
        sum_Truck_Int := Arc.sum_field (TravEdges.Truck_Int <$> group) |})
  <$> remove_dups (TravEdges.Network_Sect_Concat <$> edges).

Definition netBusFreqField (dest : string) : string := dest +:+ "_" +:+ "TRAV_BUS".
Definition netJobFreqField (dest : string) : string := dest +:+ "_" +:+ "TRAV_JOB".

(** The fields of [<dest>_edgeFreq] once [FREQUENCY] and [Truck_Int] are
    renamed. *)
Definition edgeFreq_schema (dest : string) : list string :=
  ["OBJECTID"; netBusFreqField dest; "Network_Sect_Concat"; netJobFreqField dest].

(** The value of a numeric field of a row of [<dest>_edgeFreq]. *)
Definition edgeFreq_get (dest field : string) (f : freq_row) : Py.value :=
  if decide (field = netBusFreqField dest) then Some (Qc_of_Z (FREQUENCY f))
  else if decide (field = netJobFreqField dest) then sum_Truck_Int f
  else None.

(** The flat network is kept in a table of the kind of the bridges: a text
    key, here [Network_Sect_Name], and numeric fields by name. *)
Definition Network_Sect_Name (r : bridges.row) : string := bridges.BRDG_NBR r.

(** [JoinField(inTable, "Network_Sect_Name", joinTable,
    "Network_Sect_Concat", fields)] with the fields of the join table listed
    by ["*TRAV*"]. *)
Definition join_edgeFreq (destClass : string) (joinTable : list freq_row)
    (r : bridges.row) : bridges.row :=
  let fields := Arc.ListFields (edgeFreq_schema destClass) "*TRAV*" in
  match Arc.first_match freq_Network_Sect_Concat (Some (Network_Sect_Name r)) joinTable with
  | Some f => foldl (λ r field, bridges.set field (edgeFreq_get destClass field f) r) r fields
  | None => foldl (λ r field, bridges.set field None r) r fields
  end.

Definition JoinField_edgeFreq (destClass : string) (joinTable : list freq_row)
    (t : bridges.table) : bridges.table :=
  {| bridges.schema :=
       bridges.schema t ++ Arc.ListFields (edgeFreq_schema destClass) "*TRAV*";
     bridges.rows := join_edgeFreq destClass joinTable <$> bridges.rows t |}.

(** The null replacement over the fields [networkFList]. *)
Definition replace_nulls (t : bridges.table) : bridges.table :=
  let networkFList := Arc.ListFields (bridges.schema t) "*TRAV*" in
  foldl (λ t field,
           bridges.CalculateField field
             (λ r, Py.Val (Traversals.zeroNulls (bridges.get field r))) t)
        t networkFList.

Section Workflow.

(** The routes and the traversed edges of the solve towards a class. *)
Variable CFRoutes : string → list CFRoutes.row.
Variable TravEdges : string → list TravEdges.row.

(** The statements of the loop: the edges of a class with the truck
    intensity and the key, and their frequency table. *)
Definition destEdges (bs : list businesses.row) (dest : string) : list TravEdges.row :=
  let routes := join_routes bs <$> CFRoutes dest in
  let e1 := join_edges routes <$> TravEdges dest in
  (λ e, TravEdges.set_Network_Sect_Concat (stored_text (Network_Sect_Concat_exp e)) e)
  <$> e1.

Definition destFreq (bs : list businesses.row) (dest : string) : list freq_row :=
  Frequency (destEdges bs dest).

(** The statements after the loop, on the businesses with their divided
    truck intensity, the flat network, and the classes in the order in which
    [ListTables("*_edgeFreq")] gives their frequency tables. *)
Definition run (bs : list businesses.row) (flatNetwork : bridges.table)
    (edgeFreqs : list string) : bridges.table :=
  let Network_Joined :=
    foldl (λ t destClass, JoinField_edgeFreq destClass (destFreq bs destClass) t)
          flatNetwork edgeFreqs in
  let n1 := replace_nulls Network_Joined in
  let n2 := Traversals.sum_fields "BUS_TRAV_SUM" "*TRAV_BUS*" n1 in
  Traversals.sum_fields "JOB_TRAV_SUM" "*TRAV_JOB*" n2.

End Workflow.

End Network.

(** ** A small network *)

Module Example3.

Definition CFRoutes (dest : string) : list CFRoutes.row :=
  [ {| CFRoutes.ObjectID := 1; CFRoutes.IncidentID := 1; CFRoutes.Truck_Int := None |};
    {| CFRoutes.ObjectID := 2; CFRoutes.IncidentID := 2; CFRoutes.Truck_Int := None |} ].

Definition edge (route : Z) (name : string) (oid : Z) : TravEdges.row :=
  {| TravEdges.RouteID := route; TravEdges.SourceName := Some name;
     TravEdges.SourceOID := Some oid; TravEdges.Truck_Int := None;
     TravEdges.Network_Sect_Concat := None |}.

Definition TravEdges (dest : string) : list TravEdges.row :=
  if decide (dest = "North") then
    [ edge 1 "Network_LocalStreets" 7; edge 1 "Network_Highways" 3;
      edge 2 "Network_LocalStreets" 7 ]
  else
    [ edge 1 "Network_LocalStreets" 7; edge 2 "Network_LocalStreets" 8 ].

Definition flatNetwork : bridges.table :=
  {| bridges.schema := ["Shape_Length"];
     bridges.rows :=
       [ {| bridges.BRDG_NBR := "Network_LocalStreets7";
            bridges.attrs := {[ "Shape_Length" := Example.q 100 ]} |};
         {| bridges.BRDG_NBR := "Network_Highways3";
            bridges.attrs := {[ "Shape_Length" := Example.q 250 ]} |};
         {| bridges.BRDG_NBR := "Network_Highways9";
            bridges.attrs := {[ "Shape_Length" := Example.q 40 ]} |} ] |}.

(** The businesses with their divided truck intensity. *)
Definition the_businesses : list businesses.row :=
  Traversals.calc_Truck_Int Example.dests Example.the_businesses.

Definition Network_Joined : bridges.table :=
  Network.run CFRoutes TravEdges the_businesses flatNetwork ["South"; "North"].

Definition north_edges : list TravEdges.row :=
  Network.destEdges CFRoutes TravEdges the_businesses "North".

Definition dummy_edge : TravEdges.row :=
  {| TravEdges.RouteID := 0; TravEdges.SourceName := None; TravEdges.SourceOID := None;
     TravEdges.Truck_Int := None; TravEdges.Network_Sect_Concat := None |}.

Definition local_street_7 : bridges.row :=
  nth 0 (bridges.rows Network_Joined) Example.dummy_bridge.

End Example3.

(** ** A business at a bridge

    One business that stands where bridge [B1] stands, so that the line
    from the business to the bridge has no length, and the power of the
    distance weighting set to zero. *)

Module Example4.

Definition zero_power : Traversals.settings :=
  {| Traversals.cutoff := 1; Traversals.power := 0 |}.

Definition the_businesses : list businesses.row :=
  [ {| businesses.OBJECTID := 1;
       businesses.POINT_X := Some (Example.q 10560); businesses.POINT_Y := Some (Example.q 0);
       businesses.Truck_Int_Raw := Some (Example.q 20); businesses.Truck_Int := None |} ].

Definition routesBridgesSJ (dest : string) : list routesBridgesSJ.row :=
  [ {| routesBridgesSJ.IncidentID := 1; routesBridgesSJ.BRDG_NBR := Some "B1";
       routesBridgesSJ.X_COORD := Some (Example.q 10560);
       routesBridgesSJ.Y_COORD := Some (Example.q 0);
       routesBridgesSJ.Total_Length := Some (Example.q 2);
       routesBridgesSJ.SHAPE := Some Example.base_route |} ].

(** The traversal step on it. *)
Definition traversed : Traversals.workspace :=
  Traversals.run Example.Shape_Length routesBridgesSJ Example.inserted zero_power
    the_businesses Example.the_bridges Example.dests.

Definition north_table : list bridgeTable.row :=
  Traversals.build_bridgeTable Example.Shape_Length routesBridgesSJ Example.inserted
    zero_power (Traversals.calc_Truck_Int Example.dests the_businesses) "North".

Definition at_the_bridge : bridgeTable.row := nth 0 north_table Example.dummy_row.

End Example4.

(** * Properties *)

(** ** The expressions and the stored values *)

Lemma Qc_of_Z_ne_0 (z : Z) : z ≠ 0%Z → Qc_of_Z z ≠ 0.
Proof.
  intros Hz Heq. apply Hz.
  apply (f_equal (λ q : Qc, Qnum q)) in Heq. exact Heq.
Qed.

Lemma truediv_Some (x y : Qc) :
  y ≠ 0 → Py.truediv (Some x) (Some y) = Py.Val (Some (x / y)).
Proof. intros Hy. unfold Py.truediv. by rewrite decide_False. Qed.

Lemma truediv_zero (x : Qc) :
  Py.truediv (Some x) (Some 0) = Py.Raise Py.ZeroDivisionError.
Proof. unfold Py.truediv. by rewrite decide_True. Qed.

Lemma pow_nonneg (x : Qc) (k : Z) :
  (0 ≤ k)%Z → Py.pow (Some x) k = Py.Val (Some (x ^ Z.to_nat k)).
Proof.
  intros Hk. destruct k as [|p|p]; simpl; [done|done|lia].
Qed.

Lemma Qcpower_ne_0 (x : Qc) (n : nat) : x ≠ 0 → x ^ n ≠ 0.
Proof.
  intros Hx. induction n as [|n IH]; simpl.
  - discriminate.
  - intros [?|?]%Qcmult_integral; contradiction.
Qed.

(** ** traversals.py: the loop over the destination classes *)

Section TraversalsFacts.

Variable Shape_Length : Qc → Qc → Qc → Qc → Qc.
Variable routesBridgesSJ : string → list routesBridgesSJ.row.
Variable inserted : string → nat → bool.
Variable cfg : Traversals.settings.

Abbreviation build := (Traversals.build_bridgeTable Shape_Length routesBridgesSJ inserted cfg).
Abbreviation traverse := (Traversals.traverse Shape_Length routesBridgesSJ inserted cfg).

(** The loop leaves the businesses as they are, appends one bridge table
    per destination class and joins one frequency table per class. *)
Lemma foldl_traverse (dests : list string) (ws : Traversals.workspace) :
  foldl traverse ws dests =
  {| Traversals.ws_businesses := Traversals.ws_businesses ws;
     Traversals.ws_bridges :=
       foldl (λ t dest,
                Traversals.JoinField_freq dest
                  (Traversals.Frequency_analysis (build (Traversals.ws_businesses ws) dest)) t)
             (Traversals.ws_bridges ws) dests;
     Traversals.Bridges_by_Bus :=
       Traversals.Bridges_by_Bus ws
       ++ ((λ dest, (dest, build (Traversals.ws_businesses ws) dest)) <$> dests) |}.
Proof.
  revert ws. induction dests as [|dest dests IH]; intros ws; simpl.
  - rewrite app_nil_r. by destruct ws.
  - rewrite IH. simpl. by rewrite <- app_assoc.
Qed.

Lemma run_businesses bs brs dests :
  Traversals.ws_businesses (Traversals.run Shape_Length routesBridgesSJ inserted cfg bs brs dests)
  = Traversals.calc_Truck_Int dests bs.
Proof. unfold Traversals.run. simpl. by rewrite foldl_traverse. Qed.

Lemma run_Bridges_by_Bus bs brs dests :
  Traversals.Bridges_by_Bus (Traversals.run Shape_Length routesBridgesSJ inserted cfg bs brs dests)
  = (λ dest, (dest, build (Traversals.calc_Truck_Int dests bs) dest)) <$> dests.
Proof. unfold Traversals.run. simpl. by rewrite foldl_traverse. Qed.

(** In a finished bridge table the two calculated fields hold what their
    expressions give on the finished row. *)
Lemma build_calculated bs dest r :
  r ∈ build bs dest →
  bridgeTable.BUS_TO_BRIDGE_MI r = Arc.stored (Traversals.BUS_TO_BRIDGE_MI_exp r)
  ∧ bridgeTable.Truck_Int_DW r = Arc.stored (Traversals.Truck_Int_DW_exp cfg r).
Proof.
  unfold Traversals.build_bridgeTable.
  intros (r3 & -> & (r2 & -> & _)%list_elem_of_fmap)%list_elem_of_fmap.
  split; reflexivity.
Qed.

(** The distance in map units of a finished row is null or the length of
    a line. *)
Lemma build_distance bs dest r :
  r ∈ build bs dest →
  bridgeTable.BUS_TO_BRIDGE_MU r = None
  ∨ ∃ bx by' gx gy, bridgeTable.BUS_TO_BRIDGE_MU r = Some (Shape_Length bx by' gx gy).
Proof.
  unfold Traversals.build_bridgeTable. cbv zeta.
  intros (r3 & -> & (r2 & -> & (r1 & -> & _)%list_elem_of_fmap)%list_elem_of_fmap)
           %list_elem_of_fmap.
  cbn. unfold Traversals.join_distance.
  set (xy := Traversals.XYToLine Shape_Length _).
  assert (∀ l, l ∈ xy →
            ∃ bx by' gx gy,
              Traversals.BUS_TO_BRIDGE_MU l = Some (Shape_Length bx by' gx gy)) as Hxy.
  { intros l (r & _ & Hl)%list_elem_of_omap.
    destruct (bridgeTable.Business_X r) as [bx|]; [|done].
    destruct (bridgeTable.Business_Y r) as [by'|]; [|done].
    destruct (bridgeTable.Bridge_X r) as [gx|]; [|done].
    destruct (bridgeTable.Bridge_Y r) as [gy|]; [|done].
    injection Hl as <-. by exists bx, by', gx, gy. }
  destruct (Arc.first_match _ _ xy) as [l|] eqn:Hl; cbn; [|by left].
  right. apply Hxy. clear Hxy. induction xy as [|a xy IH]; [done|].
  cbn in Hl. case_decide.
  - injection Hl as ->. apply list_elem_of_here.
  - apply list_elem_of_further. by apply IH.
Qed.

End TraversalsFacts.

(** Closes a goal that equates two closed rationals, or two closed values
    built from them. *)
Ltac closed_Qc :=
  vm_compute;
  repeat match goal with
         | |- Some _ = Some _ => apply (f_equal Some)
         | |- Py.Val _ = Py.Val _ => apply (f_equal Py.Val)
         end;
  apply Qc_is_canon; vm_compute; reflexivity.

(** ** The object ids of a bridge table *)

Section ObjectIds.

Variable Shape_Length : Qc → Qc → Qc → Qc → Qc.

(** With distinct object ids the join finds, for each row, the line drawn
    from that row. *)
Lemma join_distance_own (tbl : list bridgeTable.row) (r : bridgeTable.row)
    (bx by' gx gy : Qc) :
  NoDup (bridgeTable.OBJECTID <$> tbl) →
  r ∈ tbl →
  bridgeTable.Business_X r = Some bx → bridgeTable.Business_Y r = Some by' →
  bridgeTable.Bridge_X r = Some gx → bridgeTable.Bridge_Y r = Some gy →
  bridgeTable.BUS_TO_BRIDGE_MU
    (Traversals.join_distance (Traversals.XYToLine Shape_Length tbl) r)
  = Some (Shape_Length bx by' gx gy).
Proof.
  intros Hnd Hr Hbx Hby Hgx Hgy. unfold Traversals.join_distance.
  induction tbl as [|a tbl IH]; [by apply elem_of_nil in Hr|].
  simpl in Hnd. apply NoDup_cons in Hnd as [Ha Hnd].
  apply elem_of_cons in Hr as [->|Hr].
  - unfold Traversals.XYToLine. simpl. rewrite Hbx, Hby, Hgx, Hgy. simpl.
    rewrite decide_True by done. reflexivity.
  - assert (bridgeTable.OBJECTID a ≠ bridgeTable.OBJECTID r) as Hne.
    { intros Heq. apply Ha. rewrite Heq. by apply list_elem_of_fmap_2. }
    unfold Traversals.XYToLine. simpl.
    destruct (bridgeTable.Business_X a), (bridgeTable.Business_Y a),
      (bridgeTable.Bridge_X a), (bridgeTable.Bridge_Y a); simpl;
      rewrite ?decide_False by done; by apply IH.
Qed.

Lemma insertRow_NoDup (bs : list businesses.row)
    (cs : list (string * routesBridgesSJ.row)) :
  NoDup (bridgeTable.OBJECTID <$>
           (Traversals.join_businesses bs <$> imap Traversals.insertRow cs)).
Proof.
  apply NoDup_alt. intros i j k Hi Hj.
  rewrite !list_lookup_fmap, list_lookup_imap in Hi, Hj.
  destruct (cs !! i) as [ci|]; [|done]. destruct (cs !! j) as [cj|]; [|done].
  simpl in Hi, Hj. unfold Traversals.join_businesses in Hi, Hj.
  repeat case_match; simpl in *; simplify_eq; lia.
Qed.

End ObjectIds.

(** ** Claims on traversals.py *)

(** C10 (traversals.py read without the stray tokens of lines 125 and
    208): in every bridge table the distance in miles [BUS_TO_BRIDGE_MI] is
    the distance in map units [BUS_TO_BRIDGE_MU] divided by 5280, and the
    distance in map units of a row with its four coordinates is the length of
    the geodesic line from the business to the bridge. *)
Theorem C10_miles_are_map_units_over_5280
    (Shape_Length : Qc → Qc → Qc → Qc → Qc)
    (routesBridgesSJ : string → list routesBridgesSJ.row)
    (inserted : string → nat → bool)
    (cfg : Traversals.settings) (bs : list businesses.row) (brs : bridges.table)
    (dests : list string) (dest : string) (tbl : list bridgeTable.row)
    (r : bridgeTable.row) :
  (dest, tbl) ∈ Traversals.Bridges_by_Bus
                  (Traversals.run Shape_Length routesBridgesSJ inserted cfg bs brs dests) →
  r ∈ tbl →
  (∀ m, bridgeTable.BUS_TO_BRIDGE_MU r = Some m →
        bridgeTable.BUS_TO_BRIDGE_MI r = Some (m / Qc_of_Z 5280))
  ∧ (∀ bx by' gx gy,
       bridgeTable.Business_X r = Some bx → bridgeTable.Business_Y r = Some by' →
       bridgeTable.Bridge_X r = Some gx → bridgeTable.Bridge_Y r = Some gy →
       bridgeTable.BUS_TO_BRIDGE_MU r = Some (Shape_Length bx by' gx gy)
       ∧ bridgeTable.BUS_TO_BRIDGE_MI r
         = Some (Shape_Length bx by' gx gy / Qc_of_Z 5280)).
Proof.
  rewrite run_Bridges_by_Bus.
  intros (d & [= -> ->] & _)%list_elem_of_fmap Hr.
  assert (∀ m, bridgeTable.BUS_TO_BRIDGE_MU r = Some m →
               bridgeTable.BUS_TO_BRIDGE_MI r = Some (m / Qc_of_Z 5280)) as Hmi.
  { intros m Hm.
    destruct (build_calculated _ _ _ _ _ _ _ Hr) as [-> _].
    unfold Traversals.BUS_TO_BRIDGE_MI_exp, Py.lit. rewrite Hm.
    rewrite truediv_Some by (by apply Qc_of_Z_ne_0). reflexivity. }
  split; [exact Hmi|].
  intros bx by' gx gy Hbx Hby Hgx Hgy.
  assert (bridgeTable.BUS_TO_BRIDGE_MU r = Some (Shape_Length bx by' gx gy)) as Hmu.
  { unfold Traversals.build_bridgeTable in Hr.
    apply list_elem_of_fmap in Hr as (r3 & -> & Hr).
    apply list_elem_of_fmap in Hr as (r2 & -> & Hr).
    apply list_elem_of_fmap in Hr as (r1 & -> & Hr).
    simpl in *.
    assert (∀ xy, bridgeTable.Business_X (Traversals.join_distance xy r1)
                  = bridgeTable.Business_X r1
                ∧ bridgeTable.Business_Y (Traversals.join_distance xy r1)
                  = bridgeTable.Business_Y r1
                ∧ bridgeTable.Bridge_X (Traversals.join_distance xy r1)
                  = bridgeTable.Bridge_X r1
                ∧ bridgeTable.Bridge_Y (Traversals.join_distance xy r1)
                  = bridgeTable.Bridge_Y r1) as Hsame.
    { intros xy. unfold Traversals.join_distance. by case_match. }
    destruct (Hsame (Traversals.XYToLine Shape_Length
                (Traversals.join_businesses (Traversals.calc_Truck_Int dests bs)
                   <$> imap Traversals.insertRow
                         (Traversals.written (inserted d)
                            (Traversals.crossings (routesBridgesSJ d))))))
      as (E1 & E2 & E3 & E4).
    rewrite E1 in Hbx. rewrite E2 in Hby. rewrite E3 in Hgx. rewrite E4 in Hgy.
    apply join_distance_own; auto using insertRow_NoDup. }
  split; [exact Hmu|]. by apply Hmi.
Qed.

Lemma C10_witness :
  bridgeTable.BUS_TO_BRIDGE_MI Example.crossing_B1
  = Some (Qc_of_Z 10560 / Qc_of_Z 5280).
Proof.
  apply (C10_miles_are_map_units_over_5280
           Example.Shape_Length Example.routesBridgesSJ Example.inserted
           Traversals.default_settings
           Example.the_businesses Example.the_bridges Example.dests
           "North" Example.north_table Example.crossing_B1).
  - vm_compute. apply list_elem_of_here.
  - vm_compute. apply list_elem_of_here.
  - closed_Qc.
Defined.

(** C6 (traversals.py read without the stray tokens of lines 125 and
    208): the divided truck intensity of every business is its raw truck
    intensity over the number of destination classes; it is calculated
    before the loop over the classes, and no turn of the loop changes the
    businesses. *)
Theorem C6_truck_intensity_divided_once
    (Shape_Length : Qc → Qc → Qc → Qc → Qc)
    (routesBridgesSJ : string → list routesBridgesSJ.row)
    (inserted : string → nat → bool)
    (cfg : Traversals.settings) (bs : list businesses.row) (brs : bridges.table)
    (dests : list string) :
  dests ≠ [] →
  (∀ i b, bs !! i = Some b →
     ∃ b', Traversals.ws_businesses
             (Traversals.run Shape_Length routesBridgesSJ inserted cfg bs brs dests) !! i = Some b'
           ∧ businesses.OBJECTID b' = businesses.OBJECTID b
           ∧ businesses.Truck_Int_Raw b' = businesses.Truck_Int_Raw b
           ∧ ∀ raw, businesses.Truck_Int_Raw b = Some raw →
                    businesses.Truck_Int b'
                    = Some (raw / Qc_of_Z (Z.of_nat (length dests))))
  ∧ (∀ ws ds,
       Traversals.ws_businesses
         (foldl (Traversals.traverse Shape_Length routesBridgesSJ inserted cfg) ws ds)
       = Traversals.ws_businesses ws)
  ∧ Traversals.ws_businesses
      (Traversals.run Shape_Length routesBridgesSJ inserted cfg bs brs dests)
    = Traversals.calc_Truck_Int dests bs.
Proof.
  intros Hdests. split; [|split].
  - intros i b Hb. rewrite run_businesses. unfold Traversals.calc_Truck_Int.
    rewrite list_lookup_fmap, Hb. simpl. eexists. split; [reflexivity|].
    simpl. split; [done|]. split; [done|].
    intros raw Hraw. unfold Traversals.Truck_Int_exp, Py.lit. rewrite Hraw.
    rewrite truediv_Some; [done|].
    apply Qc_of_Z_ne_0. destruct dests; [done|]. simpl. lia.
  - intros ws ds. by rewrite foldl_traverse.
  - apply run_businesses.
Qed.

Lemma C6_witness :
  ∃ b', Traversals.ws_businesses Example.traversed !! 0%nat = Some b'
        ∧ businesses.Truck_Int b' = Some (Qc_of_Z 20 / Qc_of_Z 2).
Proof.
  destruct (C6_truck_intensity_divided_once
              Example.Shape_Length Example.routesBridgesSJ Example.inserted
           Traversals.default_settings
              Example.the_businesses Example.the_bridges Example.dests)
    as [H _].
  - discriminate.
  - destruct (H 0%nat
                {| businesses.OBJECTID := 1;
                   businesses.POINT_X := Some (Example.q 0);
                   businesses.POINT_Y := Some (Example.q 0);
                   businesses.Truck_Int_Raw := Some (Example.q 20);
                   businesses.Truck_Int := None |} eq_refl)
      as (b' & Hb' & _ & _ & Hti).
    exists b'. split; [exact Hb'|]. exact (Hti (Qc_of_Z 20) eq_refl).
Defined.

(** C8: where the business origins may be placed on the network.  In the
    layer that traversals.py (read without the stray tokens of lines 125 and
    208) solves for a class, and in the layer that detours.py solves for a
    business and a bridge, the incidents are the businesses, loaded with
    search criteria under which a source of the network dataset may take a
    location exactly when its name is among the permitted [snappables], the
    local streets: such a source has the snap type ["SHAPE"], every other
    one ["NONE"].  The list is given to the incidents only: the facilities
    (and the barrier of detours.py) are loaded with the criteria of the
    layer.  The routes and solves that the scripts read are those of these
    layers. *)
Theorem C8_snappable_iff_permitted (sources : list string) (name : string) :
  name ∈ sources →
  (∀ dest,
     ∃ criteria,
       NA.Incidents (Traversals.ClosestFacility_layer sources dest)
       = {| NA.in_table := NA.FeatureClass "businesses";
            NA.search_criteria := Some criteria |}
       ∧ (NA.locatable criteria name ↔ name ∈ Traversals.snappables)
       ∧ ((name, "SHAPE") ∈ criteria ↔ name ∈ Traversals.snappables)
       ∧ ((name, "NONE") ∈ criteria ↔ name ∉ Traversals.snappables)
       ∧ NA.search_criteria (NA.Facilities (Traversals.ClosestFacility_layer sources dest))
         = None)
  ∧ (∀ dest detourBusID removeBridgeNum,
       ∃ criteria where_clause barrier,
         NA.Incidents
           (Detours.ClosestFacility_layer sources dest detourBusID removeBridgeNum)
         = {| NA.in_table := NA.FeatureLayer "businesses" where_clause;
              NA.search_criteria := Some criteria |}
         ∧ (NA.locatable criteria name ↔ name ∈ Detours.snappables)
         ∧ ((name, "SHAPE") ∈ criteria ↔ name ∈ Detours.snappables)
         ∧ ((name, "NONE") ∈ criteria ↔ name ∉ Detours.snappables)
         ∧ NA.search_criteria
             (NA.Facilities
                (Detours.ClosestFacility_layer sources dest detourBusID removeBridgeNum))
           = None
         ∧ NA.Point_Barriers
             (Detours.ClosestFacility_layer sources dest detourBusID removeBridgeNum)
           = Some barrier
         ∧ NA.search_criteria barrier = None)
  ∧ (name ∈ Traversals.snappables ↔ name = "Network_LocalStreets")
  ∧ Detours.snappables = Traversals.snappables
  ∧ (∀ Shape_Length routes_joined_to_bridges inserted cfg bs brs dests,
       Traversals.script Shape_Length sources routes_joined_to_bridges inserted cfg
         bs brs dests
       = Traversals.run Shape_Length
           (λ dest,
              routes_joined_to_bridges (Traversals.ClosestFacility_layer sources dest))
           inserted cfg bs brs dests)
  ∧ (∀ Solve Bridges_by_Bus brs,
       Detours.script sources Solve Bridges_by_Bus brs
       = Detours.run
           (λ dest detourBusID removeBridgeNum,
              Solve (Detours.ClosestFacility_layer sources dest detourBusID
                       removeBridgeNum))
           Bridges_by_Bus brs).
Proof.
  intros Hin.
  assert ((name, "SHAPE") ∈ Traversals.sourceNames sources
          ↔ name ∈ Traversals.snappables) as Hshape.
  { unfold Traversals.sourceNames. rewrite list_elem_of_fmap. split.
    - intros (i & Heq & _). case_decide; simplify_eq. done.
    - intros Hs. exists name. by rewrite decide_True. }
  assert ((name, "NONE") ∈ Traversals.sourceNames sources
          ↔ name ∉ Traversals.snappables) as Hnone.
  { unfold Traversals.sourceNames. rewrite list_elem_of_fmap. split.
    - intros (i & Heq & _). case_decide; simplify_eq. done.
    - intros Hs. exists name. by rewrite decide_False. }
  assert (NA.locatable (Traversals.sourceNames sources) name
          ↔ name ∈ Traversals.snappables) as Hloc.
  { split.
    - intros (t & Ht & Hne). unfold Traversals.sourceNames in Ht.
      apply list_elem_of_fmap in Ht as (i & Heq & _).
      case_decide; simplify_eq. done.
    - intros Hs. exists "SHAPE". split; [by apply Hshape|done]. }
  split; [|split; [|split; [|split; [|split]]]].
  - intros dest. by exists (Traversals.sourceNames sources).
  - intros dest detourBusID removeBridgeNum.
    exists (Traversals.sourceNames sources). eexists. eexists.
    split; [reflexivity|]. split; [exact Hloc|]. split; [exact Hshape|].
    split; [exact Hnone|]. split; [reflexivity|]. split; [reflexivity|]. reflexivity.
  - unfold Traversals.snappables. rewrite list_elem_of_singleton. done.
  - reflexivity.
  - reflexivity.
  - reflexivity.
Qed.

Lemma C8_witness :
  (NA.locatable (Traversals.sourceNames ["Network_Highways"; "Network_LocalStreets"])
     "Network_LocalStreets"
   ↔ "Network_LocalStreets" ∈ Traversals.snappables)
  ∧ (NA.locatable (Traversals.sourceNames ["Network_Highways"; "Network_LocalStreets"])
       "Network_Highways"
     ↔ "Network_Highways" ∈ Traversals.snappables).
Proof.
  split.
  - destruct (C8_snappable_iff_permitted
                ["Network_Highways"; "Network_LocalStreets"] "Network_LocalStreets")
      as [H _].
    + apply list_elem_of_further, list_elem_of_here.
    + destruct (H "North") as (criteria & Heq & Hloc & _).
      injection Heq as <-. exact Hloc.
  - destruct (C8_snappable_iff_permitted
                ["Network_Highways"; "Network_LocalStreets"] "Network_Highways")
      as [H _].
    + apply list_elem_of_here.
    + destruct (H "North") as (criteria & Heq & Hloc & _).
      injection Heq as <-. exact Hloc.
Defined.

(** C2, as the code has it (traversals.py read without the stray tokens
    of lines 125 and 208): on a row with a truck intensity and a distance in
    miles, the distance-weighted intensity is
    [(Truck_Int * cutoff) / (BUS_TO_BRIDGE_MI ^ power)] whenever the distance
    is not zero; at distance zero, with a positive power, the expression
    raises [ZeroDivisionError] and the field of the row is left null; with
    the power zero a distance of zero does not fail (see the counterexample).
    The distance is the length of a line over 5280: where lengths are not
    negative, it is not negative. *)
Theorem C2_distance_weighted_intensity
    (Shape_Length : Qc → Qc → Qc → Qc → Qc)
    (routesBridgesSJ : string → list routesBridgesSJ.row)
    (inserted : string → nat → bool)
    (cfg : Traversals.settings) (bs : list businesses.row) (brs : bridges.table)
    (dests : list string) (dest : string) (tbl : list bridgeTable.row)
    (r : bridgeTable.row) (ti d : Qc) :
  (dest, tbl) ∈ Traversals.Bridges_by_Bus
                  (Traversals.run Shape_Length routesBridgesSJ inserted cfg bs brs dests) →
  r ∈ tbl →
  bridgeTable.Truck_Int r = Some ti →
  bridgeTable.BUS_TO_BRIDGE_MI r = Some d →
  (d ≠ 0 → (0 ≤ Traversals.power cfg)%Z →
     Traversals.Truck_Int_DW_exp cfg r
     = Py.Val (Some (ti * Traversals.cutoff cfg / d ^ Z.to_nat (Traversals.power cfg)))
     ∧ bridgeTable.Truck_Int_DW r
       = Some (ti * Traversals.cutoff cfg / d ^ Z.to_nat (Traversals.power cfg)))
  ∧ (d = 0 → (0 < Traversals.power cfg)%Z →
       Traversals.Truck_Int_DW_exp cfg r = Py.Raise Py.ZeroDivisionError
       ∧ bridgeTable.Truck_Int_DW r = None)
  ∧ (d = 0 → Traversals.power cfg = 0%Z →
       Traversals.Truck_Int_DW_exp cfg r = Py.Val (Some (ti * Traversals.cutoff cfg))
       ∧ bridgeTable.Truck_Int_DW r = Some (ti * Traversals.cutoff cfg))
  ∧ ((∀ bx by' gx gy, 0 ≤ Shape_Length bx by' gx gy) → 0 ≤ d).
Proof.
  rewrite run_Bridges_by_Bus.
  intros (dst & [= -> ->] & _)%list_elem_of_fmap Hr Hti Hd.
  destruct (build_calculated _ _ _ _ _ _ _ Hr) as [Hmi Hdw].
  split; [|split; [|split]].
  - intros Hne Hpow.
    assert (Traversals.Truck_Int_DW_exp cfg r
            = Py.Val (Some (ti * Traversals.cutoff cfg
                            / d ^ Z.to_nat (Traversals.power cfg)))) as Hexp.
    { unfold Traversals.Truck_Int_DW_exp. rewrite Hti, Hd.
      rewrite pow_nonneg by done. cbn -[Py.truediv].
      rewrite truediv_Some by (by apply Qcpower_ne_0). reflexivity. }
    split; [exact Hexp|]. by rewrite Hdw, Hexp.
  - intros -> Hpow.
    assert (Traversals.Truck_Int_DW_exp cfg r = Py.Raise Py.ZeroDivisionError) as Hexp.
    { unfold Traversals.Truck_Int_DW_exp. rewrite Hti, Hd.
      rewrite pow_nonneg by lia. cbn -[Py.truediv Qcpower].
      destruct (Z.to_nat (Traversals.power cfg)) as [|n] eqn:Hn; [lia|].
      cbn [Qcpower]. rewrite Qcmult_0_l. apply truediv_zero. }
    split; [exact Hexp|]. by rewrite Hdw, Hexp.
  - intros -> Hpow.
    assert (Traversals.Truck_Int_DW_exp cfg r
            = Py.Val (Some (ti * Traversals.cutoff cfg))) as Hexp.
    { unfold Traversals.Truck_Int_DW_exp. rewrite Hti, Hd, Hpow.
      cbn -[Py.truediv]. rewrite truediv_Some by done.
      do 2 f_equal. unfold Qcdiv.
      change (/ 1) with (1 : Qc). apply Qcmult_1_r. }
    split; [exact Hexp|]. by rewrite Hdw, Hexp.
  - intros Hlen. rewrite Hmi in Hd.
    destruct (build_distance _ _ _ _ _ _ _ Hr) as [Hnone|(bx & by' & gx & gy & Hmu)].
    + unfold Traversals.BUS_TO_BRIDGE_MI_exp in Hd. by rewrite Hnone in Hd.
    + unfold Traversals.BUS_TO_BRIDGE_MI_exp, Py.lit in Hd. rewrite Hmu in Hd.
      rewrite truediv_Some in Hd by (by apply Qc_of_Z_ne_0).
      injection Hd as <-. unfold Qcdiv.
      rewrite <- (Qcmult_0_l (/ Qc_of_Z 5280)).
      apply Qcmult_le_compat_r; [apply Hlen|]. by vm_compute.
Qed.

Lemma C2_witness :
  bridgeTable.Truck_Int_DW Example.crossing_B1
  = Some (Qc_of_Z 10 * 1 / Qc_of_Z 2 ^ Z.to_nat 1).
Proof.
  apply (C2_distance_weighted_intensity
           Example.Shape_Length Example.routesBridgesSJ Example.inserted
           Traversals.default_settings
           Example.the_businesses Example.the_bridges Example.dests
           "North" Example.north_table Example.crossing_B1 (Qc_of_Z 10) (Qc_of_Z 2)).
  - vm_compute. apply list_elem_of_here.
  - vm_compute. apply list_elem_of_here.
  - closed_Qc.
  - closed_Qc.
  - vm_compute. discriminate.
  - vm_compute. discriminate.
Defined.

(** C2, as the specification has it, fails: with the power of the
    weighting set to zero, a business that stands at the bridge has a
    distance of zero miles, and the expression does not fail there: the zero
    distance to the power zero is one, and the distance-weighted intensity
    is the truck intensity times the cutoff. *)
Lemma C2_counterexample :
  (("North", Example4.north_table) : string * list bridgeTable.row)
    ∈ Traversals.Bridges_by_Bus Example4.traversed
  ∧ Example4.at_the_bridge ∈ Example4.north_table
  ∧ bridgeTable.Truck_Int Example4.at_the_bridge = Some (Qc_of_Z 10)
  ∧ bridgeTable.BUS_TO_BRIDGE_MI Example4.at_the_bridge = Some 0
  ∧ Traversals.Truck_Int_DW_exp Example4.zero_power Example4.at_the_bridge
    = Py.Val (Some (Qc_of_Z 10))
  ∧ bridgeTable.Truck_Int_DW Example4.at_the_bridge = Some (Qc_of_Z 10)
  ∧ ¬ ∃ e, Traversals.Truck_Int_DW_exp Example4.zero_power Example4.at_the_bridge
           = Py.Raise e.
Proof.
  assert (Traversals.Truck_Int_DW_exp Example4.zero_power Example4.at_the_bridge
          = Py.Val (Some (Qc_of_Z 10))) as Hexp by closed_Qc.
  repeat split.
  - vm_compute. apply list_elem_of_here.
  - vm_compute. apply list_elem_of_here.
  - closed_Qc.
  - closed_Qc.
  - exact Hexp.
  - closed_Qc.
  - intros [e He]. rewrite Hexp in He. discriminate.
Qed.

(** ** detours.py: the key of a row *)

Lemma pretty_N_go_no_comma (x : N) (s : string) :
  ","%char ∉ list_ascii_of_string s →
  ","%char ∉ list_ascii_of_string (pretty_N_go x s).
Proof.
  revert s. induction (N.lt_wf_0 x) as [x _ IH]; intros s Hs.
  assert (x = 0 ∨ 0 < x)%N as [->|Hx] by lia.
  - by rewrite pretty_N_go_0.
  - rewrite pretty_N_go_step by done. apply IH.
    + by apply N.div_lt.
    + simpl. apply not_elem_of_cons. split; [|done].
      unfold pretty_N_char. repeat case_match; discriminate.
Qed.

Lemma str_int_no_comma (i : Z) : ","%char ∉ list_ascii_of_string (Py.str_int i).
Proof.
  assert (∀ p : positive, ","%char ∉ list_ascii_of_string (pretty (N.pos p))) as Hpos.
  { intros p. unfold pretty, pretty_N. rewrite decide_False by done.
    apply pretty_N_go_no_comma. simpl. apply not_elem_of_nil. }
  unfold Py.str_int, pretty, pretty_Z. destruct i as [|p|p].
  - simpl. apply not_elem_of_cons. split; [discriminate|apply not_elem_of_nil].
  - apply Hpos.
  - simpl. apply not_elem_of_cons. split; [discriminate|apply Hpos].
Qed.

(** Two strings cut at their first comma are equal only piece by piece. *)
Lemma comma_split (s1 s2 t1 t2 : string) :
  ","%char ∉ list_ascii_of_string s1 →
  ","%char ∉ list_ascii_of_string s2 →
  s1 +:+ "," +:+ t1 = s2 +:+ "," +:+ t2 →
  s1 = s2 ∧ t1 = t2.
Proof.
  revert s2. induction s1 as [|c s1 IH]; intros [|c' s2] H1 H2 Heq; simpl in *.
  - by simplify_eq.
  - simplify_eq. exfalso. apply H2. apply list_elem_of_here.
  - simplify_eq. exfalso. apply H1. apply list_elem_of_here.
  - apply not_elem_of_cons in H1 as [_ H1]. apply not_elem_of_cons in H2 as [_ H2].
    injection Heq as -> Heq. destruct (IH s2 H1 H2 Heq) as [-> ->]. done.
Qed.

(** The key of a pair names the pair. *)
Lemma format_key_inj (a1 a2 : Z) (b1 b2 : string) :
  Detours.format_key a1 b1 = Detours.format_key a2 b2 → a1 = a2 ∧ b1 = b2.
Proof.
  unfold Detours.format_key. intros Heq.
  apply comma_split in Heq as [Ha Hb]; auto using str_int_no_comma.
  split; [|done]. by apply (inj pretty).
Qed.

Lemma detKey_updateRow k rr r :
  Detours.detKey (Detours.updateRow k rr r) = Detours.detKey r.
Proof. unfold Detours.updateRow. by case_decide. Qed.

(** ** detours.py: the update cursor and the loops *)

Lemma update_cursor_bound k rr tbl :
  Detours.update_cursor (Some k) rr tbl = Py.Val (Detours.updateRow k rr <$> tbl).
Proof.
  induction tbl as [|r tbl IH]; simpl; [done|].
  rewrite IH. reflexivity.
Qed.

Lemma update_cursor_Val key rr tbl tbl' :
  Detours.update_cursor key rr tbl = Py.Val tbl' →
  tbl' = [] ∧ tbl = []
  ∨ ∃ k, key = Some k ∧ tbl' = Detours.updateRow k rr <$> tbl.
Proof.
  destruct key as [k|].
  - rewrite update_cursor_bound. intros [= <-]. right. by exists k.
  - destruct tbl; simpl; [intros [= <-]; by left|discriminate].
Qed.

Section DetoursFacts.

Variable solve : string → Z → string → Detours.solution.

(** A turn of the inner loop either fails or maps [updateRow] over the
    table. *)
Lemma detour_Val dest st p st' :
  Detours.detour solve dest st p = Py.Val st' →
  Detours.key st' = Detours.key_after (Detours.key st) p.1 p.2 (solve dest p.1 p.2)
  ∧ (Detours.detours st' = [] ∧ Detours.detours st = []
     ∨ ∃ k, Detours.key st' = Some k
            ∧ Detours.detours st'
              = Detours.updateRow k (Detours.routeRow p.1 (solve dest p.1 p.2))
                  <$> Detours.detours st).
Proof.
  destruct p as [b g]. unfold Detours.detour. simpl.
  destruct (Detours.update_cursor _ _ _) as [tbl'|e] eqn:Hup; simpl; [|discriminate].
  intros [= <-]. simpl. split; [done|].
  apply update_cursor_Val in Hup as [[-> ->]|(k & Hk & ->)]; [by left|].
  right. by exists k.
Qed.

(** When the [try] block of a turn is not left early, the turn succeeds. *)
Lemma detour_solved dest st b g :
  solve dest b g ≠ Detours.Failed →
  Detours.detour solve dest st (b, g)
  = Py.Val {| Detours.key := Some (Detours.format_key b g);
              Detours.detours :=
                Detours.updateRow (Detours.format_key b g)
                  (Detours.routeRow b (solve dest b g)) <$> Detours.detours st |}.
Proof.
  intros Hs. unfold Detours.detour.
  assert (Detours.key_after (Detours.key st) b g (solve dest b g)
          = Some (Detours.format_key b g)) as ->.
  { unfold Detours.key_after. by destruct (solve dest b g). }
  by rewrite update_cursor_bound.
Qed.

(** An invariant of the table that every successful turn keeps is kept by
    the loop. *)
Lemma detour_loop_invariant (P : list bridgeTable.row → Prop) dest :
  (∀ st p st', Detours.detour solve dest st p = Py.Val st' →
               P (Detours.detours st) → P (Detours.detours st')) →
  ∀ ps st st', Detours.detour_loop solve dest st ps = Py.Val st' →
               P (Detours.detours st) → P (Detours.detours st').
Proof.
  intros Hstep ps. induction ps as [|p ps IH]; intros st st'; simpl.
  - by intros [= <-].
  - destruct (Detours.detour solve dest st p) as [st1|e] eqn:H1; simpl; [|discriminate].
    intros Hloop HP. eapply IH; [exact Hloop|]. eapply Hstep; eauto.
Qed.

End DetoursFacts.

(** ** detours.py: the metric fields and the loop over the classes *)

(** A row of a finished detour table comes from a row of the table the
    loops left, keeps its identifiers, its two costs and its intensities, and
    holds in the three metric fields what their expressions give on it. *)
Lemma detour_metrics_row (tbl : list bridgeTable.row) (r' : bridgeTable.row) :
  r' ∈ Detours.detour_metrics tbl →
  (∃ r, r ∈ tbl
        ∧ bridgeTable.Business_ID r' = bridgeTable.Business_ID r
        ∧ bridgeTable.BRDG_NBR r' = bridgeTable.BRDG_NBR r
        ∧ bridgeTable.No_Bridge_Time r' = bridgeTable.No_Bridge_Time r
        ∧ bridgeTable.Base_Length r' = bridgeTable.Base_Length r
        ∧ bridgeTable.SHAPE r' = bridgeTable.SHAPE r)
  ∧ bridgeTable.DET_TIME r' = Arc.stored (Detours.subtractExp r')
  ∧ bridgeTable.JOB_DET_TIME r' = Arc.stored (Detours.multExp r')
  ∧ bridgeTable.DISTW_JOB_DET_TIME r' = Arc.stored (Detours.multExp_DW r').
Proof.
  unfold Detours.detour_metrics.
  intros (r2 & -> & (r1 & -> & (r & -> & Hr)%list_elem_of_fmap)%list_elem_of_fmap)
           %list_elem_of_fmap.
  split; [exists r; by repeat split|]. by repeat split.
Qed.

Section DestLoop.

Variable solve : string → Z → string → Detours.solution.

Lemma detours_of_Val dest key0 tbl st :
  Detours.detours_of solve dest key0 tbl = Py.Val st →
  ∃ st0,
    Detours.detour_loop solve dest
      {| Detours.key := key0;
         Detours.detours := bridgeTable.set_No_Bridge_Time None <$> tbl |}
      (Detours.pairs (Detours.busDict (bridgeTable.set_No_Bridge_Time None <$> tbl)))
    = Py.Val st0
    ∧ Detours.key st = Detours.key st0
    ∧ Detours.detours st = Detours.detour_metrics (Detours.detours st0).
Proof.
  unfold Detours.detours_of.
  destruct (Detours.detour_loop _ _ _ _) as [st0|e]; simpl; [|discriminate].
  intros [= <-]. by exists st0.
Qed.

(** Every table the loop over the classes returns was collected before or
    is the finished table of one of the classes. *)
Lemma dest_loop_tables tables key0 acc out dest tbl' :
  Detours.dest_loop solve key0 acc tables = Py.Val out →
  (dest, tbl') ∈ out →
  (dest, tbl') ∈ acc
  ∨ ∃ k tbl st, (dest, tbl) ∈ tables
                ∧ Detours.detours_of solve dest k tbl = Py.Val st
                ∧ tbl' = Detours.detours st.
Proof.
  revert key0 acc. induction tables as [|[d t] tables IH]; intros key0 acc; simpl.
  - intros [= <-] Hin. by left.
  - destruct (Detours.detours_of solve d key0 t) as [st|e] eqn:Hof; simpl; [|discriminate].
    intros Hloop Hin. destruct (IH _ _ Hloop Hin) as [Hacc|(k & tbl & st1 & H1 & H2 & H3)].
    + apply elem_of_app in Hacc as [Hacc|Hnew]; [by left|].
      apply list_elem_of_singleton in Hnew as [= -> ->].
      right. exists key0, t, st. split; [apply list_elem_of_here|done].
    + right. exists k, tbl, st1. split; [by apply list_elem_of_further|done].
Qed.

(** A run that ends has gone through the loop over the classes, of one
    class at least, and through the summary. *)
Lemma run_Val Bridges_by_Bus brs out :
  Detours.run solve Bridges_by_Bus brs = Py.Val out →
  Bridges_by_Bus ≠ []
  ∧ ∃ tables,
      Detours.dest_loop solve None [] Bridges_by_Bus = Py.Val tables
      ∧ out = {| Detours.detours_tables := tables;
                 Detours.out_bridges :=
                   Detours.JoinField_sums
                     (Detours.Detours_by_Bridge (tables ≫= snd)) brs |}.
Proof.
  unfold Detours.run.
  destruct (Detours.dest_loop solve None [] Bridges_by_Bus) as [tables|e];
    cbn [mbind Py.result_bind]; [|discriminate].
  destruct Bridges_by_Bus as [|p l]; cbn; [discriminate|].
  intros [= <-]. split; [done|]. by exists tables.
Qed.

Lemma run_of_loop Bridges_by_Bus brs tables :
  Bridges_by_Bus ≠ [] →
  Detours.dest_loop solve None [] Bridges_by_Bus = Py.Val tables →
  Detours.run solve Bridges_by_Bus brs
  = Py.Val {| Detours.detours_tables := tables;
              Detours.out_bridges :=
                Detours.JoinField_sums
                  (Detours.Detours_by_Bridge (tables ≫= snd)) brs |}.
Proof.
  intros Hne Hloop. unfold Detours.run. rewrite Hloop.
  by destruct Bridges_by_Bus.
Qed.

Lemma run_tables Bridges_by_Bus brs out dest tbl' :
  Detours.run solve Bridges_by_Bus brs = Py.Val out →
  (dest, tbl') ∈ Detours.detours_tables out →
  ∃ k tbl st, (dest, tbl) ∈ Bridges_by_Bus
              ∧ Detours.detours_of solve dest k tbl = Py.Val st
              ∧ tbl' = Detours.detours st.
Proof.
  intros (_ & tables & Hloop & ->)%run_Val. simpl. intros Hin.
  destruct (dest_loop_tables _ _ _ _ _ _ Hloop Hin) as [Hnil|H]; [|done].
  by apply elem_of_nil in Hnil.
Qed.

(** A row of a finished table of the script holds in its metric fields
    what the three expressions give on it. *)
Lemma run_metrics Bridges_by_Bus brs out dest tbl' r :
  Detours.run solve Bridges_by_Bus brs = Py.Val out →
  (dest, tbl') ∈ Detours.detours_tables out →
  r ∈ tbl' →
  bridgeTable.DET_TIME r = Arc.stored (Detours.subtractExp r)
  ∧ bridgeTable.JOB_DET_TIME r = Arc.stored (Detours.multExp r)
  ∧ bridgeTable.DISTW_JOB_DET_TIME r = Arc.stored (Detours.multExp_DW r).
Proof.
  intros Hrun Hin Hr.
  destruct (run_tables _ _ _ _ _ Hrun Hin) as (k & tbl & st & _ & Hof & ->).
  apply detours_of_Val in Hof as (st0 & _ & _ & Hst). rewrite Hst in Hr.
  by apply detour_metrics_row in Hr as [_ H].
Qed.

End DestLoop.

(** ** Claims on the detour metrics *)

(** C1: in every row of every detour table whose barred cost
    [No_Bridge_Time] and baseline cost [Base_Length] are both present, the
    detour time [DET_TIME] is the barred cost minus the baseline cost. *)
Theorem C1_detour_time_is_barred_minus_baseline
    (solve : string → Z → string → Detours.solution)
    (Bridges_by_Bus : list (string * list bridgeTable.row)) (brs : bridges.table)
    (out : Detours.output) (dest : string) (tbl : list bridgeTable.row)
    (r : bridgeTable.row) (barred base : Qc) :
  Detours.run solve Bridges_by_Bus brs = Py.Val out →
  (dest, tbl) ∈ Detours.detours_tables out →
  r ∈ tbl →
  bridgeTable.No_Bridge_Time r = Some barred →
  bridgeTable.Base_Length r = Some base →
  bridgeTable.DET_TIME r = Some (barred - base).
Proof.
  intros Hrun Hin Hr Hbarred Hbase.
  destruct (run_metrics _ _ _ _ _ _ _ Hrun Hin Hr) as (-> & _ & _).
  unfold Detours.subtractExp. by rewrite Hbarred, Hbase.
Qed.

Lemma C1_witness :
  bridgeTable.DET_TIME Example.detour_B1 = Some (Qc_of_Z 5 - Qc_of_Z 2).
Proof.
  apply (C1_detour_time_is_barred_minus_baseline
           Example.solve (Traversals.Bridges_by_Bus Example.traversed)
           Example.the_bridges Example.detoured "North" Example.north_detours).
  - vm_compute. reflexivity.
  - vm_compute. apply list_elem_of_here.
  - vm_compute. apply list_elem_of_here.
  - closed_Qc.
  - closed_Qc.
Defined.

(** C7: in every row of every detour table the job detour time
    [JOB_DET_TIME] is the detour time times the truck intensity of the row
    and the distance-weighted one [DISTW_JOB_DET_TIME] is the detour time
    times the distance-weighted intensity.  On the example, business 1 has
    truck intensity 10 and detour time 3 over bridge [B1], two miles away:
    with cutoff 1 and power 1 its job detour time is 30, its
    distance-weighted intensity 5 and its distance-weighted job detour
    time 15.  The rows of the example come from traversals.py read without
    the stray tokens of lines 125 and 208; the general statement is about
    detours.py as it stands, on any bridge tables. *)
Theorem C7_job_detour_times :
  (∀ (solve : string → Z → string → Detours.solution)
     (Bridges_by_Bus : list (string * list bridgeTable.row)) (brs : bridges.table)
     (out : Detours.output) (dest : string) (tbl : list bridgeTable.row)
     (r : bridgeTable.row) (t : Qc),
     Detours.run solve Bridges_by_Bus brs = Py.Val out →
     (dest, tbl) ∈ Detours.detours_tables out →
     r ∈ tbl →
     bridgeTable.DET_TIME r = Some t →
     (∀ ti, bridgeTable.Truck_Int r = Some ti →
            bridgeTable.JOB_DET_TIME r = Some (t * ti))
     ∧ (∀ dw, bridgeTable.Truck_Int_DW r = Some dw →
              bridgeTable.DISTW_JOB_DET_TIME r = Some (t * dw)))
  ∧ (Traversals.cutoff Traversals.default_settings = 1
     ∧ Traversals.power Traversals.default_settings = 1%Z
     ∧ bridgeTable.Truck_Int Example.detour_B1 = Some (Qc_of_Z 10)
     ∧ bridgeTable.DET_TIME Example.detour_B1 = Some (Qc_of_Z 3)
     ∧ bridgeTable.JOB_DET_TIME Example.detour_B1 = Some (Qc_of_Z 30)
     ∧ bridgeTable.BUS_TO_BRIDGE_MI Example.detour_B1 = Some (Qc_of_Z 2)
     ∧ bridgeTable.Truck_Int_DW Example.detour_B1 = Some (Qc_of_Z 5)
     ∧ bridgeTable.DISTW_JOB_DET_TIME Example.detour_B1 = Some (Qc_of_Z 15)).
Proof.
  split.
  - intros solve Bridges_by_Bus brs out dest tbl r t Hrun Hin Hr Ht.
    destruct (run_metrics _ _ _ _ _ _ _ Hrun Hin Hr) as (_ & Hjob & Hdw).
    split.
    + intros ti Hti. rewrite Hjob. unfold Detours.multExp. by rewrite Ht, Hti.
    + intros dw Hw. rewrite Hdw. unfold Detours.multExp_DW. by rewrite Ht, Hw.
  - split; [reflexivity|]. split; [reflexivity|].
    repeat split; closed_Qc.
Qed.

Lemma C7_witness :
  bridgeTable.JOB_DET_TIME Example.detour_B1 = Some (Qc_of_Z 3 * Qc_of_Z 10)
  ∧ bridgeTable.DISTW_JOB_DET_TIME Example.detour_B1 = Some (Qc_of_Z 3 * Qc_of_Z 5).
Proof.
  destruct C7_job_detour_times as [H _].
  destruct (H Example.solve (Traversals.Bridges_by_Bus Example.traversed)
              Example.the_bridges Example.detoured "North" Example.north_detours
              Example.detour_B1 (Qc_of_Z 3)) as [Hjob Hdw].
  - vm_compute. reflexivity.
  - vm_compute. apply list_elem_of_here.
  - vm_compute. apply list_elem_of_here.
  - closed_Qc.
  - split; [apply Hjob|apply Hdw]; closed_Qc.
Defined.

(** ** detours.py: the dictionary of businesses and bridges *)

Lemma elem_of_pairs (p : Z * string) (d : list (Z * list string)) :
  p ∈ Detours.pairs d ↔ ∃ e, e ∈ d ∧ p.1 = e.1 ∧ p.2 ∈ e.2.
Proof.
  unfold Detours.pairs. rewrite list_elem_of_bind. split.
  - intros (e & (g & -> & Hg)%list_elem_of_fmap & He). by exists e.
  - intros (e & He & H1 & H2). exists e. split; [|done].
    apply list_elem_of_fmap. exists p.2. split; [|done].
    destruct p as [b g]. simpl in *. by subst.
Qed.

Lemma busDict_add_covers (d : list (Z * list string)) (row : bridgeTable.row)
    (p : Z * string) :
  p ∈ Detours.pairs d
  ∨ p = (bridgeTable.Business_ID row, bridgeTable.BRDG_NBR row) →
  p ∈ Detours.pairs (Detours.busDict_add d row).
Proof.
  intros Hp. apply elem_of_pairs. unfold Detours.busDict_add.
  case_decide as Hin.
  - destruct Hp as [(e & He & H1 & H2)%elem_of_pairs| ->].
    + eexists. split; [apply list_elem_of_fmap; eexists; split; [reflexivity|exact He]|].
      case_decide; simpl; [|done]. split; [done|]. apply elem_of_app. by left.
    + apply list_elem_of_fmap in Hin as (e & Hb & He).
      eexists. split; [apply list_elem_of_fmap; eexists; split; [reflexivity|exact He]|].
      rewrite decide_True by done. simpl. split; [done|].
      apply elem_of_app. right. apply list_elem_of_here.
  - destruct Hp as [(e & He & H1 & H2)%elem_of_pairs| ->].
    + exists e. split; [|done]. apply elem_of_app. by left.
    + eexists. split; [apply elem_of_app; right; apply list_elem_of_here|].
      simpl. split; [done|]. apply list_elem_of_here.
Qed.

(** Every row of the table has its pair in the dictionary. *)
Lemma busDict_covers (tbl : list bridgeTable.row) (r : bridgeTable.row) :
  r ∈ tbl →
  (bridgeTable.Business_ID r, bridgeTable.BRDG_NBR r)
    ∈ Detours.pairs (Detours.busDict tbl).
Proof.
  unfold Detours.busDict.
  assert (∀ rows d p,
            p ∈ Detours.pairs d
            ∨ (∃ r, r ∈ rows
                    ∧ p = (bridgeTable.Business_ID r, bridgeTable.BRDG_NBR r)) →
            p ∈ Detours.pairs (foldl Detours.busDict_add d rows)) as Hfold.
  { induction rows as [|row rows IH]; intros d p; simpl.
    - intros [H|(r0 & H0 & _)]; [done|by apply elem_of_nil in H0].
    - intros [H|(r0 & H0 & ->)].
      + apply IH. left. apply busDict_add_covers. by left.
      + apply elem_of_cons in H0 as [->|H0].
        * apply IH. left. apply busDict_add_covers. by right.
        * apply IH. right. by exists r0. }
  intros Hr. apply Hfold. right. by exists r.
Qed.

(** ** detours.py: what the loops leave in the table *)

Section WriteBack.

Variable solve : string → Z → string → Detours.solution.
Variable dest : string.

(** A row whose solve found no route never holds a barred cost. *)
Lemma no_route_step st p st' :
  Detours.detour solve dest st p = Py.Val st' →
  (∀ r, r ∈ Detours.detours st →
        solve dest (bridgeTable.Business_ID r) (bridgeTable.BRDG_NBR r) = Detours.NoRoute →
        bridgeTable.No_Bridge_Time r = None) →
  (∀ r, r ∈ Detours.detours st' →
        solve dest (bridgeTable.Business_ID r) (bridgeTable.BRDG_NBR r) = Detours.NoRoute →
        bridgeTable.No_Bridge_Time r = None).
Proof.
  intros Hstep Hinv r' Hr' Hno.
  apply detour_Val in Hstep as [Hkey [[Hnil _]|(k & Hk & Htbl)]].
  { rewrite Hnil in Hr'. by apply elem_of_nil in Hr'. }
  rewrite Htbl in Hr'. apply list_elem_of_fmap in Hr' as (r & -> & Hr).
  unfold Detours.updateRow in *. case_decide as Hmatch; [|by apply Hinv].
  simpl in *. rewrite Hk in Hkey.
  destruct (solve dest p.1 p.2) as [i len shape| |] eqn:Hs; simpl in *; [|done|done].
  injection Hkey as ->. apply format_key_inj in Hmatch as [Hb Hg].
  rewrite Hb, Hg, Hs in Hno. discriminate.
Qed.

(** Rows with one key hold one barred cost. *)
Lemma same_key_step st p st' :
  Detours.detour solve dest st p = Py.Val st' →
  (∀ r1 r2, r1 ∈ Detours.detours st → r2 ∈ Detours.detours st →
            Detours.detKey r1 = Detours.detKey r2 →
            bridgeTable.No_Bridge_Time r1 = bridgeTable.No_Bridge_Time r2) →
  (∀ r1 r2, r1 ∈ Detours.detours st' → r2 ∈ Detours.detours st' →
            Detours.detKey r1 = Detours.detKey r2 →
            bridgeTable.No_Bridge_Time r1 = bridgeTable.No_Bridge_Time r2).
Proof.
  intros Hstep Hinv r1' r2' H1 H2.
  apply detour_Val in Hstep as [_ [[Hnil _]|(k & _ & Htbl)]].
  { rewrite Hnil in H1. by apply elem_of_nil in H1. }
  rewrite Htbl in H1, H2.
  apply list_elem_of_fmap in H1 as (r1 & -> & H1).
  apply list_elem_of_fmap in H2 as (r2 & -> & H2).
  rewrite !detKey_updateRow. intros Hkey.
  unfold Detours.updateRow. rewrite <- Hkey.
  case_decide; [done|]. by apply Hinv.
Qed.

(** Without an early exit from the [try] block the loop runs to its end
    and gives every row of a pair it meets what the solve of that pair
    gave; the other rows are left as they were. *)
Lemma detour_loop_written ps st :
  (∀ b g, solve dest b g ≠ Detours.Failed) →
  ∃ st' G,
    Detours.detour_loop solve dest st ps = Py.Val st'
    ∧ Detours.detours st' = G <$> Detours.detours st
    ∧ ∀ r,
        bridgeTable.Business_ID (G r) = bridgeTable.Business_ID r
        ∧ bridgeTable.BRDG_NBR (G r) = bridgeTable.BRDG_NBR r
        ∧ ((bridgeTable.Business_ID r, bridgeTable.BRDG_NBR r) ∈ ps →
           let rr := Detours.routeRow (bridgeTable.Business_ID r)
                       (solve dest (bridgeTable.Business_ID r) (bridgeTable.BRDG_NBR r)) in
           bridgeTable.No_Bridge_Time (G r) = rr.1.2
           ∧ bridgeTable.SHAPE (G r) = rr.2)
        ∧ ((bridgeTable.Business_ID r, bridgeTable.BRDG_NBR r) ∉ ps → G r = r).
Proof.
  intros Hok. revert st. induction ps as [|[b g] ps IH]; intros st.
  - exists st, id. simpl. split; [done|]. split; [by rewrite list_fmap_id|].
    intros r. split; [done|]. split; [done|]. split; [|done].
    intros H. by apply elem_of_nil in H.
  - cbn [Detours.detour_loop]. rewrite detour_solved by apply Hok.
    cbn [mbind Py.result_bind].
    destruct (IH {| Detours.key := Some (Detours.format_key b g);
                    Detours.detours :=
                      Detours.updateRow (Detours.format_key b g)
                        (Detours.routeRow b (solve dest b g)) <$> Detours.detours st |})
      as (st' & G & Hloop & Htbl & HG).
    simpl in Htbl.
    exists st', (G ∘ Detours.updateRow (Detours.format_key b g)
                      (Detours.routeRow b (solve dest b g))).
    split; [exact Hloop|]. split; [by rewrite list_fmap_compose|].
    intros r. simpl.
    set (u := Detours.updateRow (Detours.format_key b g)
                (Detours.routeRow b (solve dest b g)) r).
    assert (bridgeTable.Business_ID u = bridgeTable.Business_ID r
            ∧ bridgeTable.BRDG_NBR u = bridgeTable.BRDG_NBR r) as [Hub Hug].
    { unfold u, Detours.updateRow. by case_decide. }
    destruct (HG u) as (Hb & Hg & Hin & Hout).
    rewrite Hub in Hb. rewrite Hug in Hg. rewrite Hub, Hug in Hin, Hout.
    split; [done|]. split; [done|].
    destruct (decide ((bridgeTable.Business_ID r, bridgeTable.BRDG_NBR r) ∈ ps))
      as [Hps|Hps].
    + split; [intros _; by apply Hin|].
      intros Hnot. exfalso. apply Hnot. by apply list_elem_of_further.
    + rewrite (Hout Hps). split.
      * intros [Heq|Hfur]%elem_of_cons; [|done].
        injection Heq as Hb' Hg'. unfold u, Detours.updateRow.
        rewrite decide_True by (unfold Detours.detKey; by rewrite Hb', Hg').
        simpl. by rewrite Hb', Hg'.
      * intros Hnot%not_elem_of_cons. destruct Hnot as [Hne _].
        unfold u, Detours.updateRow. rewrite decide_False; [done|].
        intros [Hb' Hg']%format_key_inj. apply Hne. by rewrite Hb', Hg'.
Qed.

End WriteBack.

(** ** detours.py: one destination class, and all of them *)

Section Classes.

Variable solve : string → Z → string → Detours.solution.

(** Without an early exit from the [try] block a class is finished, and
    every row of its table holds what the solve of its own pair gave. *)
Lemma detours_of_written dest key0 tbl :
  (∀ b g, solve dest b g ≠ Detours.Failed) →
  ∃ st,
    Detours.detours_of solve dest key0 tbl = Py.Val st
    ∧ ∀ r, r ∈ Detours.detours st →
        let rr := Detours.routeRow (bridgeTable.Business_ID r)
                    (solve dest (bridgeTable.Business_ID r) (bridgeTable.BRDG_NBR r)) in
        bridgeTable.No_Bridge_Time r = rr.1.2 ∧ bridgeTable.SHAPE r = rr.2.
Proof.
  intros Hok. unfold Detours.detours_of.
  set (tbl0 := bridgeTable.set_No_Bridge_Time None <$> tbl).
  destruct (detour_loop_written solve dest (Detours.pairs (Detours.busDict tbl0))
              {| Detours.key := key0; Detours.detours := tbl0 |} Hok)
    as (st0 & G & -> & Htbl & HG).
  cbn [mbind Py.result_bind]. eexists. split; [reflexivity|].
  cbn [Detours.detours]. intros r' Hr'.
  apply detour_metrics_row in Hr' as [(r1 & Hr1 & Hb & Hg & Hn & _ & Hs) _].
  rewrite Htbl in Hr1. simpl in Hr1.
  apply list_elem_of_fmap in Hr1 as (r0 & -> & Hr0).
  destruct (HG r0) as (Hb0 & Hg0 & Hin & _).
  rewrite Hb, Hg, Hn, Hs, Hb0, Hg0. apply Hin. by apply busDict_covers.
Qed.

Lemma dest_loop_total tables key0 acc :
  (∀ dest b g, solve dest b g ≠ Detours.Failed) →
  ∃ out, Detours.dest_loop solve key0 acc tables = Py.Val out
         ∧ out.*1 = acc.*1 ++ tables.*1.
Proof.
  intros Hok. revert key0 acc.
  induction tables as [|[d t] tables IH]; intros key0 acc.
  - exists acc. simpl. by rewrite app_nil_r.
  - cbn [Detours.dest_loop].
    destruct (detours_of_written d key0 t (Hok d)) as (st & -> & _).
    cbn [mbind Py.result_bind].
    destruct (IH (Detours.key st) (acc ++ [(d, Detours.detours st)]))
      as (out & -> & Hout).
    exists out. split; [done|]. rewrite Hout, fmap_app. simpl.
    by rewrite <- app_assoc.
Qed.

Lemma run_total Bridges_by_Bus brs :
  Bridges_by_Bus ≠ [] →
  (∀ dest b g, solve dest b g ≠ Detours.Failed) →
  ∃ out, Detours.run solve Bridges_by_Bus brs = Py.Val out
         ∧ (Detours.detours_tables out).*1 = Bridges_by_Bus.*1.
Proof.
  intros Hne Hok.
  destruct (dest_loop_total Bridges_by_Bus None [] Hok) as (tables & Hloop & Hfst).
  eexists. split; [by apply run_of_loop|]. exact Hfst.
Qed.

End Classes.

(** ** Claims on the write-back of detours.py *)

(** C3: a row whose barred solve finds no route holds null in
    [No_Bridge_Time] when the script ends, and null in the three metrics
    calculated from it: no number stands in for the missing cost.  A solve
    without a route does not stop the script: with one destination class at
    least, when no solve leaves the [try] block early the script runs to its
    end, returns one detour table per bridge table, and the rows whose solve
    found a route hold the length of that route.  With no destination class
    the script does not end: the summary after the loop reads names that
    only the loop assigns. *)
Theorem C3_no_route_is_recorded_as_null
    (solve : string → Z → string → Detours.solution)
    (Bridges_by_Bus : list (string * list bridgeTable.row)) (brs : bridges.table) :
  (∀ out dest tbl r,
     Detours.run solve Bridges_by_Bus brs = Py.Val out →
     (dest, tbl) ∈ Detours.detours_tables out →
     r ∈ tbl →
     solve dest (bridgeTable.Business_ID r) (bridgeTable.BRDG_NBR r) = Detours.NoRoute →
     bridgeTable.No_Bridge_Time r = None
     ∧ bridgeTable.DET_TIME r = None
     ∧ bridgeTable.JOB_DET_TIME r = None
     ∧ bridgeTable.DISTW_JOB_DET_TIME r = None)
  ∧ (Bridges_by_Bus ≠ [] →
     (∀ dest b g, solve dest b g ≠ Detours.Failed) →
     ∃ out,
       Detours.run solve Bridges_by_Bus brs = Py.Val out
       ∧ (Detours.detours_tables out).*1 = Bridges_by_Bus.*1
       ∧ ∀ dest tbl r i len shape,
           (dest, tbl) ∈ Detours.detours_tables out →
           r ∈ tbl →
           solve dest (bridgeTable.Business_ID r) (bridgeTable.BRDG_NBR r)
           = Detours.Route i len shape →
           bridgeTable.No_Bridge_Time r = len)
  ∧ Detours.run solve [] brs = Py.Raise Py.NameError.
Proof.
  split; [|split; [|reflexivity]].
  - intros out dest tbl' r' Hrun Hin Hr' Hno.
    destruct (run_metrics _ _ _ _ _ _ _ Hrun Hin Hr') as (Hdet & Hjob & Hdw).
    destruct (run_tables _ _ _ _ _ _ Hrun Hin) as (k & tbl & st & _ & Hof & ->).
    apply detours_of_Val in Hof as (st0 & Hloop & _ & Hst). rewrite Hst in Hr'.
    apply detour_metrics_row in Hr' as [(r1 & Hr1 & Hb & Hg & Hn & _) _].
    assert (bridgeTable.No_Bridge_Time r' = None) as Hnull.
    { rewrite Hn.
      apply (detour_loop_invariant solve
               (λ t, ∀ r, r ∈ t →
                  solve dest (bridgeTable.Business_ID r) (bridgeTable.BRDG_NBR r)
                  = Detours.NoRoute →
                  bridgeTable.No_Bridge_Time r = None)
               dest (no_route_step solve dest) _ _ _ Hloop); [|done|by rewrite <- Hb, <- Hg].
      simpl. intros r (r0 & -> & _)%list_elem_of_fmap _. reflexivity. }
    assert (bridgeTable.DET_TIME r' = None) as Hdnull.
    { rewrite Hdet. unfold Detours.subtractExp. by rewrite Hnull. }
    split; [done|]. split; [done|]. split.
    + rewrite Hjob. unfold Detours.multExp. by rewrite Hdnull.
    + rewrite Hdw. unfold Detours.multExp_DW. by rewrite Hdnull.
  - intros Hne Hok.
    destruct (run_total solve Bridges_by_Bus brs Hne Hok) as (out & Hrun & Hfst).
    exists out. split; [done|]. split; [done|].
    intros dest tbl' r i len shape Hin Hr Hs.
    destruct (run_tables _ _ _ _ _ _ Hrun Hin) as (k & tbl & st & _ & Hof & ->).
    destruct (detours_of_written solve dest k tbl (Hok dest)) as (st2 & Hof2 & Hw).
    rewrite Hof in Hof2. injection Hof2 as <-.
    destruct (Hw r Hr) as [Hn _]. rewrite Hn, Hs. reflexivity.
Qed.

Lemma C3_witness :
  bridgeTable.No_Bridge_Time Example.detour_B3 = None
  ∧ bridgeTable.DET_TIME Example.detour_B3 = None
  ∧ bridgeTable.JOB_DET_TIME Example.detour_B3 = None
  ∧ bridgeTable.DISTW_JOB_DET_TIME Example.detour_B3 = None.
Proof.
  destruct (C3_no_route_is_recorded_as_null
              Example.solve (Traversals.Bridges_by_Bus Example.traversed)
              Example.the_bridges) as [H _].
  apply (H Example.detoured "North" Example.north_detours Example.detour_B3).
  - vm_compute. reflexivity.
  - vm_compute. apply list_elem_of_here.
  - vm_compute. apply list_elem_of_further, list_elem_of_here.
  - vm_compute. reflexivity.
Defined.

(** C9: a solve that is read back to the end of the [try] block is
    written to the detour table by the key ["business,bridge"]: after the
    turn every row with the key of the solved pair holds the [Total_Length]
    and the shape of the route of that solve, or null in both when the solve
    found no route, and every other row is as before.  Two rows have one key
    exactly when they have one business and one bridge, rows with one key
    hold one barred cost when a class is finished, and, when no solve leaves
    the [try] block early, every row of a finished class holds the
    [Total_Length] and the shape of the route of the solve of its own pair,
    or null in both when that solve found no route. *)
Theorem C9_written_back_by_key
    (solve : string → Z → string → Detours.solution) (dest : string) :
  (∀ st b g,
     solve dest b g ≠ Detours.Failed →
     ∃ st',
       Detours.detour solve dest st (b, g) = Py.Val st'
       ∧ Detours.key st' = Some (Detours.format_key b g)
       ∧ ∀ (i : nat) r,
           Detours.detours st !! i = Some r →
           ∃ r', Detours.detours st' !! i = Some r'
                 ∧ Detours.detKey r' = Detours.detKey r
                 ∧ (∀ IncidentID Total_Length SHAPE,
                      solve dest b g = Detours.Route IncidentID Total_Length SHAPE →
                      Detours.detKey r = Detours.format_key b g →
                      bridgeTable.No_Bridge_Time r' = Total_Length
                      ∧ bridgeTable.SHAPE r' = SHAPE)
                 ∧ (solve dest b g = Detours.NoRoute →
                    Detours.detKey r = Detours.format_key b g →
                    bridgeTable.No_Bridge_Time r' = None
                    ∧ bridgeTable.SHAPE r' = None)
                 ∧ (Detours.detKey r ≠ Detours.format_key b g → r' = r))
  ∧ (∀ r1 r2,
       Detours.detKey r1 = Detours.detKey r2
       ↔ bridgeTable.Business_ID r1 = bridgeTable.Business_ID r2
         ∧ bridgeTable.BRDG_NBR r1 = bridgeTable.BRDG_NBR r2)
  ∧ (∀ key0 tbl st r1 r2,
       Detours.detours_of solve dest key0 tbl = Py.Val st →
       r1 ∈ Detours.detours st → r2 ∈ Detours.detours st →
       Detours.detKey r1 = Detours.detKey r2 →
       bridgeTable.No_Bridge_Time r1 = bridgeTable.No_Bridge_Time r2)
  ∧ ((∀ b g, solve dest b g ≠ Detours.Failed) →
     ∀ key0 tbl,
     ∃ st,
       Detours.detours_of solve dest key0 tbl = Py.Val st
       ∧ ∀ r, r ∈ Detours.detours st →
           (∀ IncidentID Total_Length SHAPE,
              solve dest (bridgeTable.Business_ID r) (bridgeTable.BRDG_NBR r)
              = Detours.Route IncidentID Total_Length SHAPE →
              bridgeTable.No_Bridge_Time r = Total_Length
              ∧ bridgeTable.SHAPE r = SHAPE)
           ∧ (solve dest (bridgeTable.Business_ID r) (bridgeTable.BRDG_NBR r)
              = Detours.NoRoute →
              bridgeTable.No_Bridge_Time r = None ∧ bridgeTable.SHAPE r = None)).
Proof.
  split; [|split; [|split]].
  - intros st b g Hs. eexists. split; [by apply detour_solved|].
    split; [reflexivity|]. cbn [Detours.detours].
    intros i r Hi. rewrite list_lookup_fmap, Hi. simpl.
    eexists. split; [reflexivity|]. split; [apply detKey_updateRow|].
    unfold Detours.updateRow. split; [|split].
    + intros IncidentID Total_Length SHAPE Hroute Hk.
      rewrite decide_True by done. by rewrite Hroute.
    + intros Hno Hk. rewrite decide_True by done. by rewrite Hno.
    + intros Hk. by rewrite decide_False.
  - intros r1 r2. unfold Detours.detKey. split.
    + apply format_key_inj.
    + by intros [-> ->].
  - intros key0 tbl st r1 r2 Hof H1 H2 Hkey.
    apply detours_of_Val in Hof as (st0 & Hloop & _ & Hst). rewrite Hst in H1, H2.
    apply detour_metrics_row in H1 as [(a1 & Ha1 & Hb1 & Hg1 & -> & _) _].
    apply detour_metrics_row in H2 as [(a2 & Ha2 & Hb2 & Hg2 & -> & _) _].
    apply (detour_loop_invariant solve
             (λ t, ∀ x y, x ∈ t → y ∈ t → Detours.detKey x = Detours.detKey y →
                          bridgeTable.No_Bridge_Time x = bridgeTable.No_Bridge_Time y)
             dest (same_key_step solve dest) _ _ _ Hloop); [|done|done|].
    + simpl. intros x y (x0 & -> & _)%list_elem_of_fmap (y0 & -> & _)%list_elem_of_fmap _.
      reflexivity.
    + unfold Detours.detKey in *. by rewrite <- Hb1, <- Hg1, <- Hb2, <- Hg2.
  - intros Hok key0 tbl.
    destruct (detours_of_written solve dest key0 tbl Hok) as (st & Hof & Hw).
    exists st. split; [done|]. intros r Hr. destruct (Hw r Hr) as [Hn Hsh]. split.
    + intros IncidentID Total_Length SHAPE Hroute. by rewrite Hn, Hsh, Hroute.
    + intros Hno. by rewrite Hn, Hsh, Hno.
Qed.

Lemma C9_witness :
  ∃ st' r',
    Detours.detour Example.solve "North"
      {| Detours.key := None;
         Detours.detours := bridgeTable.set_No_Bridge_Time None <$> Example.north_table |}
      (1%Z, "B1") = Py.Val st'
    ∧ Detours.key st' = Some (Detours.format_key 1 "B1")
    ∧ Detours.detours st' !! 0%nat = Some r'
    ∧ bridgeTable.No_Bridge_Time r' = Some (Example.q 5)
    ∧ bridgeTable.SHAPE r' = Some Example.detour_route.
Proof.
  destruct (C9_written_back_by_key Example.solve "North") as [H _].
  destruct (H {| Detours.key := None;
                 Detours.detours :=
                   bridgeTable.set_No_Bridge_Time None <$> Example.north_table |}
              1%Z "B1") as (st' & Hstep & Hkey & Hrows).
  - vm_compute. discriminate.
  - destruct (Hrows 0%nat (bridgeTable.set_No_Bridge_Time None Example.crossing_B1))
      as (r' & Hr' & _ & Hroute & _).
    + vm_compute. reflexivity.
    + exists st', r'. split; [exact Hstep|]. split; [exact Hkey|]. split; [exact Hr'|].
      apply (Hroute 1%Z (Some (Example.q 5)) (Some Example.detour_route)).
      * vm_compute. reflexivity.
      * vm_compute. reflexivity.
Defined.

(** ** The wild cards of the field lists *)

Lemma wild_star_nil (p : string) :
  Arc.wild (String "*" p) "" = Arc.wild p "".
Proof. simpl. by rewrite orb_false_r. Qed.

Lemma wild_star_cons (p : string) (c : ascii) (s : string) :
  Arc.wild (String "*" p) (String c s)
  = Arc.wild p (String c s) || Arc.wild (String "*" p) s.
Proof. reflexivity. Qed.

Lemma wild_char_cons (c d : ascii) (p s : string) :
  c ≠ "*"%char →
  Arc.wild (String c p) (String d s) = bool_decide (c = d) && Arc.wild p s.
Proof. intros Hc. simpl. by rewrite decide_False. Qed.

Lemma wild_char_nil (c : ascii) (p : string) :
  c ≠ "*"%char → Arc.wild (String c p) "" = false.
Proof. intros Hc. simpl. by rewrite decide_False. Qed.

(** A leading star: some tail of the name matches the rest. *)
Lemma wild_star_iff (p s : string) :
  Arc.wild (String "*" p) s = true ↔ ∃ a b, s = a +:+ b ∧ Arc.wild p b = true.
Proof.
  induction s as [|c s IH].
  - rewrite wild_star_nil. split.
    + intros H. by exists "", "".
    + intros (a & b & Heq & H). destruct a; [|discriminate].
      change ("" = b) in Heq. by subst.
  - rewrite wild_star_cons, orb_true_iff, IH. split.
    + intros [H|(a & b & -> & H)].
      * by exists "", (String c s).
      * by exists (String c a), b.
    + intros (a & b & Heq & H). destruct a as [|c' a].
      * change (String c s = b) in Heq. subst. by left.
      * injection Heq as -> ->. right. by exists a, b.
Qed.

(** A literal head: the name starts with it, and the rest matches. *)
Lemma wild_literal_iff (lit p s : string) :
  Forall (λ c, c ≠ "*"%char) (list_ascii_of_string lit) →
  Arc.wild (lit +:+ p) s = true ↔ ∃ s', s = lit +:+ s' ∧ Arc.wild p s' = true.
Proof.
  revert s. induction lit as [|c lit IH]; intros s Hlit.
  - split; [intros H; by exists s|by intros (s' & -> & H)].
  - simpl in Hlit. apply Forall_cons in Hlit as [Hc Hlit].
    change (String c lit +:+ p) with (String c (lit +:+ p)).
    destruct s as [|d s].
    + rewrite wild_char_nil by done. split; [done|]. by intros (s' & Heq & _).
    + rewrite wild_char_cons by done. rewrite andb_true_iff, bool_decide_eq_true, IH by done.
      split.
      * intros [-> (s' & -> & H)]. by exists s'.
      * intros (s' & Heq & H). injection Heq as -> ->. split; [done|]. by exists s'.
Qed.

Lemma wild_any (s : string) : Arc.wild "*" s = true.
Proof.
  apply wild_star_iff. exists s, "". split; [|done].
  induction s as [|c s IH]; [done|]. change (String c s +:+ "") with (String c (s +:+ "")).
  by rewrite <- IH.
Qed.

Lemma wild_empty (s : string) : Arc.wild "" s = true ↔ s = "".
Proof. simpl. by rewrite bool_decide_eq_true. Qed.

(** ["*lit*"]: the name has [lit] in it. *)
Lemma wild_contains (lit s : string) :
  Forall (λ c, c ≠ "*"%char) (list_ascii_of_string lit) →
  Arc.wild (String "*" (lit +:+ "*")) s = true ↔ ∃ a b, s = a +:+ lit +:+ b.
Proof.
  intros Hlit. rewrite wild_star_iff. split.
  - intros (a & b & -> & (s' & -> & _)%wild_literal_iff); [|done]. by exists a, s'.
  - intros (a & b & ->). exists a, (lit +:+ b). split; [done|].
    apply wild_literal_iff; [done|]. exists b. split; [done|apply wild_any].
Qed.

(** ["*lit"]: the name ends with [lit]. *)
Lemma wild_ends (lit s : string) :
  Forall (λ c, c ≠ "*"%char) (list_ascii_of_string lit) →
  Arc.wild (String "*" (lit +:+ "")) s = true ↔ ∃ a, s = a +:+ lit +:+ "".
Proof.
  intros Hlit. rewrite wild_star_iff. split.
  - intros (a & b & -> & (s' & -> & ->%wild_empty)%wild_literal_iff); [|done]. by exists a.
  - intros (a & ->). exists a, (lit +:+ ""). split; [done|].
    apply wild_literal_iff; [done|]. exists "". split; [done|]. by apply wild_empty.
Qed.

Lemma literal_TRAV :
  Forall (λ c, c ≠ "*"%char) (list_ascii_of_string "_TRAV_")
  ∧ Forall (λ c, c ≠ "*"%char) (list_ascii_of_string "_TRAV_BUS")
  ∧ Forall (λ c, c ≠ "*"%char) (list_ascii_of_string "_TRAV_JOB")
  ∧ Forall (λ c, c ≠ "*"%char) (list_ascii_of_string "_TRAV_JOB_DISTW").
Proof. repeat split; simpl; repeat (apply Forall_cons; split; [discriminate|]); apply Forall_nil_2. Qed.

Lemma wild_TRAV (s : string) :
  Arc.wild "*_TRAV_*" s = true ↔ ∃ a b, s = a +:+ "_TRAV_" +:+ b.
Proof. apply (wild_contains "_TRAV_"), literal_TRAV. Qed.

Lemma wild_TRAV_BUS (s : string) :
  Arc.wild "*_TRAV_BUS*" s = true ↔ ∃ a b, s = a +:+ "_TRAV_BUS" +:+ b.
Proof. apply (wild_contains "_TRAV_BUS"), literal_TRAV. Qed.

Lemma wild_TRAV_JOB (s : string) :
  Arc.wild "*_TRAV_JOB" s = true ↔ ∃ a, s = a +:+ "_TRAV_JOB".
Proof. apply (wild_ends "_TRAV_JOB"), literal_TRAV. Qed.

Lemma wild_TRAV_JOB_DISTW (s : string) :
  Arc.wild "*_TRAV_JOB_DISTW" s = true ↔ ∃ a, s = a +:+ "_TRAV_JOB_DISTW".
Proof. apply (wild_ends "_TRAV_JOB_DISTW"), literal_TRAV. Qed.

(** ** The names of the joined fields *)

Lemma list_ascii_of_string_app (a b : string) :
  list_ascii_of_string (a +:+ b) = list_ascii_of_string a ++ list_ascii_of_string b.
Proof.
  induction a as [|c a IH]; [done|].
  change (String c a +:+ b) with (String c (a +:+ b)). simpl. by rewrite IH.
Qed.

Lemma last_of_app (l1 l2 : list ascii) (d : ascii) :
  l2 ≠ [] → List.last (l1 ++ l2) d = List.last l2 d.
Proof.
  intros Hl2. induction l1 as [|c l1 IH]; [done|].
  simpl. rewrite IH. destruct (l1 ++ l2) eqn:Happ; [|done].
  apply app_eq_nil in Happ as [_ ?]. contradiction.
Qed.

(** Two names that are equal end with the same character. *)
Lemma ends_last (a d x y : string) :
  x ≠ "" → y ≠ "" → a +:+ x = d +:+ y →
  List.last (list_ascii_of_string x) "*"%char
  = List.last (list_ascii_of_string y) "*"%char.
Proof.
  intros Hx Hy Heq.
  apply (f_equal (λ s, List.last (list_ascii_of_string s) "*"%char)) in Heq.
  rewrite !list_ascii_of_string_app in Heq.
  rewrite !last_of_app in Heq; [done|..].
  - by destruct y.
  - by destruct x.
Qed.

Lemma wild_TRAV_of_BUS (f : string) :
  Arc.wild "*_TRAV_BUS*" f = true → Arc.wild "*_TRAV_*" f = true.
Proof.
  intros (a & b & ->)%wild_TRAV_BUS. apply wild_TRAV. by exists a, ("BUS" +:+ b).
Qed.

Lemma wild_TRAV_of_JOB (f : string) :
  Arc.wild "*_TRAV_JOB" f = true → Arc.wild "*_TRAV_*" f = true.
Proof.
  intros (a & ->)%wild_TRAV_JOB. apply wild_TRAV. by exists a, "JOB".
Qed.

Lemma wild_TRAV_of_JOB_DISTW (f : string) :
  Arc.wild "*_TRAV_JOB_DISTW" f = true → Arc.wild "*_TRAV_*" f = true.
Proof.
  intros (a & ->)%wild_TRAV_JOB_DISTW. apply wild_TRAV. by exists a, "JOB_DISTW".
Qed.

(** The three fields of a class are listed by ["*_TRAV_*"], and each by
    its own wild card. *)
Lemma wild_TRAV_fields (dest : string) :
  Arc.wild "*_TRAV_*" (Traversals.freqField dest) = true
  ∧ Arc.wild "*_TRAV_*" (Traversals.jobFreqField dest) = true
  ∧ Arc.wild "*_TRAV_*" (Traversals.jobDWFreqField dest) = true.
Proof.
  split; [|split]; apply wild_TRAV.
  - by exists dest, "BUS".
  - by exists dest, "JOB".
  - by exists dest, "JOB_DISTW".
Qed.

Lemma wild_own_field (dest : string) :
  Arc.wild "*_TRAV_BUS*" (Traversals.freqField dest) = true
  ∧ Arc.wild "*_TRAV_JOB" (Traversals.jobFreqField dest) = true
  ∧ Arc.wild "*_TRAV_JOB_DISTW" (Traversals.jobDWFreqField dest) = true.
Proof.
  split; [|split].
  - apply wild_TRAV_BUS. by exists dest, "".
  - apply wild_TRAV_JOB. by exists dest.
  - apply wild_TRAV_JOB_DISTW. by exists dest.
Qed.

(** The wild cards of the two sums that end a name list no field of
    another kind. *)
Lemma wild_other_field (dest : string) :
  Arc.wild "*_TRAV_JOB" (Traversals.freqField dest) = false
  ∧ Arc.wild "*_TRAV_JOB" (Traversals.jobDWFreqField dest) = false
  ∧ Arc.wild "*_TRAV_JOB_DISTW" (Traversals.freqField dest) = false
  ∧ Arc.wild "*_TRAV_JOB_DISTW" (Traversals.jobFreqField dest) = false.
Proof.
  repeat split; apply not_true_is_false.
  - intros (a & Heq)%wild_TRAV_JOB.
    apply (ends_last dest a "_TRAV_BUS" "_TRAV_JOB") in Heq; [|done..]. discriminate.
  - intros (a & Heq)%wild_TRAV_JOB.
    apply (ends_last dest a "_TRAV_JOB_DISTW" "_TRAV_JOB") in Heq; [|done..]. discriminate.
  - intros (a & Heq)%wild_TRAV_JOB_DISTW.
    apply (ends_last dest a "_TRAV_BUS" "_TRAV_JOB_DISTW") in Heq; [|done..]. discriminate.
  - intros (a & Heq)%wild_TRAV_JOB_DISTW.
    apply (ends_last dest a "_TRAV_JOB" "_TRAV_JOB_DISTW") in Heq; [|done..]. discriminate.
Qed.

(** A name that starts [_TRAV_BUS] once one of the two other endings is
    put behind [d] has [_TRAV_] inside [d]. *)
Lemma overlap_JOB (d s' : string) :
  d +:+ "_TRAV_JOB" = "_TRAV_BUS" +:+ s' → ∃ t, d = "_TRAV_" +:+ t.
Proof.
  intros H.
  do 6 (destruct d as [|? d]; [discriminate H|injection H as -> H]).
  by exists d.
Qed.

Lemma overlap_JOB_DISTW (d s' : string) :
  d +:+ "_TRAV_JOB_DISTW" = "_TRAV_BUS" +:+ s' → ∃ t, d = "_TRAV_" +:+ t.
Proof.
  intros H.
  do 6 (destruct d as [|? d]; [discriminate H|injection H as -> H]).
  by exists d.
Qed.

(** When [d] has no [_TRAV_] in it, neither has [d] with one of the two
    other endings behind it a [_TRAV_BUS]. *)
Lemma wild_BUS_behind (x : string) :
  Arc.wild "*_TRAV_BUS*" x = false →
  (∀ d s', d +:+ x = "_TRAV_BUS" +:+ s' → ∃ t, d = "_TRAV_" +:+ t) →
  ∀ d, Arc.wild "*_TRAV_*" d = false → Arc.wild "*_TRAV_BUS*" (d +:+ x) = false.
Proof.
  intros Hx Hover d. induction d as [|c d IH]; intros Hany; [exact Hx|].
  change (String c d +:+ x) with (String c (d +:+ x)).
  rewrite wild_star_cons in Hany |- *.
  apply orb_false_iff in Hany as [Hhead Htail].
  apply orb_false_iff. split; [|by apply IH].
  apply not_true_is_false. intros Hpre.
  apply (wild_literal_iff "_TRAV_BUS" "*") in Hpre as (s' & Heq & _);
    [|apply literal_TRAV].
  destruct (Hover (String c d) s' Heq) as (t & Ht).
  rewrite Ht in Hhead.
  assert (Arc.wild "_TRAV_*" ("_TRAV_" +:+ t) = true) as Hyes.
  { apply (wild_literal_iff "_TRAV_" "*"); [apply literal_TRAV|].
    exists t. split; [done|apply wild_any]. }
  congruence.
Qed.

(** When the name of a class has no [_TRAV_] in it, ["*_TRAV_BUS*"] lists
    neither its job field nor its distance-weighted field. *)
Lemma wild_BUS_other_field (dest : string) :
  Arc.wild "*_TRAV_*" dest = false →
  Arc.wild "*_TRAV_BUS*" (Traversals.jobFreqField dest) = false
  ∧ Arc.wild "*_TRAV_BUS*" (Traversals.jobDWFreqField dest) = false.
Proof.
  intros Hd. split.
  - apply (wild_BUS_behind "_TRAV_JOB"); [reflexivity|apply overlap_JOB|exact Hd].
  - apply (wild_BUS_behind "_TRAV_JOB_DISTW"); [reflexivity|apply overlap_JOB_DISTW|exact Hd].
Qed.

(** ** The bridges table: fields of a row *)

Lemma get_set (f g : string) (v : Py.value) (r : bridges.row) :
  bridges.get g (bridges.set f v r) = if decide (f = g) then v else bridges.get g r.
Proof. unfold bridges.get, bridges.set. simpl. apply lookup_partial_alter. Qed.

Lemma get_set_eq (f : string) (v : Py.value) (r : bridges.row) :
  bridges.get f (bridges.set f v r) = v.
Proof. rewrite get_set. by rewrite decide_True. Qed.

Lemma get_set_ne (f g : string) (v : Py.value) (r : bridges.row) :
  f ≠ g → bridges.get g (bridges.set f v r) = bridges.get g r.
Proof. intros Hne. rewrite get_set. by rewrite decide_False. Qed.

(** The fields of a class end in [S], [B] or [W], the three sum fields in
    [M]: no field of a class is a sum field. *)
Lemma class_field_not_sum (dest f name : string) :
  f ∈ [Traversals.freqField dest; Traversals.jobFreqField dest;
       Traversals.jobDWFreqField dest] →
  name ∈ ["BUS_TRAV_SUM"; "JOB_TRAV_SUM"; "DISTW_JOB_TRAV_SUM"] →
  name ≠ f.
Proof.
  intros Hf Hname Heq. subst f.
  repeat (apply elem_of_cons in Hname as [->|Hname]);
    [..|by apply elem_of_nil in Hname];
    repeat (apply elem_of_cons in Hf as [Hf|Hf]);
    try (by apply elem_of_nil in Hf);
    symmetry in Hf;
    match type of Hf with
    | Traversals.freqField _ = ?n =>
        apply (ends_last dest "" "_TRAV_BUS" n) in Hf; [discriminate Hf|done..]
    | Traversals.jobFreqField _ = ?n =>
        apply (ends_last dest "" "_TRAV_JOB" n) in Hf; [discriminate Hf|done..]
    | Traversals.jobDWFreqField _ = ?n =>
        apply (ends_last dest "" "_TRAV_JOB_DISTW" n) in Hf; [discriminate Hf|done..]
    end.
Qed.

(** ** The bridges table after the loop over the classes *)

Section Joined.

Variable freqTable : string → list Traversals.freq_row.

Lemma JoinField_freq_fold (dests : list string) (t : bridges.table) :
  foldl (λ t dest, Traversals.JoinField_freq dest (freqTable dest) t) t dests
  = {| bridges.schema :=
         bridges.schema t
         ++ (dests ≫= λ dest,
               [Traversals.freqField dest; Traversals.jobFreqField dest;
                Traversals.jobDWFreqField dest]);
       bridges.rows :=
         (λ b, foldl (λ b dest, Traversals.join_freq dest (freqTable dest) b) b dests)
         <$> bridges.rows t |}.
Proof.
  revert t. induction dests as [|dest dests IH]; intros t.
  - simpl. rewrite app_nil_r, list_fmap_id. by destruct t.
  - cbn [foldl]. rewrite IH. unfold Traversals.JoinField_freq at 1 2. simpl.
    f_equal.
    + by rewrite <- app_assoc.
    + by rewrite <- list_fmap_compose.
Qed.

Lemma join_freq_BRDG_NBR dest (b : bridges.row) :
  bridges.BRDG_NBR (Traversals.join_freq dest (freqTable dest) b) = bridges.BRDG_NBR b.
Proof. unfold Traversals.join_freq. by case_match. Qed.

Lemma join_freq_fold_BRDG_NBR (dests : list string) (b : bridges.row) :
  bridges.BRDG_NBR
    (foldl (λ b dest, Traversals.join_freq dest (freqTable dest) b) b dests)
  = bridges.BRDG_NBR b.
Proof.
  revert b. induction dests as [|dest dests IH]; intros b; [done|].
  simpl. by rewrite IH, join_freq_BRDG_NBR.
Qed.

(** A bridge that no frequency table names has null in the three fields of
    every class. *)
Lemma join_freq_fold_absent (dests : list string) (b : bridges.row) :
  (∀ dest, dest ∈ dests →
     Arc.first_match Traversals.freq_BRDG_NBR (bridges.BRDG_NBR b) (freqTable dest) = None) →
  ∀ dest, dest ∈ dests →
    let b' := foldl (λ b dest, Traversals.join_freq dest (freqTable dest) b) b dests in
    bridges.get (Traversals.freqField dest) b' = None
    ∧ bridges.get (Traversals.jobFreqField dest) b' = None
    ∧ bridges.get (Traversals.jobDWFreqField dest) b' = None.
Proof.
  intros Habs.
  assert (∀ ds b0 (P : string → Prop),
            (∀ d, d ∈ ds →
               Arc.first_match Traversals.freq_BRDG_NBR (bridges.BRDG_NBR b0) (freqTable d)
               = None) →
            (∀ f, P f → bridges.get f b0 = None) →
            ∀ f, (P f ∨ ∃ d, d ∈ ds ∧ (f = Traversals.freqField d
                                       ∨ f = Traversals.jobFreqField d
                                       ∨ f = Traversals.jobDWFreqField d)) →
                 bridges.get f
                   (foldl (λ b dest, Traversals.join_freq dest (freqTable dest) b) b0 ds)
                 = None) as Hgen.
  { induction ds as [|d ds IH]; intros b0 P Hnone HP f Hf.
    - destruct Hf as [Hf|(d & Hd & _)]; [by apply HP|by apply elem_of_nil in Hd].
    - cbn [foldl].
      apply (IH _ (λ f, P f ∨ f = Traversals.freqField d
                        ∨ f = Traversals.jobFreqField d
                        ∨ f = Traversals.jobDWFreqField d)).
      + intros d' Hd'. rewrite join_freq_BRDG_NBR. apply Hnone. by apply list_elem_of_further.
      + intros g Hg. unfold Traversals.join_freq.
        rewrite (Hnone d) by apply list_elem_of_here.
        rewrite !get_set. repeat case_decide; try done.
        destruct Hg as [Hg | [-> | [-> | ->]]]; [by apply HP|done..].
      + destruct Hf as [Hf|(d' & Hd' & Hf)]; [left; by left|].
        apply elem_of_cons in Hd' as [->|Hd'].
        * left. by right.
        * right. by exists d'. }
  intros dest Hdest. simpl.
  repeat split; apply (Hgen dests b (λ _, False)); try done;
    right; exists dest; split; auto.
Qed.

End Joined.

(** ** The field lists of the null replacement and of the sums *)

Lemma ListFields_none (wild_card : string) (l : list string) :
  (∀ f, f ∈ l → Arc.wild wild_card f = false) → Arc.ListFields l wild_card = [].
Proof.
  unfold Arc.ListFields. induction l as [|f l IH]; intros Hl; [done|].
  rewrite filter_cons_False.
  - apply IH. intros g Hg. apply Hl. by apply list_elem_of_further.
  - rewrite (Hl f) by apply list_elem_of_here. discriminate.
Qed.

Lemma ListFields_app (wild_card : string) (l1 l2 : list string) :
  Arc.ListFields (l1 ++ l2) wild_card
  = Arc.ListFields l1 wild_card ++ Arc.ListFields l2 wild_card.
Proof. apply filter_app. Qed.

Lemma elem_of_ListFields (wild_card f : string) (l : list string) :
  f ∈ Arc.ListFields l wild_card ↔ Arc.wild wild_card f = true ∧ f ∈ l.
Proof. unfold Arc.ListFields. by rewrite list_elem_of_filter. Qed.

(** Among the fields of the classes, each of the three wild cards of the
    sums lists the fields of its own kind, one per class, in the order of the
    classes. *)
Lemma ListFields_classes (dests : list string) :
  let fields :=
    dests ≫= λ dest, [Traversals.freqField dest; Traversals.jobFreqField dest;
                      Traversals.jobDWFreqField dest] in
  ((∀ dest, dest ∈ dests → Arc.wild "*_TRAV_*" dest = false) →
   Arc.ListFields fields "*_TRAV_BUS*" = Traversals.freqField <$> dests)
  ∧ Arc.ListFields fields "*_TRAV_JOB" = Traversals.jobFreqField <$> dests
  ∧ Arc.ListFields fields "*_TRAV_JOB_DISTW" = Traversals.jobDWFreqField <$> dests.
Proof.
  simpl. induction dests as [|d dests (IH1 & IH2 & IH3)]; [done|].
  change ((d :: dests) ≫= λ dest, [Traversals.freqField dest; Traversals.jobFreqField dest;
                                   Traversals.jobDWFreqField dest])
    with ([Traversals.freqField d; Traversals.jobFreqField d; Traversals.jobDWFreqField d]
          ++ (dests ≫= λ dest, [Traversals.freqField dest; Traversals.jobFreqField dest;
                                Traversals.jobDWFreqField dest])).
  destruct (wild_own_field d) as (Ho1 & Ho2 & Ho3).
  destruct (wild_other_field d) as (Hn1 & Hn2 & Hn3 & Hn4).
  rewrite !fmap_cons, !ListFields_app, IH2, IH3.
  split; [|split].
  - intros Hd. rewrite IH1 by (intros; apply Hd; by apply list_elem_of_further).
    destruct (wild_BUS_other_field d (Hd d (list_elem_of_here _ _))) as [Hb1 Hb2].
    unfold Arc.ListFields.
    rewrite filter_cons_True by done.
    rewrite filter_cons_False by (rewrite Hb1; discriminate).
    rewrite filter_cons_False by (rewrite Hb2; discriminate).
    reflexivity.
  - unfold Arc.ListFields.
    rewrite filter_cons_False by (rewrite Hn1; discriminate).
    rewrite filter_cons_True by done.
    rewrite filter_cons_False by (rewrite Hn2; discriminate).
    reflexivity.
  - unfold Arc.ListFields.
    rewrite filter_cons_False by (rewrite Hn3; discriminate).
    rewrite filter_cons_False by (rewrite Hn4; discriminate).
    rewrite filter_cons_True by done.
    reflexivity.
Qed.

(** ** The null replacement *)

Lemma replace_nulls_fold (fields : list string) (t : bridges.table) :
  foldl (λ t field,
           bridges.CalculateField field
             (λ r, Py.Val (Traversals.zeroNulls (bridges.get field r))) t)
        t fields
  = {| bridges.schema := bridges.schema t;
       bridges.rows :=
         (λ r, foldl (λ r field,
                        bridges.set field (Traversals.zeroNulls (bridges.get field r)) r)
                     r fields)
         <$> bridges.rows t |}.
Proof.
  revert t. induction fields as [|f fields IH]; intros t.
  - simpl. rewrite list_fmap_id. by destruct t.
  - cbn [foldl]. rewrite IH. unfold bridges.CalculateField. simpl.
    by rewrite <- list_fmap_compose.
Qed.

Lemma zeroNulls_fold_get (fields : list string) (r : bridges.row) (g : string) :
  bridges.get g
    (foldl (λ r field, bridges.set field (Traversals.zeroNulls (bridges.get field r)) r)
           r fields)
  = if decide (g ∈ fields) then Traversals.zeroNulls (bridges.get g r)
    else bridges.get g r.
Proof.
  revert r. induction fields as [|f fields IH]; intros r.
  - cbn [foldl]. case_decide as Hin; [by apply elem_of_nil in Hin|done].
  - cbn [foldl]. rewrite IH. rewrite get_set.
    destruct (decide (f = g)) as [->|Hne].
    + rewrite (decide_True (P := g ∈ g :: fields)) by apply list_elem_of_here.
      case_decide; [|done]. by destruct (bridges.get g r).
    + destruct (decide (g ∈ fields)) as [Hin|Hnin].
      * by rewrite decide_True by (by apply list_elem_of_further).
      * rewrite decide_False; [done|].
        intros [?|?]%elem_of_cons; [by subst|done].
Qed.

Lemma zeroNulls_fold_BRDG_NBR (fields : list string) (r : bridges.row) :
  bridges.BRDG_NBR
    (foldl (λ r field, bridges.set field (Traversals.zeroNulls (bridges.get field r)) r)
           r fields)
  = bridges.BRDG_NBR r.
Proof.
  revert r. induction fields as [|f fields IH]; intros r; [done|].
  cbn [foldl]. by rewrite IH.
Qed.

Lemma zeroNulls_default (v : Py.value) :
  Traversals.zeroNulls v = Some (default 0 v).
Proof.
  destruct v as [q|]; [done|]. unfold Traversals.zeroNulls, Py.lit. simpl.
  f_equal. by apply Qc_is_canon.
Qed.

(** ** The sums *)

(** The sum of fields that all hold a number. *)
Lemma sumExp_numbers (fields : list string) (r : bridges.row) (v : string → Qc) :
  fields ≠ [] →
  (∀ f, f ∈ fields → bridges.get f r = Some (v f)) →
  Traversals.sumExp fields r = Py.Val (Some (Qc_sum (v <$> fields))).
Proof.
  destruct fields as [|f fs]; [done|]. intros _ Hv. unfold Traversals.sumExp.
  rewrite (Hv f) by apply list_elem_of_here.
  assert (∀ g, g ∈ fs → bridges.get g r = Some (v g)) as Hfs
    by (intros; apply Hv; by apply list_elem_of_further).
  clear Hv. simpl. generalize (v f). induction fs as [|g fs IH]; intros acc.
  - simpl. unfold Qc_sum. simpl. by rewrite Qcplus_0_r.
  - cbn [foldl]. rewrite (Hfs g) by apply list_elem_of_here.
    cbn [mbind Py.result_bind Py.add].
    rewrite IH by (intros; apply Hfs; by apply list_elem_of_further).
    unfold Qc_sum. simpl. by rewrite Qcplus_assoc.
Qed.

Lemma sum_fields_rows (name wild_card : string) (t : bridges.table) :
  Traversals.sum_fields name wild_card t
  = {| bridges.schema := bridges.schema t ++ [name];
       bridges.rows :=
         (λ r, bridges.set name
                 (Arc.stored
                    (Traversals.sumExp
                       (Arc.ListFields (bridges.schema t ++ [name]) wild_card)
                       (bridges.set name None r)))
                 (bridges.set name None r))
         <$> bridges.rows t |}.
Proof.
  unfold Traversals.sum_fields, bridges.CalculateField, bridges.AddField. simpl.
  by rewrite <- list_fmap_compose.
Qed.

Lemma get_sum_row (name g : string) (v : Py.value) (r : bridges.row) :
  name ≠ g →
  bridges.get g (bridges.set name v (bridges.set name None r)) = bridges.get g r.
Proof. intros Hne. by rewrite !get_set_ne. Qed.

(** Membership in a list that is written out. *)
Ltac in_list :=
  repeat first [apply list_elem_of_here | apply list_elem_of_further].

(** ** The totals of a bridge *)

(** From the bridges as the loop over the classes leaves them to the
    bridges at the end of the script: the fields of the classes hold zero
    where they held null, and each sum field holds the sum of the fields of
    its kind. *)
Lemma totals_of_joined (J : bridges.table) (orig dests : list string)
    (i : nat) (b1 : bridges.row) :
  bridges.schema J
  = orig ++ (dests ≫= λ dest, [Traversals.freqField dest; Traversals.jobFreqField dest;
                               Traversals.jobDWFreqField dest]) →
  dests ≠ [] →
  (∀ dest, dest ∈ dests → Arc.wild "*_TRAV_*" dest = false) →
  (∀ f, f ∈ orig → Arc.wild "*_TRAV_*" f = false) →
  bridges.rows J !! i = Some b1 →
  ∃ b,
    bridges.rows
      (Traversals.sum_fields "DISTW_JOB_TRAV_SUM" "*_TRAV_JOB_DISTW"
         (Traversals.sum_fields "JOB_TRAV_SUM" "*_TRAV_JOB"
            (Traversals.sum_fields "BUS_TRAV_SUM" "*_TRAV_BUS*"
               (Traversals.replace_nulls J)))) !! i = Some b
    ∧ bridges.BRDG_NBR b = bridges.BRDG_NBR b1
    ∧ bridges.get "BUS_TRAV_SUM" b
      = Some (Qc_sum ((λ dest, default 0 (bridges.get (Traversals.freqField dest) b1))
                      <$> dests))
    ∧ bridges.get "JOB_TRAV_SUM" b
      = Some (Qc_sum ((λ dest, default 0 (bridges.get (Traversals.jobFreqField dest) b1))
                      <$> dests))
    ∧ bridges.get "DISTW_JOB_TRAV_SUM" b
      = Some (Qc_sum ((λ dest, default 0 (bridges.get (Traversals.jobDWFreqField dest) b1))
                      <$> dests))
    ∧ ∀ dest, dest ∈ dests →
        bridges.get (Traversals.freqField dest) b
        = Some (default 0 (bridges.get (Traversals.freqField dest) b1))
        ∧ bridges.get (Traversals.jobFreqField dest) b
          = Some (default 0 (bridges.get (Traversals.jobFreqField dest) b1))
        ∧ bridges.get (Traversals.jobDWFreqField dest) b
          = Some (default 0 (bridges.get (Traversals.jobDWFreqField dest) b1)).
Proof.
  intros Hschema Hdests Hnames Horig Hb1.
  unfold Traversals.replace_nulls. rewrite replace_nulls_fold.
  rewrite !sum_fields_rows. cbn [bridges.schema bridges.rows].
  rewrite !list_lookup_fmap, Hb1. cbn [fmap option_fmap option_map].
  set (FL := Arc.ListFields (bridges.schema J) "*_TRAV_*").
  set (b2 := foldl (λ r field,
                      bridges.set field (Traversals.zeroNulls (bridges.get field r)) r)
                   b1 FL).
  (* the fields of the classes are in the list of the null replacement *)
  assert (∀ dest f, dest ∈ dests →
            f ∈ [Traversals.freqField dest; Traversals.jobFreqField dest;
                 Traversals.jobDWFreqField dest] →
            bridges.get f b2 = Some (default 0 (bridges.get f b1))) as Hb2.
  { intros dest f Hdest Hf. unfold b2. rewrite zeroNulls_fold_get.
    rewrite decide_True; [apply zeroNulls_default|].
    apply elem_of_ListFields. split.
    - destruct (wild_TRAV_fields dest) as (W1 & W2 & W3).
      repeat (apply elem_of_cons in Hf as [->|Hf]); try done.
      by apply elem_of_nil in Hf.
    - rewrite Hschema. apply elem_of_app. right.
      apply list_elem_of_bind. by exists dest. }
  (* the three field lists of the sums *)
  destruct (ListFields_classes dests) as (HL1 & HL2 & HL3).
  specialize (HL1 Hnames).
  assert (Arc.ListFields (bridges.schema J ++ ["BUS_TRAV_SUM"]) "*_TRAV_BUS*"
          = Traversals.freqField <$> dests) as ->.
  { rewrite Hschema, !ListFields_app, HL1.
    rewrite (ListFields_none "*_TRAV_BUS*" orig).
    - simpl. by rewrite app_nil_r.
    - intros f Hf. apply not_true_is_false. intros Hw%wild_TRAV_of_BUS.
      rewrite (Horig f Hf) in Hw. discriminate. }
  assert (Arc.ListFields ((bridges.schema J ++ ["BUS_TRAV_SUM"]) ++ ["JOB_TRAV_SUM"])
            "*_TRAV_JOB"
          = Traversals.jobFreqField <$> dests) as ->.
  { rewrite Hschema, !ListFields_app, HL2.
    rewrite (ListFields_none "*_TRAV_JOB" orig).
    - simpl. by rewrite !app_nil_r.
    - intros f Hf. apply not_true_is_false. intros Hw%wild_TRAV_of_JOB.
      rewrite (Horig f Hf) in Hw. discriminate. }
  assert (Arc.ListFields
            (((bridges.schema J ++ ["BUS_TRAV_SUM"]) ++ ["JOB_TRAV_SUM"])
             ++ ["DISTW_JOB_TRAV_SUM"]) "*_TRAV_JOB_DISTW"
          = Traversals.jobDWFreqField <$> dests) as ->.
  { rewrite Hschema, !ListFields_app, HL3.
    rewrite (ListFields_none "*_TRAV_JOB_DISTW" orig).
    - simpl. by rewrite !app_nil_r.
    - intros f Hf. apply not_true_is_false. intros Hw%wild_TRAV_of_JOB_DISTW.
      rewrite (Horig f Hf) in Hw. discriminate. }
  set (b3 := bridges.set "BUS_TRAV_SUM"
               (Arc.stored (Traversals.sumExp (Traversals.freqField <$> dests)
                              (bridges.set "BUS_TRAV_SUM" None b2)))
               (bridges.set "BUS_TRAV_SUM" None b2)).
  set (b4 := bridges.set "JOB_TRAV_SUM"
               (Arc.stored (Traversals.sumExp (Traversals.jobFreqField <$> dests)
                              (bridges.set "JOB_TRAV_SUM" None b3)))
               (bridges.set "JOB_TRAV_SUM" None b3)).
  (* a field of a class is the same in every row from [b2] on *)
  assert (∀ dest f v r name,
            f ∈ [Traversals.freqField dest; Traversals.jobFreqField dest;
                 Traversals.jobDWFreqField dest] →
            name ∈ ["BUS_TRAV_SUM"; "JOB_TRAV_SUM"; "DISTW_JOB_TRAV_SUM"] →
            bridges.get f (bridges.set name v r) = bridges.get f r) as Hkeep.
  { intros dest f v r name Hf Hname. apply get_set_ne.
    by apply (class_field_not_sum dest). }
  assert (∀ dest f,
            dest ∈ dests →
            f ∈ [Traversals.freqField dest; Traversals.jobFreqField dest;
                 Traversals.jobDWFreqField dest] →
            bridges.get f b3 = Some (default 0 (bridges.get f b1))
            ∧ bridges.get f b4 = Some (default 0 (bridges.get f b1))) as Hb34.
  { intros dest f Hdest Hf. unfold b4, b3.
    rewrite !(Hkeep dest) by (done || in_list). split; by apply (Hb2 dest). }
  assert (fmap (M := list) Traversals.freqField dests ≠ []
          ∧ fmap (M := list) Traversals.jobFreqField dests ≠ []
          ∧ fmap (M := list) Traversals.jobDWFreqField dests ≠ []) as (Hne1 & Hne2 & Hne3).
  { destruct dests; [done|]. by repeat split. }
  eexists. split; [reflexivity|]. split; [|split; [|split; [|split]]].
  - simpl. unfold b2. apply zeroNulls_fold_BRDG_NBR.
  - fold b2 b3 b4. rewrite get_sum_row by done.
    unfold b4. rewrite get_sum_row by done.
    unfold b3. rewrite get_set_eq.
    rewrite (sumExp_numbers _ _ (λ f, default 0 (bridges.get f b1))); [|done|].
    + simpl. by rewrite <- list_fmap_compose.
    + intros f (dest & -> & Hdest)%list_elem_of_fmap.
      rewrite !(Hkeep dest) by in_list. apply (Hb2 dest); [done|in_list].
  - fold b2 b3 b4. rewrite get_sum_row by done.
    unfold b4. rewrite get_set_eq.
    rewrite (sumExp_numbers _ _ (λ f, default 0 (bridges.get f b1))); [|done|].
    + simpl. by rewrite <- list_fmap_compose.
    + intros f (dest & -> & Hdest)%list_elem_of_fmap.
      rewrite !(Hkeep dest) by in_list. apply (Hb34 dest); [done|in_list].
  - fold b2 b3 b4. rewrite get_set_eq.
    rewrite (sumExp_numbers _ _ (λ f, default 0 (bridges.get f b1))); [|done|].
    + simpl. by rewrite <- list_fmap_compose.
    + intros f (dest & -> & Hdest)%list_elem_of_fmap.
      rewrite !(Hkeep dest) by in_list. apply (Hb34 dest); [done|in_list].
  - intros dest Hdest. fold b2 b3 b4.
    rewrite !(Hkeep dest) by in_list.
    repeat split; apply (Hb34 dest); (done || in_list).
Qed.

(** ** The fields of a class hold the frequency row of the class *)

Lemma string_app_inv_tail (d d' x : string) : d +:+ x = d' +:+ x → d = d'.
Proof.
  intros H. apply (f_equal list_ascii_of_string) in H.
  rewrite !list_ascii_of_string_app in H. apply app_inv_tail in H.
  by rewrite <- (string_of_list_ascii_of_string d), H, string_of_list_ascii_of_string.
Qed.

(** The three fields of a class are three names. *)
Lemma class_fields_three (dest : string) :
  Traversals.freqField dest ≠ Traversals.jobFreqField dest
  ∧ Traversals.freqField dest ≠ Traversals.jobDWFreqField dest
  ∧ Traversals.jobFreqField dest ≠ Traversals.jobDWFreqField dest.
Proof.
  repeat split; intros Heq.
  - apply (ends_last dest dest "_TRAV_BUS" "_TRAV_JOB") in Heq; [discriminate Heq|done..].
  - apply (ends_last dest dest "_TRAV_BUS" "_TRAV_JOB_DISTW") in Heq;
      [discriminate Heq|done..].
  - apply (ends_last dest dest "_TRAV_JOB" "_TRAV_JOB_DISTW") in Heq;
      [discriminate Heq|done..].
Qed.

(** Two classes share no field. *)
Lemma class_fields_disjoint (d d' f : string) :
  d ≠ d' →
  f ∈ [Traversals.freqField d; Traversals.jobFreqField d; Traversals.jobDWFreqField d] →
  f ∉ [Traversals.freqField d'; Traversals.jobFreqField d'; Traversals.jobDWFreqField d'].
Proof.
  intros Hne Hf Hf'.
  repeat (apply elem_of_cons in Hf as [Hf|Hf]); [..|by apply elem_of_nil in Hf];
    repeat (apply elem_of_cons in Hf' as [Hf'|Hf']); try (by apply elem_of_nil in Hf');
    rewrite Hf in Hf';
    first
      [ by apply string_app_inv_tail in Hf'
      | match type of Hf' with
        | ?l = ?r =>
            let x := match l with
                     | Traversals.freqField _ => constr:("_TRAV_BUS")
                     | Traversals.jobFreqField _ => constr:("_TRAV_JOB")
                     | Traversals.jobDWFreqField _ => constr:("_TRAV_JOB_DISTW")
                     end in
            let y := match r with
                     | Traversals.freqField _ => constr:("_TRAV_BUS")
                     | Traversals.jobFreqField _ => constr:("_TRAV_JOB")
                     | Traversals.jobDWFreqField _ => constr:("_TRAV_JOB_DISTW")
                     end in
            apply (ends_last d d' x y) in Hf'; [discriminate Hf'|done..]
        end ].
Qed.

Section Frequencies.

Variable freqTable : string → list Traversals.freq_row.

Abbreviation join_all :=
  (foldl (λ b dest, Traversals.join_freq dest (freqTable dest) b)).

Lemma join_freq_other (dest f : string) (b : bridges.row) :
  f ∉ [Traversals.freqField dest; Traversals.jobFreqField dest;
       Traversals.jobDWFreqField dest] →
  bridges.get f (Traversals.join_freq dest (freqTable dest) b) = bridges.get f b.
Proof.
  intros Hf. unfold Traversals.join_freq.
  assert (Traversals.freqField dest ≠ f ∧ Traversals.jobFreqField dest ≠ f
          ∧ Traversals.jobDWFreqField dest ≠ f) as (H1 & H2 & H3).
  { repeat split; intros <-; apply Hf; in_list. }
  case_match; by rewrite !get_set_ne.
Qed.

Lemma join_all_other (dests : list string) (f : string) (b : bridges.row) :
  (∀ dest, dest ∈ dests →
     f ∉ [Traversals.freqField dest; Traversals.jobFreqField dest;
          Traversals.jobDWFreqField dest]) →
  bridges.get f (join_all b dests) = bridges.get f b.
Proof.
  revert b. induction dests as [|d dests IH]; intros b Hf; [done|].
  cbn [foldl]. rewrite IH by (intros; apply Hf; by apply list_elem_of_further).
  apply join_freq_other, Hf, list_elem_of_here.
Qed.



End Frequencies.


Lemma filter_absent (tbl : list bridgeTable.row) (nbr : string) :
  nbr ∉ bridgeTable.BRDG_NBR <$> tbl →
  filter (λ r, bridgeTable.BRDG_NBR r = nbr) tbl = [].
Proof.
  intros Hnin. induction tbl as [|r tbl IH]; [done|].
  rewrite fmap_cons in Hnin. apply not_elem_of_cons in Hnin as [Hne Hnin].
  rewrite filter_cons_False by congruence. by apply IH.
Qed.

(** ** Claims on the totals of the bridges *)



(** ** A bridge that no route crosses *)

Lemma first_match_None {A K : Type} `{EqDecision K} (key : A → K) (k : K) (l : list A) :
  k ∉ key <$> l → Arc.first_match key k l = None.
Proof.
  induction l as [|a l IH]; [done|]. simpl.
  intros [Hne Hk]%not_elem_of_cons.
  rewrite decide_False by congruence. by apply IH.
Qed.

Lemma Frequency_analysis_keys (tbl : list bridgeTable.row) :
  Traversals.freq_BRDG_NBR <$> Traversals.Frequency_analysis tbl
  = remove_dups (bridgeTable.BRDG_NBR <$> tbl).
Proof.
  unfold Traversals.Frequency_analysis. rewrite <- list_fmap_compose.
  apply list_fmap_id.
Qed.

Lemma Detours_by_Bridge_keys (merged : list bridgeTable.row) :
  Detours.freq_BRDG_NBR <$> Detours.Detours_by_Bridge merged
  = remove_dups (bridgeTable.BRDG_NBR <$> merged).
Proof.
  unfold Detours.Detours_by_Bridge. rewrite <- list_fmap_compose.
  apply list_fmap_id.
Qed.

Lemma Qc_sum_zeros {A : Type} (l : list A) : Qc_sum ((λ _, 0) <$> l) = 0.
Proof.
  induction l as [|a l IH]; [done|].
  rewrite fmap_cons. unfold Qc_sum in *. simpl. rewrite IH. ring.
Qed.

(** C4, as the code has it (traversals.py read without the stray tokens
    of lines 125 and 208).  With one destination class at least and no
    [_TRAV_] in the name of a class or of a field the bridges came with, a
    bridge that no row of any bridge table names has, when traversals.py
    ends, zero (not null) in the three fields of every destination class and
    in the three sum fields.  detours.py replaces no null: a bridge that no
    row of any detour table names has null in the three detour sums joined
    to the bridges.  And it joins no count: the three sums are the only
    fields it adds to the bridges, and every other field of a bridge is left
    as it was. *)
Theorem C4_zero_traversals_null_detours :
  (∀ (Shape_Length : Qc → Qc → Qc → Qc → Qc)
     (routesBridgesSJ : string → list routesBridgesSJ.row)
    (inserted : string → nat → bool)
     (cfg : Traversals.settings) (bs : list businesses.row) (brs : bridges.table)
     (dests : list string) (i : nat) (b0 : bridges.row),
     dests ≠ [] →
     (∀ dest, dest ∈ dests → Arc.wild "*_TRAV_*" dest = false) →
     (∀ f, f ∈ bridges.schema brs → Arc.wild "*_TRAV_*" f = false) →
     bridges.rows brs !! i = Some b0 →
     (∀ dest tbl r,
        (dest, tbl) ∈ Traversals.Bridges_by_Bus
                        (Traversals.run Shape_Length routesBridgesSJ inserted cfg bs brs dests) →
        r ∈ tbl → bridgeTable.BRDG_NBR r ≠ bridges.BRDG_NBR b0) →
     ∃ b,
       bridges.rows
         (Traversals.ws_bridges
            (Traversals.run Shape_Length routesBridgesSJ inserted cfg bs brs dests)) !! i = Some b
       ∧ bridges.BRDG_NBR b = bridges.BRDG_NBR b0
       ∧ (∀ dest, dest ∈ dests →
            bridges.get (Traversals.freqField dest) b = Some 0
            ∧ bridges.get (Traversals.jobFreqField dest) b = Some 0
            ∧ bridges.get (Traversals.jobDWFreqField dest) b = Some 0)
       ∧ bridges.get "BUS_TRAV_SUM" b = Some 0
       ∧ bridges.get "JOB_TRAV_SUM" b = Some 0
       ∧ bridges.get "DISTW_JOB_TRAV_SUM" b = Some 0)
  ∧ (∀ (solve : string → Z → string → Detours.solution)
       (Bridges_by_Bus : list (string * list bridgeTable.row)) (brs : bridges.table)
       (out : Detours.output) (i : nat) (b0 : bridges.row),
       Detours.run solve Bridges_by_Bus brs = Py.Val out →
       bridges.rows brs !! i = Some b0 →
       (∀ dest tbl r,
          (dest, tbl) ∈ Detours.detours_tables out →
          r ∈ tbl → bridgeTable.BRDG_NBR r ≠ bridges.BRDG_NBR b0) →
       bridges.schema (Detours.out_bridges out)
       = bridges.schema brs
         ++ [Detours.detSum; Detours.jobDetSum; Detours.distWDetTimeSum]
       ∧ ∃ b,
           bridges.rows (Detours.out_bridges out) !! i = Some b
           ∧ bridges.BRDG_NBR b = bridges.BRDG_NBR b0
           ∧ bridges.get Detours.detSum b = None
           ∧ bridges.get Detours.jobDetSum b = None
           ∧ bridges.get Detours.distWDetTimeSum b = None
           ∧ ∀ f, f ∉ [Detours.detSum; Detours.jobDetSum; Detours.distWDetTimeSum] →
                  bridges.get f b = bridges.get f b0).
Proof.
  split.
  - intros Shape_Length routesBridgesSJ inserted cfg bs brs dests i b0
      Hdests Hnames Horig Hb0 Habsent.
    set (freqTable := λ dest,
           Traversals.Frequency_analysis
             (Traversals.build_bridgeTable Shape_Length routesBridgesSJ inserted cfg
                (Traversals.calc_Truck_Int dests bs) dest)).
    set (b1 := foldl (λ b dest, Traversals.join_freq dest (freqTable dest) b) b0 dests).
    assert (∀ dest, dest ∈ dests →
              bridges.get (Traversals.freqField dest) b1 = None
              ∧ bridges.get (Traversals.jobFreqField dest) b1 = None
              ∧ bridges.get (Traversals.jobDWFreqField dest) b1 = None) as Hnull.
    { apply (join_freq_fold_absent freqTable dests b0).
      intros dest Hdest. apply first_match_None.
      unfold freqTable. rewrite Frequency_analysis_keys, elem_of_remove_dups.
      intros (r & Heq & Hr)%list_elem_of_fmap.
      apply (Habsent dest
               (Traversals.build_bridgeTable Shape_Length routesBridgesSJ inserted cfg
                  (Traversals.calc_Truck_Int dests bs) dest) r); [|exact Hr|done].
      rewrite run_Bridges_by_Bus. apply list_elem_of_fmap. by exists dest. }
    destruct (totals_of_joined
                (Traversals.ws_bridges
                   (foldl (Traversals.traverse Shape_Length routesBridgesSJ inserted cfg)
                      {| Traversals.ws_businesses := Traversals.calc_Truck_Int dests bs;
                         Traversals.ws_bridges := brs;
                         Traversals.Bridges_by_Bus := [] |}
                      dests))
                (bridges.schema brs) dests i b1)
      as (b & Hb & Hnbr & Hs1 & Hs2 & Hs3 & Hfields); try done.
    { rewrite foldl_traverse. cbn [Traversals.ws_bridges Traversals.ws_businesses].
      by rewrite JoinField_freq_fold. }
    { rewrite foldl_traverse. cbn [Traversals.ws_bridges Traversals.ws_businesses].
      rewrite (JoinField_freq_fold freqTable). cbn [bridges.rows].
      by rewrite list_lookup_fmap, Hb0. }
    exists b. split; [exact Hb|]. split.
    { rewrite Hnbr. apply join_freq_fold_BRDG_NBR. }
    assert (∀ field : string → string,
              (∀ dest, dest ∈ dests → bridges.get (field dest) b1 = None) →
              Qc_sum ((λ dest, default 0 (bridges.get (field dest) b1)) <$> dests) = 0)
      as Hzero.
    { intros field Hfield.
      assert ((λ dest, default 0 (bridges.get (field dest) b1)) <$> dests
              = (λ _, 0) <$> dests) as ->; [|apply Qc_sum_zeros].
      apply list_fmap_ext. intros j dest Hj.
      rewrite Hfield; [done|]. by eapply list_elem_of_lookup_2. }
    split; [|split; [|split]].
    + intros dest Hdest.
      destruct (Hfields dest Hdest) as (-> & -> & ->).
      destruct (Hnull dest Hdest) as (-> & -> & ->). done.
    + rewrite Hs1, Hzero; [done|]. intros dest Hdest. by destruct (Hnull dest Hdest).
    + rewrite Hs2, Hzero; [done|]. intros dest Hdest.
      by destruct (Hnull dest Hdest) as (_ & ? & _).
    + rewrite Hs3, Hzero; [done|]. intros dest Hdest.
      by destruct (Hnull dest Hdest) as (_ & _ & ?).
  - intros solve Bridges_by_Bus brs out i b0 Hrun Hb0 Habsent.
    assert (Detours.out_bridges out
            = Detours.JoinField_sums
                (Detours.Detours_by_Bridge (Detours.detours_tables out ≫= snd)) brs)
      as Hout.
    { by apply run_Val in Hrun as (_ & tables & _ & ->). }
    rewrite Hout. unfold Detours.JoinField_sums. cbn [bridges.rows bridges.schema].
    split; [done|].
    rewrite list_lookup_fmap, Hb0. simpl. eexists. split; [reflexivity|].
    unfold Detours.join_sums. rewrite first_match_None.
    + simpl. rewrite !get_set. repeat split.
      intros f Hf. rewrite !not_elem_of_cons in Hf. destruct Hf as (? & ? & ? & _).
      by rewrite !get_set_ne by done.
    + rewrite Detours_by_Bridge_keys, elem_of_remove_dups.
      intros (r & Heq & Hr)%list_elem_of_fmap.
      apply list_elem_of_bind in Hr as ([dest tbl] & Hr & Hin).
      by apply (Habsent dest tbl r).
Qed.

Lemma C4_witness :
  (∃ b, bridges.rows (Traversals.ws_bridges Example.traversed) !! 1%nat = Some b
        ∧ bridges.get "BUS_TRAV_SUM" b = Some 0
        ∧ bridges.get "JOB_TRAV_SUM" b = Some 0
        ∧ bridges.get "DISTW_JOB_TRAV_SUM" b = Some 0)
  ∧ (∃ b, bridges.rows (Detours.out_bridges Example.detoured) !! 1%nat = Some b
          ∧ bridges.get Detours.detSum b = None
          ∧ bridges.get Detours.jobDetSum b = None
          ∧ bridges.get Detours.distWDetTimeSum b = None).
Proof.
  destruct C4_zero_traversals_null_detours as [HT HD]. split.
  - destruct (HT Example.Shape_Length Example.routesBridgesSJ Example.inserted
           Traversals.default_settings
                Example.the_businesses Example.the_bridges Example.dests
                1%nat Example.bridge_B2)
      as (b & Hb & _ & _ & H1 & H2 & H3).
    + discriminate.
    + apply Forall_forall. repeat constructor.
    + apply Forall_forall. repeat constructor.
    + vm_compute. reflexivity.
    + intros dest tbl r Hin Hr.
      assert (Forall (λ p : string * list bridgeTable.row,
                        Forall (λ r, bridgeTable.BRDG_NBR r ≠ "B2") p.2)
                (Traversals.Bridges_by_Bus Example.traversed)) as Hall
        by (apply (bool_decide_unpack _); vm_compute; exact I).
      rewrite Forall_forall in Hall. specialize (Hall _ Hin).
      rewrite Forall_forall in Hall. exact (Hall _ Hr).
    + exists b. by repeat split.
  - destruct (HD Example.solve (Traversals.Bridges_by_Bus Example.traversed)
                Example.the_bridges Example.detoured 1%nat Example.bridge_B2)
      as (_ & b & Hb & _ & H1 & H2 & H3 & _).
    + vm_compute. reflexivity.
    + vm_compute. reflexivity.
    + intros dest tbl r Hin Hr.
      assert (Forall (λ p : string * list bridgeTable.row,
                        Forall (λ r, bridgeTable.BRDG_NBR r ≠ "B2") p.2)
                (Detours.detours_tables Example.detoured)) as Hall
        by (apply (bool_decide_unpack _); vm_compute; exact I).
      rewrite Forall_forall in Hall. specialize (Hall _ Hin).
      rewrite Forall_forall in Hall. exact (Hall _ Hr).
    + exists b. by repeat split.
Defined.

(** C4, as the specification has it, fails on the detour sums: on the
    example no detour row names bridge [B2], and when detours.py ends the
    three sums of [B2] are null, not zero. *)
Lemma C4_counterexample :
  Detours.run Example.solve (Traversals.Bridges_by_Bus Example.traversed)
    Example.the_bridges = Py.Val Example.detoured
  ∧ Forall (λ p : string * list bridgeTable.row,
              Forall (λ r, bridgeTable.BRDG_NBR r ≠ "B2") p.2)
      (Detours.detours_tables Example.detoured)
  ∧ ∃ b, bridges.rows (Detours.out_bridges Example.detoured) !! 1%nat = Some b
         ∧ bridges.BRDG_NBR b = "B2"
         ∧ bridges.get Detours.detSum b = None
         ∧ bridges.get Detours.jobDetSum b = None
         ∧ bridges.get Detours.distWDetTimeSum b = None
         ∧ bridges.get Detours.detSum b ≠ Some 0.
Proof.
  split; [vm_compute; reflexivity|].
  split; [apply (bool_decide_unpack _); vm_compute; exact I|].
  eexists. split; [vm_compute; reflexivity|].
  repeat split; try (vm_compute; reflexivity).
  vm_compute. discriminate.
Qed.

(** * Further properties of detours.py *)

(** ** The dictionary of businesses and bridges *)

Lemma pairs_app (d1 d2 : list (Z * list string)) :
  Detours.pairs (d1 ++ d2) = Detours.pairs d1 ++ Detours.pairs d2.
Proof. unfold Detours.pairs. apply bind_app. Qed.

Lemma pairs_cons (e : Z * list string) (d : list (Z * list string)) :
  Detours.pairs (e :: d) = ((λ g, (e.1, g)) <$> e.2) ++ Detours.pairs d.
Proof. reflexivity. Qed.

Lemma busDict_add_keys (d : list (Z * list string)) (row : bridgeTable.row) :
  (Detours.busDict_add d row).*1
  = if decide (bridgeTable.Business_ID row ∈ d.*1) then d.*1
    else d.*1 ++ [bridgeTable.Business_ID row].
Proof.
  unfold Detours.busDict_add. case_decide.
  - rewrite <- list_fmap_compose. apply list_fmap_ext. intros i e _. simpl.
    by case_decide.
  - by rewrite fmap_app.
Qed.

Lemma busDict_add_NoDup (d : list (Z * list string)) (row : bridgeTable.row) :
  NoDup d.*1 → NoDup (Detours.busDict_add d row).*1.
Proof.
  intros Hnd. rewrite busDict_add_keys. case_decide; [done|].
  apply NoDup_app. split; [done|]. split.
  - intros b Hb ->%list_elem_of_singleton. done.
  - apply NoDup_singleton.
Qed.

(** Adding a row to a dictionary with distinct keys adds its pair and
    nothing else. *)
Lemma busDict_add_pairs (d : list (Z * list string)) (row : bridgeTable.row) :
  NoDup d.*1 →
  Detours.pairs (Detours.busDict_add d row)
  ≡ₚ Detours.pairs d ++ [(bridgeTable.Business_ID row, bridgeTable.BRDG_NBR row)].
Proof.
  unfold Detours.busDict_add. intros Hnd. case_decide as Hin.
  - induction d as [|e d IH]; [by apply elem_of_nil in Hin|].
    rewrite fmap_cons in Hnd, Hin. apply NoDup_cons in Hnd as [He Hnd].
    rewrite fmap_cons, !pairs_cons.
    destruct (decide (e.1 = bridgeTable.Business_ID row)) as [Heq|Hne].
    + assert ((λ e0, if decide (e0.1 = bridgeTable.Business_ID row)
                     then (e0.1, e0.2 ++ [bridgeTable.BRDG_NBR row]) else e0) <$> d = d)
        as ->.
      { rewrite <- (list_fmap_id d) at 2. apply list_fmap_ext. intros i e0 Hi.
        rewrite decide_False; [done|]. intros Heq0. apply He. rewrite Heq, <- Heq0.
        apply list_elem_of_fmap_2. by eapply list_elem_of_lookup_2. }
      simpl. rewrite fmap_app. simpl.
      rewrite Heq. rewrite <- !app_assoc. apply Permutation_app_head.
      apply Permutation_app_comm.
    + apply elem_of_cons in Hin as [Hin|Hin]; [congruence|].
      rewrite (IH Hnd Hin). by rewrite app_assoc.
  - by rewrite pairs_app.
Qed.

Lemma busDict_fold_pairs (rows : list bridgeTable.row) (d : list (Z * list string)) :
  NoDup d.*1 →
  NoDup (foldl Detours.busDict_add d rows).*1
  ∧ Detours.pairs (foldl Detours.busDict_add d rows)
    ≡ₚ Detours.pairs d
       ++ ((λ r, (bridgeTable.Business_ID r, bridgeTable.BRDG_NBR r)) <$> rows).
Proof.
  revert d. induction rows as [|r rows IH]; intros d Hnd; simpl.
  - by rewrite app_nil_r.
  - destruct (IH _ (busDict_add_NoDup d r Hnd)) as [Hnd' Hp]. split; [done|].
    rewrite Hp, (busDict_add_pairs d r Hnd). by rewrite <- app_assoc.
Qed.

Lemma filter_none {A : Type} (P : A → Prop) `{∀ x, Decision (P x)} (l : list A) :
  (∀ x, x ∈ l → ¬ P x) → filter P l = [].
Proof.
  induction l as [|a l IH]; intros Hl; [done|].
  rewrite filter_cons_False by (apply Hl, list_elem_of_here).
  apply IH. intros x Hx. apply Hl. by apply list_elem_of_further.
Qed.

Lemma busDict_add_groups (d : list (Z * list string)) (row : bridgeTable.row)
    (pre : list bridgeTable.row) :
  (∀ e, e ∈ d →
     e.2 = bridgeTable.BRDG_NBR <$> filter (λ r, bridgeTable.Business_ID r = e.1) pre) →
  (∀ b, b ∈ d.*1 ↔ b ∈ bridgeTable.Business_ID <$> pre) →
  (∀ e, e ∈ Detours.busDict_add d row →
     e.2 = bridgeTable.BRDG_NBR
             <$> filter (λ r, bridgeTable.Business_ID r = e.1) (pre ++ [row]))
  ∧ (∀ b, b ∈ (Detours.busDict_add d row).*1
          ↔ b ∈ bridgeTable.Business_ID <$> (pre ++ [row])).
Proof.
  intros Hgroups Hkeys. split.
  - intros e He. rewrite filter_app, fmap_app. unfold Detours.busDict_add in He.
    case_decide as Hin.
    + apply list_elem_of_fmap in He as (e0 & -> & He0).
      case_decide as Heq; simpl.
      * rewrite (Hgroups e0 He0), filter_cons_True by done. by rewrite Heq.
      * rewrite (Hgroups e0 He0), filter_cons_False by done. by rewrite app_nil_r.
    + apply elem_of_app in He as [He | ->%list_elem_of_singleton].
      * rewrite (Hgroups e He), filter_cons_False; [by rewrite app_nil_r|].
        intros Heq. apply Hin. rewrite Heq. by apply list_elem_of_fmap_2.
      * simpl. rewrite filter_cons_True by done.
        assert (filter (λ r, bridgeTable.Business_ID r = bridgeTable.Business_ID row) pre
                = []) as ->; [|done].
        apply filter_none. intros r Hr Heq.
        apply Hin, Hkeys. rewrite <- Heq. by apply list_elem_of_fmap_2.
  - intros b. rewrite busDict_add_keys, fmap_app, elem_of_app. simpl.
    rewrite list_elem_of_singleton, <- Hkeys. case_decide as Hin.
    + split; [by left|]. intros [? | ->]; done.
    + by rewrite elem_of_app, list_elem_of_singleton.
Qed.

Lemma busDict_fold_groups (rows pre : list bridgeTable.row) (d : list (Z * list string)) :
  (∀ e, e ∈ d →
     e.2 = bridgeTable.BRDG_NBR <$> filter (λ r, bridgeTable.Business_ID r = e.1) pre) →
  (∀ b, b ∈ d.*1 ↔ b ∈ bridgeTable.Business_ID <$> pre) →
  (∀ e, e ∈ foldl Detours.busDict_add d rows →
     e.2 = bridgeTable.BRDG_NBR
             <$> filter (λ r, bridgeTable.Business_ID r = e.1) (pre ++ rows))
  ∧ (∀ b, b ∈ (foldl Detours.busDict_add d rows).*1
          ↔ b ∈ bridgeTable.Business_ID <$> (pre ++ rows)).
Proof.
  revert pre d. induction rows as [|r rows IH]; intros pre d Hgroups Hkeys.
  - by rewrite app_nil_r.
  - simpl. destruct (busDict_add_groups d r pre Hgroups Hkeys) as [Hg Hk].
    destruct (IH (pre ++ [r]) _ Hg Hk) as [Hg' Hk'].
    by rewrite <- app_assoc in Hg', Hk'.
Qed.

(** X1: the two nested loops of detours.py meet every row of the detour
    table once: the pairs of the dictionary are the (business, bridge) pairs
    of the rows, rearranged, a pair that stands in two rows standing twice;
    so the inner loop makes as many turns as the table has rows. *)
Theorem X1_busDict_pairs_are_the_rows (detours : list bridgeTable.row) :
  Detours.pairs (Detours.busDict detours)
  ≡ₚ (λ r, (bridgeTable.Business_ID r, bridgeTable.BRDG_NBR r)) <$> detours
  ∧ length (Detours.pairs (Detours.busDict detours)) = length detours.
Proof.
  assert (Detours.pairs (Detours.busDict detours)
          ≡ₚ (λ r, (bridgeTable.Business_ID r, bridgeTable.BRDG_NBR r)) <$> detours)
    as Hp.
  { unfold Detours.busDict.
    destruct (busDict_fold_pairs detours [] (NoDup_nil_2)) as [_ Hp]. exact Hp. }
  split; [exact Hp|]. by rewrite Hp, length_fmap.
Qed.

(** X2: the dictionary has one entry per business of the detour table,
    no business twice, and the list of a business holds the bridges of the
    rows of that business, in the order of the rows. *)
Theorem X2_busDict_groups_by_business (detours : list bridgeTable.row) :
  NoDup (Detours.busDict detours).*1
  ∧ (∀ b, b ∈ (Detours.busDict detours).*1 ↔ b ∈ bridgeTable.Business_ID <$> detours)
  ∧ (∀ b bridges, (b, bridges) ∈ Detours.busDict detours →
       bridges = bridgeTable.BRDG_NBR
                   <$> filter (λ r, bridgeTable.Business_ID r = b) detours
       ∧ bridges ≠ []).
Proof.
  unfold Detours.busDict.
  destruct (busDict_fold_pairs detours [] (NoDup_nil_2)) as [Hnd _].
  destruct (busDict_fold_groups detours [] []) as [Hg Hk].
  { intros e He. by apply elem_of_nil in He. }
  { intros b. simpl. split; intros H; by apply elem_of_nil in H. }
  simpl in Hg, Hk. split; [done|]. split; [done|].
  intros b bridges He. specialize (Hg _ He). simpl in Hg. split; [done|].
  assert (b ∈ bridgeTable.Business_ID <$> detours) as Hb.
  { apply Hk. apply list_elem_of_fmap. by exists (b, bridges). }
  apply list_elem_of_fmap in Hb as (r & -> & Hr).
  rewrite Hg. intros Hnil%fmap_nil_inv.
  assert (r ∈ filter (λ r0, bridgeTable.Business_ID r0 = bridgeTable.Business_ID r) detours)
    as Hin by (by apply list_elem_of_filter).
  rewrite Hnil in Hin. by apply elem_of_nil in Hin.
Qed.

(** ** The progress report *)

Lemma length_pairs_busDict (tbl : list bridgeTable.row) :
  length (Detours.pairs (Detours.busDict tbl)) = length tbl.
Proof.
  unfold Detours.busDict.
  destruct (busDict_fold_pairs tbl [] (NoDup_nil_2)) as [_ Hp].
  rewrite Hp. change (Detours.pairs [] ++ ?l) with l. apply length_fmap.
Qed.

Lemma count_rows_sum (setList : list (list bridgeTable.row)) :
  Progress.count_rows setList = Z.of_nat (sum_list (length <$> setList)).
Proof.
  unfold Progress.count_rows.
  assert (∀ acc : Z,
            foldl (λ totalRows s, (totalRows + Z.of_nat (length s))%Z) acc setList
            = (acc + Z.of_nat (sum_list (length <$> setList)))%Z) as Hgen.
  { induction setList as [|s setList IH]; intros acc.
    - cbn. lia.
    - cbn [foldl]. rewrite IH, fmap_cons. cbn [sum_list_with id]. lia. }
  rewrite Hgen. lia.
Qed.

Section ProgressFacts.

Variable solve : string → Z → string → Detours.solution.

(** The lines of the loops of one class count on from the counters the
    class starts with; there is one for each pair when the loops end, and
    fewer when a turn raises. *)
Lemma progress_detour_loop (dest : string) (ps : list (Z * string))
    (st : Detours.state) (c : Progress.counters) :
  (∀ (i : nat) c',
     (Progress.detour_loop solve dest st c ps).1 !! i = Some c' →
     Progress.x c' = (Progress.x c + Z.of_nat (S i))%Z
     ∧ Progress.totalRows c' = (Progress.totalRows c - Z.of_nat (S i))%Z)
  ∧ match Detours.detour_loop solve dest st ps with
    | Py.Val st' =>
        length (Progress.detour_loop solve dest st c ps).1 = length ps
        ∧ ∃ c', (Progress.detour_loop solve dest st c ps).2 = Py.Val (st', c')
                ∧ Progress.x c' = (Progress.x c + Z.of_nat (length ps))%Z
                ∧ Progress.totalRows c'
                  = (Progress.totalRows c - Z.of_nat (length ps))%Z
    | Py.Raise e =>
        (length (Progress.detour_loop solve dest st c ps).1 < length ps)%nat
        ∧ (Progress.detour_loop solve dest st c ps).2 = Py.Raise e
    end.
Proof.
  revert st c. induction ps as [|p ps IH]; intros st c.
  - cbn. split; [done|]. split; [done|]. exists c. split; [done|]. split; lia.
  - cbn [Progress.detour_loop Detours.detour_loop].
    destruct (Detours.detour solve dest st p) as [st1|e]; cbn [mbind Py.result_bind].
    + destruct (IH st1 (Progress.turn c)) as [Hlook Hend]. cbn [fst snd]. split.
      * intros [|i] c'; cbn.
        -- intros [= <-]. cbn. split; lia.
        -- intros Hi. destruct (Hlook _ _ Hi) as [-> ->]. cbn. split; lia.
      * destruct (Detours.detour_loop solve dest st1 ps) as [st'|e].
        -- destruct Hend as (Hlen & c' & Hc' & Hx & Ht). split; [cbn; by rewrite Hlen|].
           exists c'. split; [done|]. rewrite Hx, Ht. cbn. split; lia.
        -- destruct Hend as [Hlen Hr]. split; [cbn; lia|done].
    + cbn. split; [done|]. split; [lia|done].
Qed.

Lemma progress_dest_loop (tables : list (string * list bridgeTable.row))
    (key0 : option string) (c : Progress.counters)
    (acc : list (string * list bridgeTable.row)) :
  (∀ (i : nat) c',
     Progress.dest_loop solve key0 c tables !! i = Some c' →
     Progress.x c' = (Progress.x c + Z.of_nat (S i))%Z
     ∧ Progress.totalRows c' = (Progress.totalRows c - Z.of_nat (S i))%Z)
  ∧ match Detours.dest_loop solve key0 acc tables with
    | Py.Val _ =>
        length (Progress.dest_loop solve key0 c tables)
        = sum_list (length <$> tables.*2)
    | Py.Raise _ =>
        (length (Progress.dest_loop solve key0 c tables)
         < sum_list (length <$> tables.*2))%nat
    end.
Proof.
  revert key0 c acc. induction tables as [|[dest tbl] tables IH]; intros key0 c acc.
  - cbn. done.
  - cbn [Progress.dest_loop Detours.dest_loop]. unfold Detours.detours_of.
    set (detours0 := bridgeTable.set_No_Bridge_Time None <$> tbl).
    set (ps := Detours.pairs (Detours.busDict detours0)).
    set (st0 := {| Detours.key := key0; Detours.detours := detours0 |}).
    assert (length ps = length tbl) as Hps.
    { unfold ps, detours0. by rewrite length_pairs_busDict, length_fmap. }
    destruct (progress_detour_loop dest ps st0 c) as [Hlook Hend].
    rewrite fmap_cons, fmap_cons. cbn [snd sum_list_with id].
    change (sum_list_with id ?l) with (sum_list l).
    destruct (Detours.detour_loop solve dest st0 ps) as [st1|e];
      cbn [mbind Py.result_bind].
    + destruct Hend as (Hlen & c1 & Hc1 & Hx & Ht). rewrite Hc1.
      cbn [Detours.key Detours.detours].
      destruct (IH (Detours.key st1) c1
                  (acc ++ [(dest, Detours.detour_metrics (Detours.detours st1))]))
        as [Hlook' Hend'].
      split.
      * intros i c' Hi. apply lookup_app_Some in Hi as [Hi|[Hge Hi]].
        -- by apply Hlook.
        -- rewrite Hlen in Hge, Hi. destruct (Hlook' _ _ Hi) as [-> ->].
           rewrite Hx, Ht. split; lia.
      * rewrite length_app, Hlen, Hps.
        destruct (Detours.dest_loop solve (Detours.key st1) _ tables); lia.
    + destruct Hend as [Hlen ->]. split; [exact Hlook|]. lia.
Qed.

(** X3: the progress report of detours.py.  When the tables counted at
    the start are the tables the loop goes over, the lines count up and down
    in step: the line at place [i] (from 0) shows [i + 1] rows completed and
    the total less [i + 1] remaining, so that the divisor of the average
    time is never zero and the remaining rows are never negative.  A run
    that ends has printed one line for each row, and the last line shows
    none remaining; a run that a turn of the loops stops has printed fewer
    lines than there are rows. *)
Theorem X3_progress_counts_the_rows
    (setList : list (list bridgeTable.row))
    (Bridges_by_Bus : list (string * list bridgeTable.row)) (brs : bridges.table) :
  setList ≡ₚ Bridges_by_Bus.*2 →
  (∀ (i : nat) c,
     Progress.report_run solve setList Bridges_by_Bus !! i = Some c →
     Progress.x c = Z.of_nat (S i)
     ∧ Progress.totalRows c = (Progress.count_rows setList - Z.of_nat (S i))%Z
     ∧ (1 ≤ Progress.x c)%Z
     ∧ (0 ≤ Progress.totalRows c)%Z)
  ∧ (∀ out,
       Detours.run solve Bridges_by_Bus brs = Py.Val out →
       length (Progress.report_run solve setList Bridges_by_Bus)
       = Z.to_nat (Progress.count_rows setList))
  ∧ (∀ e,
       Bridges_by_Bus ≠ [] →
       Detours.run solve Bridges_by_Bus brs = Py.Raise e →
       (length (Progress.report_run solve setList Bridges_by_Bus)
        < Z.to_nat (Progress.count_rows setList))%nat).
Proof.
  intros Hperm. unfold Progress.report_run.
  set (c0 := {| Progress.x := 0; Progress.totalRows := Progress.count_rows setList |}).
  destruct (progress_dest_loop Bridges_by_Bus None c0 []) as [Hlook Hend].
  assert (Progress.count_rows setList
          = Z.of_nat (sum_list (length <$> Bridges_by_Bus.*2))) as Hcount.
  { rewrite count_rows_sum. by rewrite Hperm. }
  assert (length (Progress.dest_loop solve None c0 Bridges_by_Bus)
          ≤ sum_list (length <$> Bridges_by_Bus.*2))%nat as Hle.
  { destruct (Detours.dest_loop solve None [] Bridges_by_Bus); lia. }
  split; [|split].
  - intros i c Hi. destruct (Hlook _ _ Hi) as [Hx Ht]. cbn in Hx, Ht.
    apply lookup_lt_Some in Hi. repeat split; lia.
  - intros out (_ & tables & Hloop & _)%run_Val. rewrite Hloop in Hend. lia.
  - intros e Hne Hrun.
    destruct (Detours.dest_loop solve None [] Bridges_by_Bus) as [tables|e'] eqn:Hloop;
      [|lia].
    by rewrite (run_of_loop solve _ brs _ Hne Hloop) in Hrun.
Qed.

End ProgressFacts.

Lemma X3_witness :
  length (Progress.report_run Example.solve
            (Traversals.Bridges_by_Bus Example.traversed).*2
            (Traversals.Bridges_by_Bus Example.traversed))
  = Z.to_nat (Progress.count_rows (Traversals.Bridges_by_Bus Example.traversed).*2).
Proof.
  destruct (X3_progress_counts_the_rows Example.solve
              (Traversals.Bridges_by_Bus Example.traversed).*2
              (Traversals.Bridges_by_Bus Example.traversed) Example.the_bridges)
    as (_ & Hend & _).
  - reflexivity.
  - apply (Hend Example.detoured). vm_compute. reflexivity.
Defined.

(** ** The [try] block left early *)

Lemma busDict_head (r : bridgeTable.row) (tbl : list bridgeTable.row) :
  ∃ ps, Detours.pairs (Detours.busDict (r :: tbl))
        = (bridgeTable.Business_ID r, bridgeTable.BRDG_NBR r) :: ps.
Proof.
  unfold Detours.busDict. cbn [foldl].
  assert (∀ rows d b g gs d',
            d = (b, g :: gs) :: d' →
            ∃ gs' d'', foldl Detours.busDict_add d rows = (b, g :: gs') :: d'') as Hgen.
  { induction rows as [|row rows IH]; intros d b g gs d' ->; [by eauto|].
    cbn [foldl]. unfold Detours.busDict_add at 2. case_decide.
    - rewrite fmap_cons. case_decide; simpl; eapply IH; reflexivity.
    - eapply IH. reflexivity. }
  destruct (Hgen tbl (Detours.busDict_add [] r) (bridgeTable.Business_ID r)
              (bridgeTable.BRDG_NBR r) [] [] eq_refl) as (gs' & d'' & ->).
  rewrite pairs_cons. simpl. eauto.
Qed.

Lemma detours_of_empty (solve : string → Z → string → Detours.solution)
    (dest : string) (key0 : option string) :
  Detours.detours_of solve dest key0 []
  = Py.Val {| Detours.key := key0; Detours.detours := [] |}.
Proof. reflexivity. Qed.

(** X4: when the first solve of a run leaves the [try] block early, [key]
    is still unbound when the update cursor compares it with the key of the
    first row, and the script stops with [NameError].  The first solve is
    that of the first row of the first bridge table that has a row; the
    classes before it have empty tables and no solve. *)
Theorem X4_first_solve_failing_stops_the_run
    (solve : string → Z → string → Detours.solution)
    (empties : list (string * list bridgeTable.row))
    (dest : string) (r : bridgeTable.row) (tbl : list bridgeTable.row)
    (rest : list (string * list bridgeTable.row)) (brs : bridges.table) :
  Forall (λ p, p.2 = []) empties →
  solve dest (bridgeTable.Business_ID r) (bridgeTable.BRDG_NBR r) = Detours.Failed →
  Detours.run solve (empties ++ (dest, r :: tbl) :: rest) brs = Py.Raise Py.NameError.
Proof.
  intros Hempty Hfail. unfold Detours.run.
  assert (∀ acc, Detours.dest_loop solve None acc (empties ++ (dest, r :: tbl) :: rest)
                 = Py.Raise Py.NameError) as ->; [|done].
  induction Hempty as [|[d t] empties Ht _ IH]; intros acc.
  - cbn [app Detours.dest_loop].
    unfold Detours.detours_of. rewrite fmap_cons.
    destruct (busDict_head (bridgeTable.set_No_Bridge_Time None r)
                (bridgeTable.set_No_Bridge_Time None <$> tbl)) as (ps & ->).
    cbn [Detours.detour_loop]. unfold Detours.detour.
    cbn [bridgeTable.Business_ID bridgeTable.BRDG_NBR bridgeTable.set_No_Bridge_Time
         bridgeTable.set_detour].
    rewrite Hfail. reflexivity.
  - cbn in Ht. subst t. cbn [app Detours.dest_loop].
    rewrite detours_of_empty. cbn [mbind Py.result_bind Detours.key]. apply IH.
Qed.

Lemma X4_witness :
  Detours.run Example2.solve_failing
    ([("South", [])] ++ [("North", [Example.crossing_B1])])
    Example.the_bridges = Py.Raise Py.NameError.
Proof.
  apply (X4_first_solve_failing_stops_the_run
           Example2.solve_failing [("South", [])] "North" Example.crossing_B1 [] []
           Example.the_bridges).
  - repeat constructor.
  - reflexivity.
Defined.

(** X5: a solve that leaves the [try] block early right after a solve that
    was read back is written under the key of the earlier pair: the rows of
    the earlier pair lose their barred cost and their shape, and every other
    row, those of the pair just solved among them, is left as it was. *)
Theorem X5_failed_solve_erases_the_earlier_pair
    (solve : string → Z → string → Detours.solution) (dest : string)
    (st : Detours.state) (b1 b2 : Z) (g1 g2 : string) :
  solve dest b1 g1 ≠ Detours.Failed →
  solve dest b2 g2 = Detours.Failed →
  ∃ st2,
    Detours.detour_loop solve dest st [(b1, g1); (b2, g2)] = Py.Val st2
    ∧ Detours.key st2 = Some (Detours.format_key b1 g1)
    ∧ ∀ (i : nat) r,
        Detours.detours st !! i = Some r →
        ∃ r', Detours.detours st2 !! i = Some r'
              ∧ (Detours.detKey r = Detours.format_key b1 g1 →
                 bridgeTable.No_Bridge_Time r' = None ∧ bridgeTable.SHAPE r' = None)
              ∧ (Detours.detKey r ≠ Detours.format_key b1 g1 → r' = r).
Proof.
  intros H1 H2. cbn [Detours.detour_loop].
  rewrite detour_solved by done. cbn [mbind Py.result_bind].
  unfold Detours.detour. rewrite H2. cbn [Detours.key_after Detours.key Detours.detours].
  rewrite update_cursor_bound. cbn [mbind Py.result_bind].
  eexists. split; [reflexivity|]. split; [reflexivity|].
  cbn [Detours.detours]. intros i r Hi.
  rewrite !list_lookup_fmap, Hi. simpl. eexists. split; [reflexivity|].
  unfold Detours.updateRow. split.
  - intros Hk. rewrite (decide_True (P := Detours.detKey r = _)) by done.
    rewrite decide_True by done. done.
  - intros Hk. rewrite (decide_False (P := Detours.detKey r = _)) by done.
    by rewrite decide_False.
Qed.

Lemma X5_witness :
  ∃ st2,
    Detours.detour_loop Example2.solve_then_fail "North" Example2.north_start
      [(1%Z, "B1"); (2%Z, "B3")] = Py.Val st2
    ∧ Detours.key st2 = Some (Detours.format_key 1 "B1").
Proof.
  destruct (X5_failed_solve_erases_the_earlier_pair
              Example2.solve_then_fail "North" Example2.north_start 1%Z 2%Z "B1" "B3")
    as (st2 & Hloop & Hkey & _).
  - vm_compute. discriminate.
  - vm_compute. reflexivity.
  - exists st2. split; [exact Hloop|exact Hkey].
Defined.

(** ** What detours.py leaves of a bridge table *)

Section DetourFields.

Variable solve : string → Z → string → Detours.solution.

(** [r'] is [r] but for the barred cost, the shape and the three metrics. *)
Local Abbreviation kept r r' :=
  (r' = bridgeTable.set_DISTW_JOB_DET_TIME (bridgeTable.DISTW_JOB_DET_TIME r')
          (bridgeTable.set_JOB_DET_TIME (bridgeTable.JOB_DET_TIME r')
             (bridgeTable.set_DET_TIME (bridgeTable.DET_TIME r')
                (bridgeTable.set_detour (bridgeTable.No_Bridge_Time r')
                   (bridgeTable.SHAPE r') r)))).

Lemma kept_refl (r : bridgeTable.row) : kept r r.
Proof. by destruct r. Qed.

Lemma kept_trans (r r' r'' : bridgeTable.row) : kept r r' → kept r' r'' → kept r r''.
Proof.
  destruct r, r', r''.
  unfold bridgeTable.set_DISTW_JOB_DET_TIME, bridgeTable.set_JOB_DET_TIME,
    bridgeTable.set_DET_TIME, bridgeTable.set_detour. cbn.
  intros [=] [=]. by subst.
Qed.

Lemma kept_fmap (f : bridgeTable.row → bridgeTable.row) (l l' : list bridgeTable.row) :
  (∀ r, kept r (f r)) → Forall2 (λ r r', kept r r') l l' →
  Forall2 (λ r r', kept r r') l (f <$> l').
Proof.
  intros Hf Hl. apply Forall2_fmap_r.
  eapply Forall2_impl; [exact Hl|]. intros r r' Hr. cbv beta in *.
  eapply kept_trans; [exact Hr|apply Hf].
Qed.

Lemma kept_updateRow k rr (r : bridgeTable.row) : kept r (Detours.updateRow k rr r).
Proof. unfold Detours.updateRow. case_decide; by destruct r. Qed.

Lemma kept_detours_of dest key0 tbl st :
  Detours.detours_of solve dest key0 tbl = Py.Val st →
  Forall2 (λ r r', kept r r') tbl (Detours.detours st).
Proof.
  intros (st0 & Hloop & _ & ->)%detours_of_Val.
  unfold Detours.detour_metrics.
  do 3 (apply kept_fmap; [by intros []|]).
  apply (detour_loop_invariant solve (λ l, Forall2 (λ r r', kept r r') tbl l) dest)
    in Hloop; [exact Hloop| |].
  - intros st1 p st2 (_ & [[-> ->]|(k & _ & ->)])%detour_Val Hinv; [done|].
    apply kept_fmap; [apply kept_updateRow|done].
  - cbn [Detours.detours]. apply kept_fmap; [by intros []|].
    apply Forall_Forall2_diag, Forall_forall. intros r _. apply kept_refl.
Qed.

Lemma kept_dest_loop tables key0 acc out :
  Detours.dest_loop solve key0 acc tables = Py.Val out →
  ∃ tables',
    out = acc ++ tables'
    ∧ Forall2 (λ p p', p.1 = p'.1 ∧ Forall2 (λ r r', kept r r') p.2 p'.2) tables tables'.
Proof.
  revert key0 acc. induction tables as [|[dest tbl] tables IH]; intros key0 acc.
  - intros [= <-]. exists []. by rewrite app_nil_r.
  - cbn [Detours.dest_loop].
    destruct (Detours.detours_of solve dest key0 tbl) as [st|e] eqn:Hst; [|done].
    cbn [mbind Py.result_bind]. intros (tables' & -> & Htables)%IH.
    exists ((dest, Detours.detours st) :: tables'). split; [by rewrite <- app_assoc|].
    constructor; [|done]. split; [done|]. by eapply kept_detours_of.
Qed.

(** X6: a run of detours.py that ends gives one detour table for each
    bridge table, under the same name and in the same order, with the same
    number of rows; a row of it is the row of the bridge table at the same
    place but for the barred cost, the shape and the three metrics, so that
    the business, the bridge, the baseline cost and the truck intensities are
    as the traversal step left them. *)
Theorem X6_detour_tables_keep_the_bridge_tables
    (Bridges_by_Bus : list (string * list bridgeTable.row)) (brs : bridges.table)
    (out : Detours.output) :
  Detours.run solve Bridges_by_Bus brs = Py.Val out →
  Forall2
    (λ p p', p.1 = p'.1
             ∧ Forall2
                 (λ r r',
                    r' = bridgeTable.set_DISTW_JOB_DET_TIME
                           (bridgeTable.DISTW_JOB_DET_TIME r')
                           (bridgeTable.set_JOB_DET_TIME (bridgeTable.JOB_DET_TIME r')
                              (bridgeTable.set_DET_TIME (bridgeTable.DET_TIME r')
                                 (bridgeTable.set_detour (bridgeTable.No_Bridge_Time r')
                                    (bridgeTable.SHAPE r') r))))
                 p.2 p'.2)
    Bridges_by_Bus (Detours.detours_tables out).
Proof.
  intros (_ & tables & Hloop & ->)%run_Val.
  apply kept_dest_loop in Hloop as (tables' & -> & Htables). exact Htables.
Qed.

End DetourFields.

Lemma X6_witness :
  Forall2
    (λ p p', p.1 = p'.1
             ∧ Forall2
                 (λ r r',
                    r' = bridgeTable.set_DISTW_JOB_DET_TIME
                           (bridgeTable.DISTW_JOB_DET_TIME r')
                           (bridgeTable.set_JOB_DET_TIME (bridgeTable.JOB_DET_TIME r')
                              (bridgeTable.set_DET_TIME (bridgeTable.DET_TIME r')
                                 (bridgeTable.set_detour (bridgeTable.No_Bridge_Time r')
                                    (bridgeTable.SHAPE r') r))))
                 p.2 p'.2)
    (Traversals.Bridges_by_Bus Example.traversed)
    (Detours.detours_tables Example.detoured).
Proof.
  apply (X6_detour_tables_keep_the_bridge_tables
           Example.solve (Traversals.Bridges_by_Bus Example.traversed)
           Example.the_bridges Example.detoured).
  vm_compute. reflexivity.
Defined.

(** ** The sums joined to the bridges *)

Lemma foldl_Qcplus (qs : list Qc) (q : Qc) : foldl Qcplus q qs = q + Qc_sum qs.
Proof.
  revert q. induction qs as [|a qs IH]; intros q; cbn [foldl].
  - unfold Qc_sum. cbn. ring.
  - rewrite IH. unfold Qc_sum. cbn [foldr]. ring.
Qed.

Lemma Qc_sum_app (l1 l2 : list Qc) : Qc_sum (l1 ++ l2) = Qc_sum l1 + Qc_sum l2.
Proof.
  induction l1 as [|a l1 IH].
  - unfold Qc_sum. cbn. ring.
  - unfold Qc_sum in *. cbn [app foldr]. rewrite IH. ring.
Qed.

Lemma omap_id_fmap {A B : Type} (f : A → option B) (l : list A) :
  omap id (f <$> l) = omap f l.
Proof.
  induction l as [|a l IH]; [done|].
  rewrite fmap_cons. cbn [omap list_omap]. by rewrite IH.
Qed.

Lemma sum_field_values {A : Type} (fld : A → Py.value) (l : list A) :
  omap fld l ≠ [] → Arc.sum_field (fld <$> l) = Some (Qc_sum (omap fld l)).
Proof.
  unfold Arc.sum_field, Py.value in *. rewrite omap_id_fmap.
  destruct (omap fld l) as [|q qs]; [done|]. intros _.
  rewrite foldl_Qcplus. reflexivity.
Qed.

Lemma sum_over_classes (fld : bridgeTable.row → Py.value) (nbr : string)
    (tables : list (string * list bridgeTable.row)) :
  Qc_sum (omap fld (filter (λ r, bridgeTable.BRDG_NBR r = nbr) (tables ≫= snd)))
  = Qc_sum ((λ p, Qc_sum (omap fld (filter (λ r, bridgeTable.BRDG_NBR r = nbr) p.2)))
              <$> tables).
Proof.
  induction tables as [|p tables IH]; [done|].
  rewrite bind_cons, filter_app, omap_app, Qc_sum_app, IH, fmap_cons. reflexivity.
Qed.

Lemma first_match_groups {A K : Type} `{EqDecision K}
    (key : A → K) (f : K → A) (ks : list K) (k : K) :
  (∀ k', key (f k') = k') →
  Arc.first_match key k (f <$> remove_dups ks)
  = if decide (k ∈ ks) then Some (f k) else None.
Proof.
  intros Hkey. rewrite <- (decide_ext _ _ _ _ (elem_of_remove_dups ks k)).
  induction (remove_dups ks) as [|k0 l IH].
  - rewrite decide_False; [done|apply not_elem_of_nil].
  - rewrite fmap_cons. cbn [Arc.first_match]. rewrite Hkey.
    destruct (decide (k0 = k)) as [->|Hne].
    + by rewrite decide_True by apply list_elem_of_here.
    + rewrite IH. destruct (decide (k ∈ l)) as [Hin|Hnin].
      * by rewrite decide_True by (by apply list_elem_of_further).
      * rewrite decide_False; [done|].
        intros [?|?]%elem_of_cons; [by subst|done].
Qed.

Section DetourSums.

Variable solve : string → Z → string → Detours.solution.

Local Abbreviation of_bridge b := (filter (λ r, bridgeTable.BRDG_NBR r = bridges.BRDG_NBR b)).

Lemma run_out_bridges Bridges_by_Bus brs out :
  Detours.run solve Bridges_by_Bus brs = Py.Val out →
  Detours.out_bridges out
  = Detours.JoinField_sums
      (Detours.Detours_by_Bridge (Detours.detours_tables out ≫= snd)) brs.
Proof.
  by intros (_ & tables & _ & ->)%run_Val.
Qed.

(** X8: [Merge], [Frequency] and [JoinField] at the end of detours.py.
    Every bridge keeps its place, its number and all the fields it had.  A
    bridge that no row of the detour tables names gets three null sums.  For
    a bridge with at least one detour time among its rows, the joined
    [DET_TIME_SUM] is the sum, over the destination classes, of the detour
    times of the rows of the bridge in the detour table of the class, the
    null ones left out; likewise for the two job-weighted sums. *)
Theorem X8_detour_sums_add_up_over_the_classes
    (Bridges_by_Bus : list (string * list bridgeTable.row)) (brs : bridges.table)
    (out : Detours.output) (i : nat) (b0 : bridges.row) :
  Detours.run solve Bridges_by_Bus brs = Py.Val out →
  bridges.rows brs !! i = Some b0 →
  ∃ b,
    bridges.rows (Detours.out_bridges out) !! i = Some b
    ∧ bridges.BRDG_NBR b = bridges.BRDG_NBR b0
    ∧ (∀ f, f ∉ [Detours.detSum; Detours.jobDetSum; Detours.distWDetTimeSum] →
            bridges.get f b = bridges.get f b0)
    ∧ (bridges.BRDG_NBR b0 ∉ bridgeTable.BRDG_NBR <$> (Detours.detours_tables out ≫= snd) →
       bridges.get Detours.detSum b = None
       ∧ bridges.get Detours.jobDetSum b = None
       ∧ bridges.get Detours.distWDetTimeSum b = None)
    ∧ (omap bridgeTable.DET_TIME (of_bridge b0 (Detours.detours_tables out ≫= snd)) ≠ [] →
       bridges.get Detours.detSum b
       = Some (Qc_sum ((λ p, Qc_sum (omap bridgeTable.DET_TIME (of_bridge b0 p.2)))
                         <$> Detours.detours_tables out)))
    ∧ (omap bridgeTable.JOB_DET_TIME (of_bridge b0 (Detours.detours_tables out ≫= snd))
       ≠ [] →
       bridges.get Detours.jobDetSum b
       = Some (Qc_sum ((λ p, Qc_sum (omap bridgeTable.JOB_DET_TIME (of_bridge b0 p.2)))
                         <$> Detours.detours_tables out)))
    ∧ (omap bridgeTable.DISTW_JOB_DET_TIME
         (of_bridge b0 (Detours.detours_tables out ≫= snd)) ≠ [] →
       bridges.get Detours.distWDetTimeSum b
       = Some (Qc_sum ((λ p, Qc_sum (omap bridgeTable.DISTW_JOB_DET_TIME
                                       (of_bridge b0 p.2)))
                         <$> Detours.detours_tables out))).
Proof.
  intros Hrun Hi. rewrite (run_out_bridges _ _ _ Hrun).
  cbn [Detours.JoinField_sums bridges.rows]. rewrite list_lookup_fmap, Hi.
  eexists. split; [reflexivity|].
  unfold Detours.join_sums, Detours.Detours_by_Bridge.
  rewrite first_match_groups by done.
  destruct (decide (bridges.BRDG_NBR b0
                      ∈ bridgeTable.BRDG_NBR <$> (Detours.detours_tables out ≫= snd)))
    as [Hin|Hnin].
  - split; [done|]. split.
    { intros f Hf. rewrite !not_elem_of_cons in Hf. destruct Hf as (? & ? & ? & _).
      by rewrite !get_set_ne by done. }
    split; [done|].
    cbn [Detours.DET_TIME_SUM Detours.JOB_DET_TIME_SUM Detours.DISTW_JOB_DET_TIME_SUM].
    split; [|split]; intros Hsome.
    + rewrite !get_set_ne, get_set_eq by done.
      by rewrite sum_field_values, sum_over_classes.
    + rewrite get_set_ne, get_set_eq by done.
      by rewrite sum_field_values, sum_over_classes.
    + rewrite get_set_eq.
      by rewrite sum_field_values, sum_over_classes.
  - split; [done|]. split.
    { intros f Hf. rewrite !not_elem_of_cons in Hf. destruct Hf as (? & ? & ? & _).
      by rewrite !get_set_ne by done. }
    split.
    { intros _. rewrite get_set_eq. repeat split.
      - by rewrite !get_set_ne, get_set_eq by done.
      - by rewrite get_set_ne, get_set_eq by done. }
    rewrite (filter_absent _ _ Hnin). by repeat split.
Qed.

End DetourSums.

Lemma X8_witness :
  ∃ b, bridges.rows (Detours.out_bridges Example.detoured) !! 1%nat = Some b
       ∧ bridges.BRDG_NBR b = bridges.BRDG_NBR Example.bridge_B2.
Proof.
  destruct (X8_detour_sums_add_up_over_the_classes
              Example.solve (Traversals.Bridges_by_Bus Example.traversed)
              Example.the_bridges Example.detoured 1%nat Example.bridge_B2)
    as (b & Hb & Hnbr & _).
  - vm_compute. reflexivity.
  - vm_compute. reflexivity.
  - exists b. split; [exact Hb|exact Hnbr].
Defined.

(** ** The null metrics *)

(** X7: in the detour tables of a run that ends, a detour time is null
    exactly when the barred cost or the baseline cost of the row is null, and
    a job-weighted detour time is null exactly when, besides, the truck
    intensity it is weighted with is null: no error of the arithmetic is
    lost, and no value is stored where an operand is missing. *)
Theorem X7_metric_null_iff_operand_null
    (solve : string → Z → string → Detours.solution)
    (Bridges_by_Bus : list (string * list bridgeTable.row)) (brs : bridges.table)
    (out : Detours.output) (dest : string) (tbl : list bridgeTable.row)
    (r : bridgeTable.row) :
  Detours.run solve Bridges_by_Bus brs = Py.Val out →
  (dest, tbl) ∈ Detours.detours_tables out →
  r ∈ tbl →
  (bridgeTable.DET_TIME r = None
   ↔ bridgeTable.No_Bridge_Time r = None ∨ bridgeTable.Base_Length r = None)
  ∧ (bridgeTable.JOB_DET_TIME r = None
     ↔ bridgeTable.No_Bridge_Time r = None ∨ bridgeTable.Base_Length r = None
       ∨ bridgeTable.Truck_Int r = None)
  ∧ (bridgeTable.DISTW_JOB_DET_TIME r = None
     ↔ bridgeTable.No_Bridge_Time r = None ∨ bridgeTable.Base_Length r = None
       ∨ bridgeTable.Truck_Int_DW r = None).
Proof.
  intros Hrun Htbl Hr.
  destruct (run_metrics solve _ _ _ _ _ _ Hrun Htbl Hr) as (Hdet & Hjob & Hdw).
  rewrite Hjob, Hdw. unfold Detours.multExp, Detours.multExp_DW. rewrite Hdet.
  unfold Detours.subtractExp.
  destruct (bridgeTable.No_Bridge_Time r), (bridgeTable.Base_Length r),
    (bridgeTable.Truck_Int r), (bridgeTable.Truck_Int_DW r); cbn;
    intuition congruence.
Qed.

Lemma X7_witness :
  bridgeTable.DET_TIME Example.detour_B3 = None
  ↔ bridgeTable.No_Bridge_Time Example.detour_B3 = None
    ∨ bridgeTable.Base_Length Example.detour_B3 = None.
Proof.
  apply (X7_metric_null_iff_operand_null
           Example.solve (Traversals.Bridges_by_Bus Example.traversed)
           Example.the_bridges Example.detoured "North" Example.north_detours).
  - vm_compute. reflexivity.
  - vm_compute. apply list_elem_of_here.
  - vm_compute. apply list_elem_of_further, list_elem_of_here.
Defined.

(** * Further properties of traversals.py *)

(** ** The rows of a bridge table *)

Lemma count_key {A B K : Type} `{EqDecision K} (f : A → K) (g : B → K)
    (l : list A) (l' : list B) (k : K) :
  f <$> l = g <$> l' →
  length (filter (λ a, f a = k) l) = length (filter (λ b, g b = k) l').
Proof.
  revert l'. induction l as [|a l IH]; intros [|b l']; try done.
  rewrite !fmap_cons. intros [= Hab Hl]. specialize (IH _ Hl).
  destruct (decide (f a = k)) as [Hk|Hk].
  - rewrite !filter_cons_True by congruence. simpl. by rewrite IH.
  - rewrite !filter_cons_False by congruence. done.
Qed.

Lemma crossings_with_bridge (sj : list routesBridgesSJ.row) :
  (λ c, (routesBridgesSJ.IncidentID c.2, Some c.1, routesBridgesSJ.X_COORD c.2,
         routesBridgesSJ.Y_COORD c.2, routesBridgesSJ.Total_Length c.2,
         routesBridgesSJ.SHAPE c.2))
    <$> Traversals.crossings sj
  = (λ s, (routesBridgesSJ.IncidentID s, routesBridgesSJ.BRDG_NBR s,
           routesBridgesSJ.X_COORD s, routesBridgesSJ.Y_COORD s,
           routesBridgesSJ.Total_Length s, routesBridgesSJ.SHAPE s))
      <$> filter (λ s, routesBridgesSJ.BRDG_NBR s ≠ None) sj.
Proof.
  unfold Traversals.crossings. induction sj as [|s sj IH]; [done|].
  cbn [omap list_omap]. destruct (routesBridgesSJ.BRDG_NBR s) as [nbr|] eqn:Hs.
  - rewrite filter_cons_True by congruence. cbn. rewrite Hs. by f_equal.
  - rewrite filter_cons_False by (intros H; by apply H). exact IH.
Qed.

Lemma crossings_count (sj : list routesBridgesSJ.row) (nbr : string) :
  length (filter (λ c, c.1 = nbr) (Traversals.crossings sj))
  = length (filter (λ s, routesBridgesSJ.BRDG_NBR s = Some nbr) sj).
Proof.
  unfold Traversals.crossings. induction sj as [|s sj IH]; [done|].
  cbn [omap list_omap].
  destruct (routesBridgesSJ.BRDG_NBR s) as [nbr'|] eqn:Hs; cbn -[filter].
  - destruct (decide (nbr' = nbr)) as [->|Hne].
    + rewrite !filter_cons_True by (by rewrite ?Hs). simpl. by rewrite IH.
    + rewrite !filter_cons_False by (rewrite ?Hs; cbn; congruence). done.
  - rewrite filter_cons_False by (by rewrite Hs). done.
Qed.

Lemma written_cons (inserted : nat → bool) (c : string * routesBridgesSJ.row)
    (cs : list (string * routesBridgesSJ.row)) :
  Traversals.written inserted (c :: cs)
  = (if inserted 0%nat then [c] else []) ++ Traversals.written (inserted ∘ S) cs.
Proof.
  unfold Traversals.written. rewrite imap_cons. cbn [omap list_omap].
  destruct (inserted 0%nat); cbn; f_equal; by apply imap_ext.
Qed.

Lemma written_all (inserted : nat → bool) (cs : list (string * routesBridgesSJ.row)) :
  (∀ i, inserted i = true) → Traversals.written inserted cs = cs.
Proof.
  revert inserted. induction cs as [|c cs IH]; intros inserted Hall; [done|].
  rewrite written_cons, Hall, IH; [done|]. intros i. apply Hall.
Qed.

Lemma written_elem_of (inserted : nat → bool) (cs : list (string * routesBridgesSJ.row))
    (c : string * routesBridgesSJ.row) :
  c ∈ Traversals.written inserted cs → c ∈ cs.
Proof.
  revert inserted. induction cs as [|c' cs IH]; intros inserted.
  - intros H. by apply elem_of_nil in H.
  - rewrite written_cons. intros [Hc|Hc]%elem_of_app.
    + destruct (inserted 0%nat); [|by apply elem_of_nil in Hc].
      apply list_elem_of_singleton in Hc as ->. apply list_elem_of_here.
    + apply list_elem_of_further. by apply (IH (inserted ∘ S)).
Qed.

Lemma written_count (inserted : nat → bool) (cs : list (string * routesBridgesSJ.row))
    (nbr : string) :
  (length (filter (λ c, c.1 = nbr) (Traversals.written inserted cs))
   ≤ length (filter (λ c, c.1 = nbr) cs))%nat.
Proof.
  revert inserted. induction cs as [|c cs IH]; intros inserted; [done|].
  rewrite written_cons, filter_app, length_app. specialize (IH (inserted ∘ S)).
  destruct (decide (c.1 = nbr)) as [Hc|Hc].
  - rewrite (filter_cons_True _ c cs) by done.
    destruct (inserted 0%nat); [rewrite filter_cons_True by done|]; cbn; lia.
  - rewrite (filter_cons_False _ c cs) by done.
    destruct (inserted 0%nat); [rewrite filter_cons_False by done|]; cbn; lia.
Qed.

Lemma elem_of_crossings (sj : list routesBridgesSJ.row)
    (c : string * routesBridgesSJ.row) :
  c ∈ Traversals.crossings sj → c.2 ∈ sj ∧ routesBridgesSJ.BRDG_NBR c.2 = Some c.1.
Proof.
  unfold Traversals.crossings. intros (s & Hs & Hc)%list_elem_of_omap.
  destruct (routesBridgesSJ.BRDG_NBR s) as [nbr|] eqn:Hnbr; [|done].
  cbn in Hc. by simplify_eq.
Qed.

Section BridgeTableRows.

Variable Shape_Length : Qc → Qc → Qc → Qc → Qc.
Variable routesBridgesSJ : string → list routesBridgesSJ.row.
Variable inserted : string → nat → bool.
Variable cfg : Traversals.settings.

Lemma build_crossings (bs : list businesses.row) (dest : string) :
  (λ r, (bridgeTable.OBJECTID r, bridgeTable.Business_ID r, bridgeTable.BRDG_NBR r,
         bridgeTable.Bridge_X r, bridgeTable.Bridge_Y r, bridgeTable.Base_Length r,
         bridgeTable.SHAPE r))
    <$> Traversals.build_bridgeTable Shape_Length routesBridgesSJ inserted cfg bs dest
  = imap (λ i c, (Z.of_nat (S i), routesBridgesSJ.IncidentID c.2, c.1,
                  routesBridgesSJ.X_COORD c.2, routesBridgesSJ.Y_COORD c.2,
                  routesBridgesSJ.Total_Length c.2, routesBridgesSJ.SHAPE c.2))
      (Traversals.written (inserted dest) (Traversals.crossings (routesBridgesSJ dest))).
Proof.
  unfold Traversals.build_bridgeTable. cbv zeta.
  rewrite <- !list_fmap_compose, fmap_imap.
  apply imap_ext. intros i c _. cbn.
  unfold Traversals.join_distance, Traversals.join_businesses.
  repeat case_match; reflexivity.
Qed.

(** X9: the bridge table of a destination class, of traversals.py read
    without the stray tokens of lines 125 and 208.  Every row of it comes
    from a row of the spatial join of the routes with the bridges that has a
    bridge number: the business is the incident of the route, and the
    bridge, its coordinates, the baseline cost and the shape are those of
    the joined row; the object ids count the rows from one; and a bridge has
    at most as many rows as joined rows name it.  When no cursor raises, the
    table holds one row for each joined row with a bridge number, in the
    order of the join, so that a route that crosses no bridge gives no row
    and a bridge has as many rows as routes cross it. *)
Theorem X9_bridge_table_rows_are_the_crossings
    (bs : list businesses.row) (brs : bridges.table) (dests : list string)
    (dest : string) (tbl : list bridgeTable.row) :
  (dest, tbl)
    ∈ Traversals.Bridges_by_Bus
        (Traversals.run Shape_Length routesBridgesSJ inserted cfg bs brs dests) →
  (∀ (i : nat) r,
     tbl !! i = Some r →
     bridgeTable.OBJECTID r = Z.of_nat (S i)
     ∧ ∃ s, s ∈ routesBridgesSJ dest
            ∧ routesBridgesSJ.BRDG_NBR s = Some (bridgeTable.BRDG_NBR r)
            ∧ routesBridgesSJ.IncidentID s = bridgeTable.Business_ID r
            ∧ routesBridgesSJ.X_COORD s = bridgeTable.Bridge_X r
            ∧ routesBridgesSJ.Y_COORD s = bridgeTable.Bridge_Y r
            ∧ routesBridgesSJ.Total_Length s = bridgeTable.Base_Length r
            ∧ routesBridgesSJ.SHAPE s = bridgeTable.SHAPE r)
  ∧ (∀ nbr, (length (filter (λ r, bridgeTable.BRDG_NBR r = nbr) tbl)
             ≤ length (filter (λ s, routesBridgesSJ.BRDG_NBR s = Some nbr)
                         (routesBridgesSJ dest)))%nat)
  ∧ ((∀ i, inserted dest i = true) →
     (λ r, (bridgeTable.Business_ID r, Some (bridgeTable.BRDG_NBR r),
            bridgeTable.Bridge_X r, bridgeTable.Bridge_Y r, bridgeTable.Base_Length r,
            bridgeTable.SHAPE r)) <$> tbl
     = (λ s, (routesBridgesSJ.IncidentID s, routesBridgesSJ.BRDG_NBR s,
              routesBridgesSJ.X_COORD s, routesBridgesSJ.Y_COORD s,
              routesBridgesSJ.Total_Length s, routesBridgesSJ.SHAPE s))
         <$> filter (λ s, routesBridgesSJ.BRDG_NBR s ≠ None) (routesBridgesSJ dest)
     ∧ ∀ nbr, length (filter (λ r, bridgeTable.BRDG_NBR r = nbr) tbl)
              = length (filter (λ s, routesBridgesSJ.BRDG_NBR s = Some nbr)
                          (routesBridgesSJ dest))).
Proof.
  rewrite run_Bridges_by_Bus.
  intros (d & [= <- ->] & _)%list_elem_of_fmap.
  pose proof (build_crossings (Traversals.calc_Truck_Int dests bs) dest) as Hb.
  set (cs := Traversals.written (inserted dest)
               (Traversals.crossings (routesBridgesSJ dest))) in *.
  assert (bridgeTable.BRDG_NBR
            <$> Traversals.build_bridgeTable Shape_Length routesBridgesSJ inserted cfg
                  (Traversals.calc_Truck_Int dests bs) dest
          = fst <$> cs) as Hkeys.
  { apply (f_equal (fmap (λ x : Z * Z * string * Py.value * Py.value * Py.value
                                * option polyline, x.1.1.1.1.2))) in Hb.
    rewrite <- list_fmap_compose, fmap_imap in Hb.
    etrans; [exact Hb|]. rewrite <- imap_const. by apply imap_ext. }
  split; [|split].
  - intros i r Hi. apply (f_equal (λ l, l !! i)) in Hb.
    rewrite list_lookup_fmap, Hi, list_lookup_imap in Hb.
    destruct (cs !! i) as [c|] eqn:Hc; [|done]. cbn in Hb. injection Hb as -> -> -> -> -> -> ->.
    split; [done|].
    apply list_elem_of_lookup_2, written_elem_of, elem_of_crossings in Hc as [Hs Hnbr].
    by exists c.2.
  - intros nbr. rewrite <- crossings_count, (count_key _ fst _ cs nbr Hkeys).
    apply written_count.
  - intros Hall. assert (cs = Traversals.crossings (routesBridgesSJ dest)) as Hcs.
    { unfold cs. by apply written_all. }
    rewrite Hcs in Hb, Hkeys. split.
    + rewrite <- crossings_with_bridge.
      apply (f_equal (fmap (λ x : Z * Z * string * Py.value * Py.value * Py.value
                                  * option polyline,
                              (x.1.1.1.1.1.2, Some x.1.1.1.1.2, x.1.1.1.2, x.1.1.2,
                               x.1.2, x.2)))) in Hb.
      rewrite <- list_fmap_compose, fmap_imap in Hb.
      etrans; [exact Hb|]. rewrite <- imap_const. by apply imap_ext.
    + intros nbr. rewrite <- crossings_count. by apply count_key.
Qed.

End BridgeTableRows.

Lemma X9_witness : bridgeTable.OBJECTID Example.crossing_B1 = Z.of_nat 1.
Proof.
  destruct (X9_bridge_table_rows_are_the_crossings
              Example.Shape_Length Example.routesBridgesSJ Example.inserted
              Traversals.default_settings
              Example.the_businesses Example.the_bridges Example.dests
              "North" Example.north_table) as (Hid & _).
  - vm_compute. apply list_elem_of_here.
  - apply (Hid 0%nat). vm_compute. reflexivity.
Defined.

(** ** The businesses joined to a bridge table *)

Lemma first_match_fmap {A K : Type} `{EqDecision K} (key : A → K) (g : A → A)
    (k : K) (l : list A) :
  (∀ a, key (g a) = key a) →
  Arc.first_match key k (g <$> l) = g <$> Arc.first_match key k l.
Proof.
  intros Hg. induction l as [|a l IH]; [done|].
  rewrite fmap_cons. cbn [Arc.first_match]. rewrite Hg. by case_decide.
Qed.

Section BusinessJoin.

Variable Shape_Length : Qc → Qc → Qc → Qc → Qc.
Variable routesBridgesSJ : string → list routesBridgesSJ.row.
Variable inserted : string → nat → bool.
Variable cfg : Traversals.settings.

(** X10: what a row of a bridge table takes from the businesses, in
    traversals.py read without the stray tokens of lines 125 and 208.  The
    truck intensity and the coordinates are those of the first business
    whose object id is the business of the row, the intensity being the raw
    one over the number of destination classes; a row whose business is not
    among the businesses gets nulls in the three. *)
Theorem X10_business_joined_to_a_row
    (bs : list businesses.row) (brs : bridges.table) (dests : list string)
    (dest : string) (tbl : list bridgeTable.row) (r : bridgeTable.row) :
  (dest, tbl)
    ∈ Traversals.Bridges_by_Bus
        (Traversals.run Shape_Length routesBridgesSJ inserted cfg bs brs dests) →
  r ∈ tbl →
  (∀ b, Arc.first_match businesses.OBJECTID (bridgeTable.Business_ID r) bs = Some b →
        bridgeTable.Truck_Int r
        = Arc.stored (Traversals.Truck_Int_exp (length dests) b)
        ∧ bridgeTable.Business_X r = businesses.POINT_X b
        ∧ bridgeTable.Business_Y r = businesses.POINT_Y b)
  ∧ (bridgeTable.Business_ID r ∉ businesses.OBJECTID <$> bs →
     bridgeTable.Truck_Int r = None
     ∧ bridgeTable.Business_X r = None ∧ bridgeTable.Business_Y r = None).
Proof.
  rewrite run_Bridges_by_Bus.
  intros (d & [= <- ->] & _)%list_elem_of_fmap.
  unfold Traversals.build_bridgeTable. cbv zeta.
  intros (r3 & -> & (r2 & -> & (r1 & -> & Hr1)%list_elem_of_fmap)%list_elem_of_fmap)
           %list_elem_of_fmap.
  pose proof Hr1 as (r0 & -> & Hr0)%list_elem_of_fmap.
  set (bs' := Traversals.calc_Truck_Int dests bs) in *.
  set (t1 := Traversals.join_businesses bs' <$> imap Traversals.insertRow _) in *.
  assert (Arc.first_match businesses.OBJECTID (bridgeTable.Business_ID r0) bs'
          = (λ b, businesses.set_Truck_Int
                    (Arc.stored (Traversals.Truck_Int_exp (length dests) b)) b)
              <$> Arc.first_match businesses.OBJECTID (bridgeTable.Business_ID r0) bs)
    as Hfirst.
  { unfold bs', Traversals.calc_Truck_Int. by apply first_match_fmap. }
  assert (bridgeTable.Business_ID (Traversals.join_businesses bs' r0)
          = bridgeTable.Business_ID r0) as Hid.
  { unfold Traversals.join_businesses. by case_match. }
  split.
  - intros b Hb. cbn. unfold Traversals.join_distance.
    assert (bridgeTable.Truck_Int (Traversals.join_businesses bs' r0)
            = Arc.stored (Traversals.Truck_Int_exp (length dests) b)
            ∧ bridgeTable.Business_X (Traversals.join_businesses bs' r0)
              = businesses.POINT_X b
            ∧ bridgeTable.Business_Y (Traversals.join_businesses bs' r0)
              = businesses.POINT_Y b) as Hjb.
    { cbn in Hb. unfold Traversals.join_distance in Hb.
      assert (Arc.first_match businesses.OBJECTID (bridgeTable.Business_ID r0) bs
              = Some b) as Hb0.
      { rewrite <- Hb. f_equal. case_match; cbn; by rewrite Hid. }
      unfold Traversals.join_businesses. rewrite Hfirst, Hb0. done. }
    by case_match.
  - intros Hnin. cbn. unfold Traversals.join_distance.
    assert (bridgeTable.Truck_Int (Traversals.join_businesses bs' r0) = None
            ∧ bridgeTable.Business_X (Traversals.join_businesses bs' r0) = None
            ∧ bridgeTable.Business_Y (Traversals.join_businesses bs' r0) = None) as Hjb.
    { cbn in Hnin. unfold Traversals.join_distance in Hnin.
      assert (bridgeTable.Business_ID r0 ∉ businesses.OBJECTID <$> bs) as Hnin0.
      { intros Hin. apply Hnin. case_match; cbn; by rewrite Hid. }
      unfold Traversals.join_businesses.
      by rewrite Hfirst, (first_match_None _ _ _ Hnin0). }
    by case_match.
Qed.

End BusinessJoin.

Lemma X10_witness :
  bridgeTable.Truck_Int Example.crossing_B1
  = Arc.stored (Traversals.Truck_Int_exp (length Example.dests)
                  {| businesses.OBJECTID := 1;
                     businesses.POINT_X := Some (Example.q 0);
                     businesses.POINT_Y := Some (Example.q 0);
                     businesses.Truck_Int_Raw := Some (Example.q 20);
                     businesses.Truck_Int := None |}).
Proof.
  apply (X10_business_joined_to_a_row
           Example.Shape_Length Example.routesBridgesSJ Example.inserted
           Traversals.default_settings
           Example.the_businesses Example.the_bridges Example.dests
           "North" Example.north_table Example.crossing_B1).
  - vm_compute. apply list_elem_of_here.
  - vm_compute. apply list_elem_of_here.
  - vm_compute. reflexivity.
Defined.

(** ** What traversals.py leaves of the bridges *)

Lemma wild_TRAV_sums :
  Arc.wild "*_TRAV_*" "BUS_TRAV_SUM" = true
  ∧ Arc.wild "*_TRAV_*" "JOB_TRAV_SUM" = true
  ∧ Arc.wild "*_TRAV_*" "DISTW_JOB_TRAV_SUM" = true.
Proof. repeat split; vm_compute; reflexivity. Qed.

Lemma class_field_wild (dest f : string) :
  f ∈ [Traversals.freqField dest; Traversals.jobFreqField dest;
       Traversals.jobDWFreqField dest] →
  Arc.wild "*_TRAV_*" f = true.
Proof.
  destruct (wild_TRAV_fields dest) as (W1 & W2 & W3). intros Hf.
  repeat (apply elem_of_cons in Hf as [->|Hf]); try done. by apply elem_of_nil in Hf.
Qed.

Section BridgesKept.

Variable Shape_Length : Qc → Qc → Qc → Qc → Qc.
Variable routesBridgesSJ : string → list routesBridgesSJ.row.
Variable inserted : string → nat → bool.
Variable cfg : Traversals.settings.

Local Abbreviation class_fields dests :=
  (dests ≫= λ dest, [Traversals.freqField dest; Traversals.jobFreqField dest;
                     Traversals.jobDWFreqField dest]).

Local Abbreviation joined bs brs dests :=
  (foldl (λ t dest,
            Traversals.JoinField_freq dest
              (Traversals.Frequency_analysis
                 (Traversals.build_bridgeTable Shape_Length routesBridgesSJ inserted cfg
                    (Traversals.calc_Truck_Int dests bs) dest)) t)
         brs dests).

Lemma run_ws_bridges bs brs dests :
  Traversals.ws_bridges (Traversals.run Shape_Length routesBridgesSJ inserted cfg bs brs dests)
  = Traversals.sum_fields "DISTW_JOB_TRAV_SUM" "*_TRAV_JOB_DISTW"
      (Traversals.sum_fields "JOB_TRAV_SUM" "*_TRAV_JOB"
         (Traversals.sum_fields "BUS_TRAV_SUM" "*_TRAV_BUS*"
            (Traversals.replace_nulls (joined bs brs dests)))).
Proof. unfold Traversals.run. cbn. by rewrite foldl_traverse. Qed.

(** X11: traversals.py, read without the stray tokens of lines 125 and
    208, adds to the bridges the three fields of each
    destination class, in the order of the classes, and then the three sum
    fields.  It adds and drops no bridge and keeps their order and their
    numbers, and a field whose name does not have [_TRAV_] in it holds at the
    end what it held at the start. *)
Theorem X11_traversals_keeps_the_bridges
    (bs : list businesses.row) (brs : bridges.table) (dests : list string) :
  bridges.schema
    (Traversals.ws_bridges (Traversals.run Shape_Length routesBridgesSJ inserted cfg bs brs dests))
  = bridges.schema brs ++ class_fields dests
    ++ ["BUS_TRAV_SUM"; "JOB_TRAV_SUM"; "DISTW_JOB_TRAV_SUM"]
  ∧ bridges.BRDG_NBR
      <$> bridges.rows
            (Traversals.ws_bridges
               (Traversals.run Shape_Length routesBridgesSJ inserted cfg bs brs dests))
    = bridges.BRDG_NBR <$> bridges.rows brs
  ∧ ∀ (i : nat) b0,
      bridges.rows brs !! i = Some b0 →
      ∃ b,
        bridges.rows
          (Traversals.ws_bridges
             (Traversals.run Shape_Length routesBridgesSJ inserted cfg bs brs dests)) !! i
        = Some b
        ∧ ∀ f, Arc.wild "*_TRAV_*" f = false → bridges.get f b = bridges.get f b0.
Proof.
  rewrite run_ws_bridges, !sum_fields_rows. unfold Traversals.replace_nulls.
  rewrite replace_nulls_fold, JoinField_freq_fold.
  cbn [bridges.schema bridges.rows]. split; [|split].
  - by rewrite <- !app_assoc.
  - rewrite <- !list_fmap_compose. apply list_fmap_ext. intros i b _. cbn.
    by rewrite zeroNulls_fold_BRDG_NBR, join_freq_fold_BRDG_NBR.
  - intros i b0 Hi. rewrite !list_lookup_fmap, Hi. cbn [fmap option_fmap option_map].
    eexists. split; [reflexivity|]. intros f Hf.
    destruct wild_TRAV_sums as (W1 & W2 & W3).
    rewrite !get_sum_row by (intros <-; congruence).
    rewrite zeroNulls_fold_get, decide_False.
    + apply join_all_other. intros dest _ Hin%class_field_wild. congruence.
    + intros [Hw _]%elem_of_ListFields. congruence.
Qed.

Lemma sumExp_no_null (fields : list string) (r : bridges.row) :
  fields ≠ [] →
  (∀ f, f ∈ fields → is_Some (bridges.get f r)) →
  is_Some (Arc.stored (Traversals.sumExp fields r)).
Proof.
  intros Hne Hsome.
  rewrite (sumExp_numbers fields r (λ f, default 0 (bridges.get f r))); [done|done|].
  intros f [q Hq]%Hsome. by rewrite Hq.
Qed.

(** One sum field over a table in which no field with [_TRAV_] in its
    name is null. *)
Lemma sum_fields_no_null (name wild_card : string) (t : bridges.table) :
  (∀ g, Arc.wild wild_card g = true → Arc.wild "*_TRAV_*" g = true) →
  Arc.wild wild_card name = false →
  (∃ g, g ∈ bridges.schema t ∧ Arc.wild wild_card g = true) →
  (∀ r g, r ∈ bridges.rows t → g ∈ bridges.schema t →
          Arc.wild "*_TRAV_*" g = true → is_Some (bridges.get g r)) →
  ∀ r g, r ∈ bridges.rows (Traversals.sum_fields name wild_card t) →
         g ∈ bridges.schema (Traversals.sum_fields name wild_card t) →
         Arc.wild "*_TRAV_*" g = true → is_Some (bridges.get g r).
Proof.
  intros Hwc Hname (g0 & Hg0 & Hw0) Ht r g. rewrite sum_fields_rows.
  cbn [bridges.schema bridges.rows].
  intros (r0 & -> & Hr0)%list_elem_of_fmap Hg Hw.
  destruct (decide (name = g)) as [<-|Hne].
  - rewrite get_set_eq. apply sumExp_no_null.
    + intros Hnil. assert (g0 ∈ Arc.ListFields (bridges.schema t ++ [name]) wild_card)
        as Hin; [|rewrite Hnil in Hin; by apply elem_of_nil in Hin].
      apply elem_of_ListFields. split; [done|]. apply elem_of_app. by left.
    + intros f [Hwf Hf]%elem_of_ListFields.
      assert (name ≠ f) as Hnf by (intros <-; congruence).
      rewrite get_set_ne by done.
      apply elem_of_app in Hf as [Hf|Hf%list_elem_of_singleton]; [|done].
      apply Ht; auto.
  - rewrite get_sum_row by done.
    apply elem_of_app in Hg as [Hg|Hg%list_elem_of_singleton]; [|done].
    by apply Ht.
Qed.

Lemma sum_fields_schema (name wild_card : string) (t : bridges.table) :
  bridges.schema (Traversals.sum_fields name wild_card t) = bridges.schema t ++ [name].
Proof. by rewrite sum_fields_rows. Qed.

(** X12: with at least one destination class, traversals.py (read
    without the stray tokens of lines 125 and 208) leaves no
    null in any field of the bridges with [_TRAV_] in its name: the fields of
    the classes hold zero where the join found no row, and no sum is lost to a
    null operand, whatever the names of the classes and of the fields the
    bridges came with. *)
Theorem X12_no_null_traversal_field
    (bs : list businesses.row) (brs : bridges.table) (dests : list string)
    (b : bridges.row) (f : string) :
  dests ≠ [] →
  b ∈ bridges.rows
        (Traversals.ws_bridges
           (Traversals.run Shape_Length routesBridgesSJ inserted cfg bs brs dests)) →
  f ∈ bridges.schema
        (Traversals.ws_bridges
           (Traversals.run Shape_Length routesBridgesSJ inserted cfg bs brs dests)) →
  Arc.wild "*_TRAV_*" f = true →
  is_Some (bridges.get f b).
Proof.
  intros Hdests. rewrite run_ws_bridges. revert b f.
  set (J := joined bs brs dests).
  assert (∃ d, d ∈ dests) as [d Hd].
  { destruct dests as [|d ?]; [done|]. exists d. apply list_elem_of_here. }
  assert (∀ g, g ∈ [Traversals.freqField d; Traversals.jobFreqField d;
                    Traversals.jobDWFreqField d] →
               g ∈ bridges.schema (Traversals.replace_nulls J)) as Hclass.
  { intros g Hg. unfold Traversals.replace_nulls. rewrite replace_nulls_fold.
    cbn [bridges.schema]. unfold J. rewrite JoinField_freq_fold. cbn [bridges.schema].
    apply elem_of_app. right. apply list_elem_of_bind. by exists d. }
  destruct (wild_own_field d) as (O1 & O2 & O3).
  apply sum_fields_no_null;
    [apply wild_TRAV_of_JOB_DISTW|vm_compute; reflexivity| |].
  { exists (Traversals.jobDWFreqField d). split; [|done].
    rewrite !sum_fields_schema. do 2 (apply elem_of_app; left).
    apply Hclass. in_list. }
  apply sum_fields_no_null;
    [apply wild_TRAV_of_JOB|vm_compute; reflexivity| |].
  { exists (Traversals.jobFreqField d). split; [|done].
    rewrite !sum_fields_schema. apply elem_of_app; left.
    apply Hclass. in_list. }
  apply sum_fields_no_null;
    [apply wild_TRAV_of_BUS|vm_compute; reflexivity| |].
  { exists (Traversals.freqField d). split; [|done]. apply Hclass. in_list. }
  unfold Traversals.replace_nulls. rewrite replace_nulls_fold.
  cbn [bridges.schema bridges.rows].
  intros r g (r0 & -> & _)%list_elem_of_fmap Hg Hw.
  rewrite zeroNulls_fold_get, decide_True, zeroNulls_default; [done|].
  by apply elem_of_ListFields.
Qed.

End BridgesKept.

Lemma X12_witness :
  is_Some (bridges.get "BUS_TRAV_SUM"
             (nth 1 (bridges.rows (Traversals.ws_bridges Example.traversed))
                Example.dummy_bridge)).
Proof.
  apply (X12_no_null_traversal_field
           Example.Shape_Length Example.routesBridgesSJ Example.inserted
           Traversals.default_settings
           Example.the_businesses Example.the_bridges Example.dests).
  - discriminate.
  - vm_compute. apply list_elem_of_further, list_elem_of_here.
  - vm_compute. in_list.
  - vm_compute. reflexivity.
Defined.

(** * The traversals of the network segments *)

(** ** The key of an edge *)

Lemma pretty_N_char_digit (x : N) :
  pretty_N_char x ∈ list_ascii_of_string "0123456789-".
Proof. unfold pretty_N_char. repeat case_match; cbn; in_list. Qed.

Lemma pretty_N_go_digits (x : N) (s : string) :
  Forall (λ c, c ∈ list_ascii_of_string "0123456789-") (list_ascii_of_string s) →
  Forall (λ c, c ∈ list_ascii_of_string "0123456789-")
    (list_ascii_of_string (pretty_N_go x s)).
Proof.
  revert s. induction (N.lt_wf_0 x) as [x _ IH]; intros s Hs.
  assert (x = 0 ∨ 0 < x)%N as [->|Hx] by lia.
  - by rewrite pretty_N_go_0.
  - rewrite pretty_N_go_step by done. apply IH.
    + by apply N.div_lt.
    + cbn [list_ascii_of_string]. constructor; [apply pretty_N_char_digit|done].
Qed.

Lemma str_int_digits (i : Z) :
  Forall (λ c, c ∈ list_ascii_of_string "0123456789-")
    (list_ascii_of_string (Py.str_int i)).
Proof.
  assert (∀ p : positive,
            Forall (λ c, c ∈ list_ascii_of_string "0123456789-")
              (list_ascii_of_string (pretty (N.pos p)))) as Hpos.
  { intros p. unfold pretty, pretty_N. rewrite decide_False by done.
    apply pretty_N_go_digits. constructor. }
  unfold Py.str_int, pretty, pretty_Z. destruct i as [|p|p].
  - cbn. constructor; [in_list|constructor].
  - apply Hpos.
  - cbn [list_ascii_of_string append]. constructor; [cbn; in_list|apply Hpos].
Qed.

Lemma last_elem_of {A : Type} (k : list A) (d : A) : k ≠ [] → List.last k d ∈ k.
Proof.
  induction k as [|a k IH]; [done|]. intros _. destruct k as [|a' k].
  - apply list_elem_of_here.
  - apply list_elem_of_further, IH. done.
Qed.

(** A string cut where its closing run of marked characters starts is cut
    in one way only. *)
Lemma split_at_run (D : ascii → Prop) (d : ascii) (l1 l2 s1 s2 : list ascii) :
  Forall D s1 → Forall D s2 →
  ¬ D (List.last l1 d) → ¬ D (List.last l2 d) →
  l1 ++ s1 = l2 ++ s2 → l1 = l2 ∧ s1 = s2.
Proof.
  intros Hs1 Hs2 Hl1 Hl2 [(k & -> & ->)|(k & -> & ->)]%app_eq_inv.
  - destruct k as [|a k]; [by rewrite app_nil_r|]. exfalso. apply Hl1.
    rewrite last_of_app by done. apply Forall_app in Hs2 as [Hk _].
    rewrite Forall_forall in Hk. apply Hk. by apply last_elem_of.
  - destruct k as [|a k]; [by rewrite app_nil_r|]. exfalso. apply Hl2.
    rewrite last_of_app by done. apply Forall_app in Hs1 as [Hk _].
    rewrite Forall_forall in Hk. apply Hk. by apply last_elem_of.
Qed.

Lemma concat_key_inj (n1 n2 : string) (o1 o2 : Z) :
  List.last (list_ascii_of_string n1) "x"%char ∉ list_ascii_of_string "0123456789-" →
  List.last (list_ascii_of_string n2) "x"%char ∉ list_ascii_of_string "0123456789-" →
  n1 +:+ Network.str (Some o1) = n2 +:+ Network.str (Some o2) →
  n1 = n2 ∧ o1 = o2.
Proof.
  intros H1 H2 Heq. apply (f_equal list_ascii_of_string) in Heq.
  rewrite !list_ascii_of_string_app in Heq.
  apply (split_at_run (λ c, c ∈ list_ascii_of_string "0123456789-") "x"%char)
    in Heq as [Hn Ho]; [|apply str_int_digits..|done|done].
  split.
  - by rewrite <- (string_of_list_ascii_of_string n1), Hn,
      string_of_list_ascii_of_string.
  - apply (inj pretty). apply (f_equal string_of_list_ascii) in Ho.
    rewrite !string_of_list_ascii_of_string in Ho. exact Ho.
Qed.

Section EdgeKeys.

Variable CFRoutes : string → list CFRoutes.row.
Variable TravEdges : string → list TravEdges.row.

(** A row of the edges of a class, as the loop leaves it. *)
Lemma destEdges_row (bs : list businesses.row) (dest : string) (e : TravEdges.row) :
  e ∈ Network.destEdges CFRoutes TravEdges bs dest →
  ∃ e0,
    e0 ∈ TravEdges dest
    ∧ TravEdges.RouteID e = TravEdges.RouteID e0
    ∧ TravEdges.SourceName e = TravEdges.SourceName e0
    ∧ TravEdges.SourceOID e = TravEdges.SourceOID e0
    ∧ TravEdges.Network_Sect_Concat e
      = Network.stored_text (Network.Network_Sect_Concat_exp e)
    ∧ TravEdges.Truck_Int e
      = (r ← Arc.first_match CFRoutes.ObjectID (TravEdges.RouteID e) (CFRoutes dest);
         b ← Arc.first_match businesses.OBJECTID (CFRoutes.IncidentID r) bs;
         businesses.Truck_Int b).
Proof.
  unfold Network.destEdges. cbv zeta.
  intros (e1 & -> & (e0 & -> & He0)%list_elem_of_fmap)%list_elem_of_fmap.
  exists e0. split; [done|].
  assert (∀ k, Arc.first_match CFRoutes.ObjectID k
                 (Network.join_routes bs <$> CFRoutes dest)
               = Network.join_routes bs
                   <$> Arc.first_match CFRoutes.ObjectID k (CFRoutes dest)) as Hroutes.
  { intros k. apply first_match_fmap. intros r. unfold Network.join_routes.
    by case_match. }
  unfold Network.join_edges. rewrite Hroutes.
  destruct (Arc.first_match CFRoutes.ObjectID (TravEdges.RouteID e0) (CFRoutes dest))
    as [r|] eqn:Hr; cbn.
  - rewrite Hr. cbn. unfold Network.join_routes.
    by destruct (Arc.first_match businesses.OBJECTID (CFRoutes.IncidentID r) bs).
  - by rewrite Hr.
Qed.

(** X13 (traversals.py read without the stray tokens of lines 125 and
    208): the rows of the traversed edges of a class are grouped under the
    key [SourceName + str(SourceOID)].  For two rows whose source names do
    not end in a digit or a minus sign the keys are equal exactly when the
    rows name the same source feature: the same source and the same object
    id.  Without that condition they need not: the key of object 2 of a
    source [n1] is the key of object 12 of a source [n]. *)
Theorem X13_edge_key_names_the_source_feature
    (bs : list businesses.row) (dest : string) :
  (∀ e1 e2 n1 n2 o1 o2,
     e1 ∈ Network.destEdges CFRoutes TravEdges bs dest →
     e2 ∈ Network.destEdges CFRoutes TravEdges bs dest →
     TravEdges.SourceName e1 = Some n1 → TravEdges.SourceOID e1 = Some o1 →
     TravEdges.SourceName e2 = Some n2 → TravEdges.SourceOID e2 = Some o2 →
     List.last (list_ascii_of_string n1) "x"%char ∉ list_ascii_of_string "0123456789-" →
     List.last (list_ascii_of_string n2) "x"%char ∉ list_ascii_of_string "0123456789-" →
     (TravEdges.Network_Sect_Concat e1 = TravEdges.Network_Sect_Concat e2
      ↔ n1 = n2 ∧ o1 = o2))
  ∧ (∀ e1 e2 n,
       e1 ∈ Network.destEdges CFRoutes TravEdges bs dest →
       e2 ∈ Network.destEdges CFRoutes TravEdges bs dest →
       TravEdges.SourceName e1 = Some (n +:+ "1") → TravEdges.SourceOID e1 = Some 2%Z →
       TravEdges.SourceName e2 = Some n → TravEdges.SourceOID e2 = Some 12%Z →
       TravEdges.Network_Sect_Concat e1 = TravEdges.Network_Sect_Concat e2).
Proof.
  split.
  - intros e1 e2 n1 n2 o1 o2 (_ & _ & _ & _ & _ & -> & _)%destEdges_row
      (_ & _ & _ & _ & _ & -> & _)%destEdges_row Hn1 Ho1 Hn2 Ho2 Hc1 Hc2.
    unfold Network.Network_Sect_Concat_exp. rewrite Hn1, Ho1, Hn2, Ho2. cbn. split.
    + intros [= Heq]. by apply concat_key_inj.
    + by intros [-> ->].
  - intros e1 e2 n (_ & _ & _ & _ & _ & -> & _)%destEdges_row
      (_ & _ & _ & _ & _ & -> & _)%destEdges_row Hn1 Ho1 Hn2 Ho2.
    unfold Network.Network_Sect_Concat_exp. rewrite Hn1, Ho1, Hn2, Ho2.
    cbn [Network.stored_text]. apply (f_equal Some).
    change (Network.str (Some 2%Z)) with "2". change (Network.str (Some 12%Z)) with "12".
    assert (∀ c a b, String c a +:+ b = String c (a +:+ b)) as Hcons by done.
    clear Hn1 Hn2. induction n as [|c n IH]; [done|]. by rewrite !Hcons, IH.
Qed.

End EdgeKeys.

Lemma X13_witness :
  TravEdges.Network_Sect_Concat (nth 0 Example3.north_edges Example3.dummy_edge)
  = TravEdges.Network_Sect_Concat (nth 2 Example3.north_edges Example3.dummy_edge)
  ↔ "Network_LocalStreets" = "Network_LocalStreets" ∧ 7%Z = 7%Z.
Proof.
  destruct (X13_edge_key_names_the_source_feature
              Example3.CFRoutes Example3.TravEdges Example3.the_businesses "North")
    as [H _].
  apply H.
  - vm_compute. apply list_elem_of_here.
  - vm_compute. do 2 apply list_elem_of_further. apply list_elem_of_here.
  - vm_compute. reflexivity.
  - vm_compute. reflexivity.
  - vm_compute. reflexivity.
  - vm_compute. reflexivity.
  - vm_compute. intros Hin. repeat (apply elem_of_cons in Hin as [Hin|Hin]; [discriminate|]).
    by apply elem_of_nil in Hin.
  - vm_compute. intros Hin. repeat (apply elem_of_cons in Hin as [Hin|Hin]; [discriminate|]).
    by apply elem_of_nil in Hin.
Defined.

(** X14 (traversals.py read without the stray tokens of lines 125 and
    208): the rows of the traversed edges of a class as the loop leaves
    them.  The truck intensity of a row is reached through two joins: it is
    that of the first business whose object id is the incident of the first
    route whose object id is the route of the row, and it is null when there
    is no such route or no such business.  The key of a row with a source
    name is the name followed by the object id in decimal, and by [None] when
    the object id is null; a row with no source name has a null key. *)
Theorem X14_edge_rows_of_a_class
    (CFRoutes : string → list CFRoutes.row) (TravEdges : string → list TravEdges.row)
    (bs : list businesses.row) (dest : string) (e : TravEdges.row) :
  e ∈ Network.destEdges CFRoutes TravEdges bs dest →
  (∀ r b,
     Arc.first_match CFRoutes.ObjectID (TravEdges.RouteID e) (CFRoutes dest) = Some r →
     Arc.first_match businesses.OBJECTID (CFRoutes.IncidentID r) bs = Some b →
     TravEdges.Truck_Int e = businesses.Truck_Int b)
  ∧ (TravEdges.RouteID e ∉ CFRoutes.ObjectID <$> CFRoutes dest →
     TravEdges.Truck_Int e = None)
  ∧ (∀ r,
       Arc.first_match CFRoutes.ObjectID (TravEdges.RouteID e) (CFRoutes dest) = Some r →
       CFRoutes.IncidentID r ∉ businesses.OBJECTID <$> bs →
       TravEdges.Truck_Int e = None)
  ∧ (∀ name oid,
       TravEdges.SourceName e = Some name → TravEdges.SourceOID e = Some oid →
       TravEdges.Network_Sect_Concat e = Some (name +:+ Py.str_int oid))
  ∧ (∀ name,
       TravEdges.SourceName e = Some name → TravEdges.SourceOID e = None →
       TravEdges.Network_Sect_Concat e = Some (name +:+ "None"))
  ∧ (TravEdges.SourceName e = None → TravEdges.Network_Sect_Concat e = None).
Proof.
  intros (e0 & _ & _ & _ & _ & Hkey & Hti)%destEdges_row.
  rewrite Hkey, Hti. unfold Network.Network_Sect_Concat_exp. repeat split.
  - intros r b -> Hb. cbn. by rewrite Hb.
  - intros Hnin. by rewrite (first_match_None _ _ _ Hnin).
  - intros r -> Hnin. cbn. by rewrite (first_match_None _ _ _ Hnin).
  - by intros name oid -> ->.
  - by intros name -> ->.
  - by intros ->.
Qed.

Lemma X14_witness :
  TravEdges.Network_Sect_Concat (nth 1 Example3.north_edges Example3.dummy_edge)
  = Some ("Network_Highways" +:+ Py.str_int 3).
Proof.
  apply (X14_edge_rows_of_a_class
           Example3.CFRoutes Example3.TravEdges Example3.the_businesses "North"
           (nth 1 Example3.north_edges Example3.dummy_edge)).
  - vm_compute. apply list_elem_of_further, list_elem_of_here.
  - vm_compute. reflexivity.
  - vm_compute. reflexivity.
Defined.

(** ** The wild cards of the network *)

Lemma string_app_assoc' (a b c : string) : (a +:+ b) +:+ c = a +:+ (b +:+ c).
Proof.
  assert (∀ x y z, String x y +:+ z = String x (y +:+ z)) as Hcons by done.
  induction a as [|x a IH]; [done|]. by rewrite !Hcons, IH.
Qed.

Lemma literal_net :
  Forall (λ c, c ≠ "*"%char) (list_ascii_of_string "TRAV")
  ∧ Forall (λ c, c ≠ "*"%char) (list_ascii_of_string "TRAV_BUS")
  ∧ Forall (λ c, c ≠ "*"%char) (list_ascii_of_string "TRAV_JOB").
Proof.
  repeat split; simpl; repeat (apply Forall_cons; split; [discriminate|]);
    apply Forall_nil_2.
Qed.

Lemma wild_net (s : string) :
  Arc.wild "*TRAV*" s = true ↔ ∃ a b, s = a +:+ "TRAV" +:+ b.
Proof. apply (wild_contains "TRAV"), literal_net. Qed.

Lemma wild_net_BUS (s : string) :
  Arc.wild "*TRAV_BUS*" s = true ↔ ∃ a b, s = a +:+ "TRAV_BUS" +:+ b.
Proof. apply (wild_contains "TRAV_BUS"), literal_net. Qed.

Lemma wild_net_JOB (s : string) :
  Arc.wild "*TRAV_JOB*" s = true ↔ ∃ a b, s = a +:+ "TRAV_JOB" +:+ b.
Proof. apply (wild_contains "TRAV_JOB"), literal_net. Qed.

Lemma wild_net_of_BUS (f : string) :
  Arc.wild "*TRAV_BUS*" f = true → Arc.wild "*TRAV*" f = true.
Proof.
  intros (a & b & ->)%wild_net_BUS. apply wild_net. by exists a, ("_BUS" +:+ b).
Qed.

Lemma wild_net_of_JOB (f : string) :
  Arc.wild "*TRAV_JOB*" f = true → Arc.wild "*TRAV*" f = true.
Proof.
  intros (a & b & ->)%wild_net_JOB. apply wild_net. by exists a, ("_JOB" +:+ b).
Qed.

Lemma wild_net_fields (dest : string) :
  Arc.wild "*TRAV*" (Network.netBusFreqField dest) = true
  ∧ Arc.wild "*TRAV*" (Network.netJobFreqField dest) = true
  ∧ Arc.wild "*TRAV_BUS*" (Network.netBusFreqField dest) = true
  ∧ Arc.wild "*TRAV_JOB*" (Network.netJobFreqField dest) = true.
Proof.
  unfold Network.netBusFreqField, Network.netJobFreqField. repeat split.
  - apply wild_net. exists (dest +:+ "_"), "_BUS". by rewrite string_app_assoc'.
  - apply wild_net. exists (dest +:+ "_"), "_JOB". by rewrite string_app_assoc'.
  - apply wild_net_BUS. exists (dest +:+ "_"), "". by rewrite string_app_assoc'.
  - apply wild_net_JOB. exists (dest +:+ "_"), "". by rewrite string_app_assoc'.
Qed.

(** The fields of a frequency table that the join takes. *)
Lemma edgeFreq_fields (dest : string) :
  Arc.ListFields (Network.edgeFreq_schema dest) "*TRAV*"
  = [Network.netBusFreqField dest; Network.netJobFreqField dest].
Proof.
  destruct (wild_net_fields dest) as (W1 & W2 & _).
  unfold Arc.ListFields, Network.edgeFreq_schema.
  rewrite filter_cons_False by (vm_compute; discriminate).
  rewrite filter_cons_True by done.
  rewrite filter_cons_False by (vm_compute; discriminate).
  by rewrite filter_cons_True by done.
Qed.

Lemma net_fields_two (dest : string) :
  Network.netBusFreqField dest ≠ Network.netJobFreqField dest.
Proof. apply (class_fields_three dest). Qed.

Lemma join_edgeFreq_eq (destClass : string) (joinTable : list Network.freq_row)
    (r : bridges.row) :
  Network.join_edgeFreq destClass joinTable r
  = match Arc.first_match Network.freq_Network_Sect_Concat
            (Some (Network.Network_Sect_Name r)) joinTable with
    | Some f =>
        bridges.set (Network.netJobFreqField destClass) (Network.sum_Truck_Int f)
          (bridges.set (Network.netBusFreqField destClass)
             (Some (Qc_of_Z (Network.FREQUENCY f))) r)
    | None =>
        bridges.set (Network.netJobFreqField destClass) None
          (bridges.set (Network.netBusFreqField destClass) None r)
    end.
Proof.
  unfold Network.join_edgeFreq. rewrite edgeFreq_fields.
  destruct (Arc.first_match _ _ joinTable) as [f|]; cbn [foldl]; [|done].
  assert (Network.edgeFreq_get destClass (Network.netBusFreqField destClass) f
          = Some (Qc_of_Z (Network.FREQUENCY f))) as ->.
  { unfold Network.edgeFreq_get. by rewrite decide_True. }
  assert (Network.edgeFreq_get destClass (Network.netJobFreqField destClass) f
          = Network.sum_Truck_Int f) as ->; [|done].
  unfold Network.edgeFreq_get.
  rewrite decide_False by (intros Heq; apply (net_fields_two destClass); by rewrite Heq).
  by rewrite decide_True.
Qed.

(** ** The frequency tables joined to the flat network *)

Section NetworkJoined.

Variable freqTable : string → list Network.freq_row.

Local Abbreviation net_fields classes :=
  (classes ≫= λ c, [Network.netBusFreqField c; Network.netJobFreqField c]).

Local Abbreviation net_join_all :=
  (foldl (λ r c, Network.join_edgeFreq c (freqTable c) r)).

Lemma JoinField_edgeFreq_fold (classes : list string) (t : bridges.table) :
  foldl (λ t c, Network.JoinField_edgeFreq c (freqTable c) t) t classes
  = {| bridges.schema := bridges.schema t ++ net_fields classes;
       bridges.rows := (λ r, net_join_all r classes) <$> bridges.rows t |}.
Proof.
  revert t. induction classes as [|c classes IH]; intros t.
  - simpl. rewrite app_nil_r, list_fmap_id. by destruct t.
  - cbn [foldl]. rewrite IH. unfold Network.JoinField_edgeFreq at 1 2.
    rewrite edgeFreq_fields. simpl. f_equal.
    + by rewrite <- app_assoc.
    + by rewrite <- list_fmap_compose.
Qed.

Lemma join_edgeFreq_name (c : string) (r : bridges.row) :
  Network.Network_Sect_Name (Network.join_edgeFreq c (freqTable c) r)
  = Network.Network_Sect_Name r.
Proof. rewrite join_edgeFreq_eq. by case_match. Qed.

Lemma net_join_all_name (classes : list string) (r : bridges.row) :
  Network.Network_Sect_Name (net_join_all r classes) = Network.Network_Sect_Name r.
Proof.
  revert r. induction classes as [|c classes IH]; intros r; [done|].
  cbn [foldl]. by rewrite IH, join_edgeFreq_name.
Qed.

Lemma join_edgeFreq_other (c f : string) (r : bridges.row) :
  f ∉ [Network.netBusFreqField c; Network.netJobFreqField c] →
  bridges.get f (Network.join_edgeFreq c (freqTable c) r) = bridges.get f r.
Proof.
  intros Hf. rewrite join_edgeFreq_eq.
  assert (Network.netBusFreqField c ≠ f ∧ Network.netJobFreqField c ≠ f) as (H1 & H2).
  { split; intros <-; apply Hf; in_list. }
  case_match; by rewrite !get_set_ne.
Qed.

Lemma net_join_all_other (classes : list string) (f : string) (r : bridges.row) :
  (∀ c, c ∈ classes → f ∉ [Network.netBusFreqField c; Network.netJobFreqField c]) →
  bridges.get f (net_join_all r classes) = bridges.get f r.
Proof.
  revert r. induction classes as [|c classes IH]; intros r Hf; [done|].
  cbn [foldl]. rewrite IH by (intros; apply Hf; by apply list_elem_of_further).
  apply join_edgeFreq_other, Hf, list_elem_of_here.
Qed.

Lemma join_edgeFreq_own (c : string) (r : bridges.row) :
  let found :=
    Arc.first_match Network.freq_Network_Sect_Concat
      (Some (Network.Network_Sect_Name r)) (freqTable c) in
  bridges.get (Network.netBusFreqField c) (Network.join_edgeFreq c (freqTable c) r)
  = (λ f, Qc_of_Z (Network.FREQUENCY f)) <$> found
  ∧ bridges.get (Network.netJobFreqField c) (Network.join_edgeFreq c (freqTable c) r)
    = found ≫= Network.sum_Truck_Int.
Proof.
  cbv zeta. rewrite join_edgeFreq_eq. pose proof (net_fields_two c) as Hne.
  destruct (Arc.first_match _ _ _) as [f|]; simpl;
    rewrite !get_set; repeat case_decide; done.
Qed.

Lemma net_fields_disjoint (c c' f : string) :
  c ≠ c' →
  f ∈ [Network.netBusFreqField c; Network.netJobFreqField c] →
  f ∉ [Network.netBusFreqField c'; Network.netJobFreqField c'].
Proof.
  intros Hne Hf Hf'.
  apply (class_fields_disjoint c c' f Hne).
  - apply elem_of_cons in Hf as [->|Hf]; [in_list|].
    apply elem_of_cons in Hf as [->|Hf]; [in_list|]. by apply elem_of_nil in Hf.
  - apply elem_of_cons in Hf' as [->|Hf']; [in_list|].
    apply elem_of_cons in Hf' as [->|Hf']; [in_list|]. by apply elem_of_nil in Hf'.
Qed.

Lemma net_join_all_own (classes : list string) (c : string) (r : bridges.row) :
  NoDup classes → c ∈ classes →
  let found :=
    Arc.first_match Network.freq_Network_Sect_Concat
      (Some (Network.Network_Sect_Name r)) (freqTable c) in
  bridges.get (Network.netBusFreqField c) (net_join_all r classes)
  = (λ f, Qc_of_Z (Network.FREQUENCY f)) <$> found
  ∧ bridges.get (Network.netJobFreqField c) (net_join_all r classes)
    = found ≫= Network.sum_Truck_Int.
Proof.
  intros Hnd. revert r. induction classes as [|d classes IH]; intros r Hc.
  { by apply elem_of_nil in Hc. }
  apply NoDup_cons in Hnd as [Hd Hnd]. cbn [foldl].
  destruct (decide (c = d)) as [->|Hne].
  - rewrite !net_join_all_other.
    + apply join_edgeFreq_own.
    + intros d' Hd'. apply (net_fields_disjoint d); [by intros ->|in_list].
    + intros d' Hd'. apply (net_fields_disjoint d); [by intros ->|in_list].
  - apply elem_of_cons in Hc as [?|Hc]; [done|].
    specialize (IH Hnd (Network.join_edgeFreq d (freqTable d) r) Hc).
    by rewrite join_edgeFreq_name in IH.
Qed.

End NetworkJoined.

Lemma wild_net_sums :
  Arc.wild "*TRAV*" "BUS_TRAV_SUM" = true ∧ Arc.wild "*TRAV*" "JOB_TRAV_SUM" = true.
Proof. split; vm_compute; reflexivity. Qed.

Lemma net_field_wild (c f : string) :
  f ∈ [Network.netBusFreqField c; Network.netJobFreqField c] →
  Arc.wild "*TRAV*" f = true.
Proof.
  destruct (wild_net_fields c) as (W1 & W2 & _). intros Hf.
  repeat (apply elem_of_cons in Hf as [->|Hf]); try done. by apply elem_of_nil in Hf.
Qed.

Section NetworkKept.

Variable CFRoutes : string → list CFRoutes.row.
Variable TravEdges : string → list TravEdges.row.

Lemma network_run_rows (bs : list businesses.row) (flatNetwork : bridges.table)
    (edgeFreqs : list string) :
  Network.run CFRoutes TravEdges bs flatNetwork edgeFreqs
  = Traversals.sum_fields "JOB_TRAV_SUM" "*TRAV_JOB*"
      (Traversals.sum_fields "BUS_TRAV_SUM" "*TRAV_BUS*"
         (Network.replace_nulls
            {| bridges.schema :=
                 bridges.schema flatNetwork
                 ++ (edgeFreqs ≫= λ c, [Network.netBusFreqField c;
                                        Network.netJobFreqField c]);
               bridges.rows :=
                 (λ r, foldl (λ r c,
                                Network.join_edgeFreq c
                                  (Network.destFreq CFRoutes TravEdges bs c) r)
                             r edgeFreqs)
                 <$> bridges.rows flatNetwork |})).
Proof.
  unfold Network.run. cbv zeta.
  by rewrite (JoinField_edgeFreq_fold (Network.destFreq CFRoutes TravEdges bs)).
Qed.

(** X15 (traversals.py read without the stray tokens of lines 125 and
    208): the statements after the loop append to the flat network the two
    fields of each frequency table, in the order of the tables, and then the
    two sum fields.  They add and drop no segment and keep their order and
    their names, and a field whose name does not have [TRAV] in it holds at
    the end what it held at the start.  But the null replacement takes every
    field with [TRAV] in its name: a field the flat network came with, other
    than those the script writes, holds zero at the end where it held
    null. *)
Theorem X15_network_segments_kept_and_nulls_zeroed
    (bs : list businesses.row) (flatNetwork : bridges.table) (edgeFreqs : list string) :
  bridges.schema (Network.run CFRoutes TravEdges bs flatNetwork edgeFreqs)
  = bridges.schema flatNetwork
    ++ (edgeFreqs ≫= λ c, [Network.netBusFreqField c; Network.netJobFreqField c])
    ++ ["BUS_TRAV_SUM"; "JOB_TRAV_SUM"]
  ∧ Network.Network_Sect_Name
      <$> bridges.rows (Network.run CFRoutes TravEdges bs flatNetwork edgeFreqs)
    = Network.Network_Sect_Name <$> bridges.rows flatNetwork
  ∧ ∀ (i : nat) r0,
      bridges.rows flatNetwork !! i = Some r0 →
      ∃ r,
        bridges.rows (Network.run CFRoutes TravEdges bs flatNetwork edgeFreqs) !! i
        = Some r
        ∧ (∀ f, Arc.wild "*TRAV*" f = false → bridges.get f r = bridges.get f r0)
        ∧ (∀ f, f ∈ bridges.schema flatNetwork →
                Arc.wild "*TRAV*" f = true →
                (∀ c, c ∈ edgeFreqs →
                      f ≠ Network.netBusFreqField c ∧ f ≠ Network.netJobFreqField c) →
                f ≠ "BUS_TRAV_SUM" → f ≠ "JOB_TRAV_SUM" →
                bridges.get f r = Some (default 0 (bridges.get f r0))).
Proof.
  rewrite network_run_rows, !sum_fields_rows. unfold Network.replace_nulls.
  rewrite replace_nulls_fold. cbn [bridges.schema bridges.rows]. split; [|split].
  - by rewrite <- !app_assoc.
  - rewrite <- !list_fmap_compose. apply list_fmap_ext. intros i r _. cbn.
    unfold Network.Network_Sect_Name. rewrite zeroNulls_fold_BRDG_NBR.
    apply (net_join_all_name (Network.destFreq CFRoutes TravEdges bs)).
  - intros i r0 Hi. rewrite !list_lookup_fmap, Hi. cbn [fmap option_fmap option_map].
    eexists. split; [reflexivity|]. destruct wild_net_sums as (W1 & W2). split.
    + intros f Hf. rewrite !get_sum_row by (intros <-; congruence).
      rewrite zeroNulls_fold_get, decide_False.
      * apply (net_join_all_other (Network.destFreq CFRoutes TravEdges bs)).
        intros c _ Hin%net_field_wild. congruence.
      * intros [Hw _]%elem_of_ListFields. congruence.
    + intros f Hf Hw Hclass Hbus Hjob. rewrite !get_sum_row by done.
      rewrite zeroNulls_fold_get, decide_True, zeroNulls_default.
      * do 2 f_equal.
        apply (net_join_all_other (Network.destFreq CFRoutes TravEdges bs)).
        intros c Hc. destruct (Hclass c Hc) as [H1 H2].
        intros [->|[->|?%elem_of_nil]%elem_of_cons]%elem_of_cons; done.
      * apply elem_of_ListFields. split; [done|]. apply elem_of_app. by left.
Qed.

End NetworkKept.

(** ** The sums of the network *)

(** Where a piece [lit] lies in a name made of [d] and [x]: within [d],
    across the two, or within [x]. *)
Lemma app_straddle (lit d x a b : list ascii) :
  d ++ x = a ++ lit ++ b →
  (∃ k', d = a ++ lit ++ k')
  ∨ (∃ k k', k' ≠ [] ∧ lit = k ++ k' ∧ d = a ++ k ∧ x = k' ++ b)
  ∨ (∃ k, x = k ++ lit ++ b).
Proof.
  intros [(k & -> & Hx)|(k & -> & ->)]%app_eq_inv.
  - symmetry in Hx. apply app_eq_inv in Hx as [(k' & -> & ->)|(k' & -> & ->)].
    + left. by exists k'.
    + destruct k' as [|c k'].
      * left. exists []. by rewrite !app_nil_r.
      * right. left. by exists k, (c :: k').
  - right. right. by exists k.
Qed.

Lemma string_of_list_ascii_app (l1 l2 : list ascii) :
  string_of_list_ascii (l1 ++ l2) = string_of_list_ascii l1 +:+ string_of_list_ascii l2.
Proof. induction l1 as [|c l1 IH]; [done|]. cbn. by rewrite IH. Qed.

Lemma wild_net_list (s : string) (a b : list ascii) :
  list_ascii_of_string s = a ++ list_ascii_of_string "TRAV" ++ b →
  Arc.wild "*TRAV*" s = true.
Proof.
  intros Hs. apply wild_net.
  exists (string_of_list_ascii a), (string_of_list_ascii b).
  rewrite <- (string_of_list_ascii_of_string s), Hs.
  by rewrite !string_of_list_ascii_app.
Qed.

(** With no [TRAV] in the name of a class, the wild card of a sum lists
    the field of its own kind only. *)
Lemma wild_net_other_field (d : string) :
  Arc.wild "*TRAV*" d = false →
  Arc.wild "*TRAV_BUS*" (Network.netJobFreqField d) = false
  ∧ Arc.wild "*TRAV_JOB*" (Network.netBusFreqField d) = false.
Proof.
  intros Hd. split; apply not_true_is_false.
  - intros (a & b & Heq)%wild_net_BUS. unfold Network.netJobFreqField in Heq.
    apply (f_equal list_ascii_of_string) in Heq.
    rewrite !list_ascii_of_string_app in Heq.
    apply app_straddle in Heq as [(k' & Hin)|[(k & k' & Hk' & Hlit & _ & Hx)|(k & Hx)]].
    + rewrite (wild_net_list d (list_ascii_of_string a)
                 (list_ascii_of_string "_BUS" ++ k')) in Hd; [done|].
      rewrite Hin. reflexivity.
    + cbn in Hlit, Hx.
      repeat (destruct k as [|? k]; simplify_eq/=).
    + cbn in Hx. repeat (destruct k as [|? k]; simplify_eq/=).
  - intros (a & b & Heq)%wild_net_JOB. unfold Network.netBusFreqField in Heq.
    apply (f_equal list_ascii_of_string) in Heq.
    rewrite !list_ascii_of_string_app in Heq.
    apply app_straddle in Heq as [(k' & Hin)|[(k & k' & Hk' & Hlit & _ & Hx)|(k & Hx)]].
    + rewrite (wild_net_list d (list_ascii_of_string a)
                 (list_ascii_of_string "_JOB" ++ k')) in Hd; [done|].
      rewrite Hin. reflexivity.
    + cbn in Hlit, Hx.
      repeat (destruct k as [|? k]; simplify_eq/=).
    + cbn in Hx. repeat (destruct k as [|? k]; simplify_eq/=).
Qed.

Lemma ListFields_net_classes (classes : list string) :
  (∀ c, c ∈ classes → Arc.wild "*TRAV*" c = false) →
  Arc.ListFields
    (classes ≫= λ c, [Network.netBusFreqField c; Network.netJobFreqField c])
    "*TRAV_BUS*"
  = Network.netBusFreqField <$> classes
  ∧ Arc.ListFields
      (classes ≫= λ c, [Network.netBusFreqField c; Network.netJobFreqField c])
      "*TRAV_JOB*"
    = Network.netJobFreqField <$> classes.
Proof.
  induction classes as [|c classes IH]; intros Hnames; [done|].
  destruct IH as [IH1 IH2].
  { intros c' Hc'. apply Hnames. by apply list_elem_of_further. }
  destruct (wild_net_fields c) as (_ & _ & O1 & O2).
  destruct (wild_net_other_field c) as (N1 & N2).
  { apply Hnames, list_elem_of_here. }
  rewrite bind_cons, !ListFields_app, IH1, IH2, !fmap_cons.
  unfold Arc.ListFields. split.
  - rewrite filter_cons_True by done. by rewrite filter_cons_False by congruence.
  - rewrite filter_cons_False by congruence. by rewrite filter_cons_True by done.
Qed.

Lemma Qc_sum_perm (l l' : list Qc) : l ≡ₚ l' → Qc_sum l = Qc_sum l'.
Proof.
  unfold Qc_sum. induction 1 as [|x l l' _ IH|x y l|l l' l'' _ IH1 _ IH2]; cbn.
  - done.
  - by rewrite IH.
  - ring.
  - by rewrite IH1.
Qed.

(** The sum of a group, a group with no value counting as zero. *)
Lemma default_sum_field {A : Type} (fld : A → Py.value) (l : list A) :
  default 0 (Arc.sum_field (fld <$> l)) = Qc_sum (omap fld l).
Proof.
  destruct (omap fld l) as [|q qs] eqn:Hl.
  - unfold Arc.sum_field, Py.value in *. by rewrite omap_id_fmap, Hl.
  - rewrite sum_field_values by (by rewrite Hl). by rewrite Hl.
Qed.

(** From the flat network as the joins leave it to the network at the end
    of the script. *)
Lemma net_totals_of_joined (J : bridges.table) (orig classes : list string)
    (i : nat) (r1 : bridges.row) :
  bridges.schema J
  = orig ++ (classes ≫= λ c, [Network.netBusFreqField c; Network.netJobFreqField c]) →
  classes ≠ [] →
  (∀ c, c ∈ classes → Arc.wild "*TRAV*" c = false) →
  (∀ f, f ∈ orig → Arc.wild "*TRAV*" f = false) →
  bridges.rows J !! i = Some r1 →
  ∃ r,
    bridges.rows
      (Traversals.sum_fields "JOB_TRAV_SUM" "*TRAV_JOB*"
         (Traversals.sum_fields "BUS_TRAV_SUM" "*TRAV_BUS*"
            (Network.replace_nulls J))) !! i = Some r
    ∧ bridges.get "BUS_TRAV_SUM" r
      = Some (Qc_sum ((λ c, default 0 (bridges.get (Network.netBusFreqField c) r1))
                      <$> classes))
    ∧ bridges.get "JOB_TRAV_SUM" r
      = Some (Qc_sum ((λ c, default 0 (bridges.get (Network.netJobFreqField c) r1))
                      <$> classes))
    ∧ ∀ c, c ∈ classes →
        bridges.get (Network.netBusFreqField c) r
        = Some (default 0 (bridges.get (Network.netBusFreqField c) r1))
        ∧ bridges.get (Network.netJobFreqField c) r
          = Some (default 0 (bridges.get (Network.netJobFreqField c) r1)).
Proof.
  intros Hschema Hne Hnames Horig Hr1.
  rewrite !sum_fields_rows. unfold Network.replace_nulls. rewrite replace_nulls_fold.
  cbn [bridges.schema bridges.rows].
  rewrite !list_lookup_fmap, Hr1. cbn [fmap option_fmap option_map].
  set (FL := Arc.ListFields (bridges.schema J) "*TRAV*").
  set (r2 := foldl (λ r field,
                      bridges.set field (Traversals.zeroNulls (bridges.get field r)) r)
                   r1 FL).
  assert (∀ c f, c ∈ classes →
            f ∈ [Network.netBusFreqField c; Network.netJobFreqField c] →
            bridges.get f r2 = Some (default 0 (bridges.get f r1))) as Hr2.
  { intros c f Hc Hf. unfold r2. rewrite zeroNulls_fold_get.
    rewrite decide_True; [apply zeroNulls_default|].
    apply elem_of_ListFields. split; [by apply (net_field_wild c)|].
    rewrite Hschema. apply elem_of_app. right. apply list_elem_of_bind. by exists c. }
  destruct (ListFields_net_classes classes Hnames) as (HL1 & HL2).
  assert (Arc.ListFields (bridges.schema J ++ ["BUS_TRAV_SUM"]) "*TRAV_BUS*"
          = Network.netBusFreqField <$> classes) as ->.
  { rewrite Hschema, !ListFields_app, HL1.
    rewrite (ListFields_none "*TRAV_BUS*" orig).
    - simpl. by rewrite app_nil_r.
    - intros f Hf. apply not_true_is_false. intros Hw%wild_net_of_BUS.
      rewrite (Horig f Hf) in Hw. discriminate. }
  assert (Arc.ListFields ((bridges.schema J ++ ["BUS_TRAV_SUM"]) ++ ["JOB_TRAV_SUM"])
            "*TRAV_JOB*"
          = Network.netJobFreqField <$> classes) as ->.
  { rewrite Hschema, !ListFields_app, HL2.
    rewrite (ListFields_none "*TRAV_JOB*" orig).
    - simpl. by rewrite !app_nil_r.
    - intros f Hf. apply not_true_is_false. intros Hw%wild_net_of_JOB.
      rewrite (Horig f Hf) in Hw. discriminate. }
  set (r3 := bridges.set "BUS_TRAV_SUM"
               (Arc.stored (Traversals.sumExp (Network.netBusFreqField <$> classes)
                              (bridges.set "BUS_TRAV_SUM" None r2)))
               (bridges.set "BUS_TRAV_SUM" None r2)).
  assert (∀ c f v r name,
            f ∈ [Network.netBusFreqField c; Network.netJobFreqField c] →
            name ∈ ["BUS_TRAV_SUM"; "JOB_TRAV_SUM"] →
            bridges.get f (bridges.set name v r) = bridges.get f r) as Hkeep.
  { intros c f v r name Hf Hname. apply get_set_ne.
    apply (class_field_not_sum c).
    - apply elem_of_cons in Hf as [->|Hf]; [in_list|].
      apply elem_of_cons in Hf as [->|Hf]; [in_list|]. by apply elem_of_nil in Hf.
    - apply elem_of_cons in Hname as [->|Hname]; [in_list|].
      apply elem_of_cons in Hname as [->|Hname]; [in_list|].
      by apply elem_of_nil in Hname. }
  assert (∀ c f,
            c ∈ classes →
            f ∈ [Network.netBusFreqField c; Network.netJobFreqField c] →
            bridges.get f r3 = Some (default 0 (bridges.get f r1))) as Hr3.
  { intros c f Hc Hf. unfold r3.
    rewrite !(Hkeep c) by (done || in_list). by apply (Hr2 c). }
  assert (fmap (M := list) Network.netBusFreqField classes ≠ []
          ∧ fmap (M := list) Network.netJobFreqField classes ≠ []) as (Hne1 & Hne2).
  { destruct classes; [done|]. by split. }
  eexists. split; [reflexivity|]. split; [|split].
  - fold r2 r3. rewrite get_sum_row by done.
    unfold r3. rewrite get_set_eq.
    rewrite (sumExp_numbers _ _ (λ f, default 0 (bridges.get f r1))); [|done|].
    + simpl. by rewrite <- list_fmap_compose.
    + intros f (c & -> & Hc)%list_elem_of_fmap.
      rewrite !(Hkeep c) by in_list. apply (Hr2 c); [done|in_list].
  - fold r2 r3. rewrite get_set_eq.
    rewrite (sumExp_numbers _ _ (λ f, default 0 (bridges.get f r1))); [|done|].
    + simpl. by rewrite <- list_fmap_compose.
    + intros f (c & -> & Hc)%list_elem_of_fmap.
      rewrite !(Hkeep c) by in_list. apply (Hr3 c); [done|in_list].
  - intros c Hc. fold r2 r3.
    rewrite !(Hkeep c) by in_list.
    split; apply (Hr3 c); (done || in_list).
Qed.

Section NetworkTotals.

Variable CFRoutes : string → list CFRoutes.row.
Variable TravEdges : string → list TravEdges.row.

Local Abbreviation edges_of bs r0 d :=
  (filter (λ e, TravEdges.Network_Sect_Concat e = Some (Network.Network_Sect_Name r0))
     (Network.destEdges CFRoutes TravEdges bs d)).

(** What the join of a class finds for a segment. *)
Lemma destFreq_found (bs : list businesses.row) (d : string) (r0 : bridges.row) :
  let found :=
    Arc.first_match Network.freq_Network_Sect_Concat
      (Some (Network.Network_Sect_Name r0)) (Network.destFreq CFRoutes TravEdges bs d) in
  default 0 ((λ f, Qc_of_Z (Network.FREQUENCY f)) <$> found)
  = Qc_of_Z (Z.of_nat (length (edges_of bs r0 d)))
  ∧ default 0 (found ≫= Network.sum_Truck_Int)
    = Qc_sum (omap TravEdges.Truck_Int (edges_of bs r0 d)).
Proof.
  cbv zeta. unfold Network.destFreq, Network.Frequency.
  rewrite first_match_groups by done.
  destruct (decide (Some (Network.Network_Sect_Name r0)
                      ∈ TravEdges.Network_Sect_Concat
                          <$> Network.destEdges CFRoutes TravEdges bs d)) as [Hin|Hnin].
  - cbn. split; [done|]. apply default_sum_field.
  - assert (edges_of bs r0 d = []) as ->.
    { induction (Network.destEdges CFRoutes TravEdges bs d) as [|e l IH]; [done|].
      rewrite fmap_cons in Hnin. apply not_elem_of_cons in Hnin as [Hne Hnin].
      rewrite filter_cons_False by congruence. by apply IH. }
    cbn. split; [|done]. by apply Qc_is_canon.
Qed.

(** X16 (traversals.py read without the stray tokens of lines 125 and
    208): the counts of the network segments.  Take the frequency tables
    in any order, one for each destination class, the classes all different
    and at least one, with no [TRAV] in the name of a class or of a field the
    flat network came with.  Then at the end, for every segment, the field
    [<dest>_TRAV_BUS] counts the rows of the traversed edges of the class
    whose key is the name of the segment, and [<dest>_TRAV_JOB] is the sum of
    their truck intensities, the null ones left out; both are zero when the
    class has no such row.  [BUS_TRAV_SUM] and [JOB_TRAV_SUM] are the sums of
    these over the classes. *)
Theorem X16_network_counts_and_sums
    (bs : list businesses.row) (flatNetwork : bridges.table)
    (edgeFreqs dests : list string) (i : nat) (r0 : bridges.row) :
  edgeFreqs ≡ₚ dests →
  NoDup dests →
  dests ≠ [] →
  (∀ d, d ∈ dests → Arc.wild "*TRAV*" d = false) →
  (∀ f, f ∈ bridges.schema flatNetwork → Arc.wild "*TRAV*" f = false) →
  bridges.rows flatNetwork !! i = Some r0 →
  ∃ r,
    bridges.rows (Network.run CFRoutes TravEdges bs flatNetwork edgeFreqs) !! i = Some r
    ∧ (∀ d, d ∈ dests →
         bridges.get (Network.netBusFreqField d) r
         = Some (Qc_of_Z (Z.of_nat (length (edges_of bs r0 d))))
         ∧ bridges.get (Network.netJobFreqField d) r
           = Some (Qc_sum (omap TravEdges.Truck_Int (edges_of bs r0 d))))
    ∧ bridges.get "BUS_TRAV_SUM" r
      = Some (Qc_sum ((λ d, Qc_of_Z (Z.of_nat (length (edges_of bs r0 d)))) <$> dests))
    ∧ bridges.get "JOB_TRAV_SUM" r
      = Some (Qc_sum ((λ d, Qc_sum (omap TravEdges.Truck_Int (edges_of bs r0 d)))
                        <$> dests)).
Proof.
  intros Hperm Hnd Hne Hnames Horig Hi. rewrite network_run_rows.
  set (freq := Network.destFreq CFRoutes TravEdges bs).
  set (J := {| bridges.schema := _; bridges.rows := _ |}).
  assert (NoDup edgeFreqs) as Hnd' by (by rewrite Hperm).
  assert (edgeFreqs ≠ []) as Hne'.
  { intros ->. apply Permutation_nil_l in Hperm. by subst. }
  assert (∀ c, c ∈ edgeFreqs → Arc.wild "*TRAV*" c = false) as Hnames'.
  { intros c Hc. apply Hnames. by rewrite <- Hperm. }
  set (r1 := foldl (λ r c, Network.join_edgeFreq c (freq c) r) r0 edgeFreqs).
  assert (bridges.rows J !! i = Some r1) as Hr1.
  { unfold J. cbn [bridges.rows]. by rewrite list_lookup_fmap, Hi. }
  destruct (net_totals_of_joined J (bridges.schema flatNetwork) edgeFreqs i r1
              eq_refl Hne' Hnames' Horig Hr1) as (r & Hr & Hbus & Hjob & Hclass).
  assert (∀ c, c ∈ edgeFreqs →
            default 0 (bridges.get (Network.netBusFreqField c) r1)
            = Qc_of_Z (Z.of_nat (length (edges_of bs r0 c)))
            ∧ default 0 (bridges.get (Network.netJobFreqField c) r1)
              = Qc_sum (omap TravEdges.Truck_Int (edges_of bs r0 c))) as Hvals.
  { intros c Hc. unfold r1.
    destruct (net_join_all_own freq edgeFreqs c r0 Hnd' Hc) as [-> ->].
    apply destFreq_found. }
  assert (∀ g : string → Qc, Qc_sum (g <$> edgeFreqs) = Qc_sum (g <$> dests)) as Hsum.
  { intros g. apply Qc_sum_perm. by rewrite Hperm. }
  exists r. split; [exact Hr|]. split; [|split].
  - intros d Hd. rewrite <- Hperm in Hd.
    destruct (Hclass d Hd) as [-> ->]. destruct (Hvals d Hd) as [-> ->]. done.
  - rewrite Hbus, <- Hsum. do 2 f_equal. apply list_fmap_ext. intros j c Hc.
    apply Hvals. by apply list_elem_of_lookup_2 in Hc.
  - rewrite Hjob, <- Hsum. do 2 f_equal. apply list_fmap_ext. intros j c Hc.
    apply Hvals. by apply list_elem_of_lookup_2 in Hc.
Qed.

End NetworkTotals.

Lemma X16_witness :
  ∃ r,
    bridges.rows Example3.Network_Joined !! 0%nat = Some r
    ∧ bridges.get "BUS_TRAV_SUM" r
      = Some (Qc_sum
                ((λ d, Qc_of_Z
                         (Z.of_nat
                            (length
                               (filter
                                  (λ e, TravEdges.Network_Sect_Concat e
                                        = Some "Network_LocalStreets7")
                                  (Network.destEdges Example3.CFRoutes
                                     Example3.TravEdges Example3.the_businesses d)))))
                 <$> Example.dests)).
Proof.
  destruct (X16_network_counts_and_sums
              Example3.CFRoutes Example3.TravEdges Example3.the_businesses
              Example3.flatNetwork ["South"; "North"] Example.dests 0%nat
              {| bridges.BRDG_NBR := "Network_LocalStreets7";
                 bridges.attrs := {[ "Shape_Length" := Example.q 100 ]} |})
    as (r & Hr & _ & Hbus & _).
  - apply perm_swap.
  - apply NoDup_cons. split; [|apply NoDup_singleton].
    intros ?%list_elem_of_singleton. discriminate.
  - discriminate.
  - intros d Hd. apply elem_of_cons in Hd as [->|Hd]; [vm_compute; reflexivity|].
    apply list_elem_of_singleton in Hd as ->. vm_compute. reflexivity.
  - intros f Hf. apply list_elem_of_singleton in Hf as ->. vm_compute. reflexivity.
  - reflexivity.
  - exists r. split; [exact Hr|exact Hbus].
Defined.
